(** * python-prep: the notebooks' loops, kernel namespace and partitioned data

    A shallow embedding of the code cells of the three notebooks
    - practice-problems/Data Structures Conditionals and Loops,
    - the practice problems on shallow and deep copies, which the sources
      store after the first notebook, and
    - lectures/Parquet Files (Optional).
    Python integers are unbounded, so they are [Z]; a [dict] with string
    keys is a [gmap string _]; a [list] is a [list]. *)

From Stdlib Require Import ZArith Ascii.
From stdpp Require Import gmap strings list fin_maps.

Local Open Scope string_scope.
Local Open Scope list_scope.
Local Open Scope Z_scope.

(** ** Pure loops of the practice problems *)

Module Loops.

(** [range(lo, hi)]: the integers [lo], [lo+1], ..., [hi-1]; empty when
    [hi <= lo]. *)
Definition range (lo hi : Z) : list Z := seqZ lo (hi - lo).

(** [sum(l)] for a list of integers. *)
Definition sum (l : list Z) : Z := foldr Z.add 0 l.

(** Problem 3:
<<
    multiples_loop = []
    for i in range(1,21):
        multiples_loop.append(3*i)
>>
    with the multiplier [3] and the count [20] as arguments. *)
Definition multiples_loop (m n : Z) : list Z :=
  foldl (λ acc i, acc ++ [m * i]) [] (range 1 (n + 1)).

(** Problem 4: [multiples = [7*i for i in range(1,21)]]. *)
Definition multiples (m n : Z) : list Z :=
  (λ i, m * i) <$> range 1 (n + 1).

(** More advanced problem 3: one iteration of
<<
    for word in sample_words:
        if word in my_dict.keys():
            my_dict[word]=my_dict[word]+1
        else:
            my_dict[word]=1
>> *)
Definition my_dict_step (my_dict : gmap string Z) (word : string) : gmap string Z :=
  match my_dict !! word with
  | Some n => <[word := n + 1]> my_dict
  | None => <[word := 1]> my_dict
  end.

(** The whole loop, started from [my_dict={}]. *)
Definition my_dict_loop (words : list string) : gmap string Z :=
  foldl my_dict_step ∅ words.

(** Number of occurrences of [w] in [l]. *)
Definition occurrences (w : string) (l : list string) : Z :=
  Z.of_nat (length (filter (λ x, x = w) l)).

Definition sample_words : list string :=
  ["apple"; "banana"; "apple"; "computer"; "computer";
   "programming"; "language"; "Obama"; "Bush"; "Trump";
   "Eisenhower"; "president"; "president"; "president";
   "president"; "dog"; "dog"; "cat"; "duck"; "duck"; "goose";
   "baseball"; "basketball"; "football"; "hockey"; "soccer";
   "sports"; "lebron"; "james"; "darius"; "garland"].

(** More advanced problem 4: the state of
<<
    position = 0
    for i in steps:
        print(position)
        position = position + i
>>
    is the current [position] and the lines printed so far. *)
Definition position_step (st : Z * list Z) (i : Z) : Z * list Z :=
  (st.1 + i, st.2 ++ [st.1]).

Definition position_init : Z * list Z := (0, []).

(** State at the start of iteration [k] (after [k] elements were consumed). *)
Definition position_at (steps : list Z) (k : nat) : Z * list Z :=
  foldl position_step position_init (take k steps).

(** State when the loop has terminated. *)
Definition position_loop (steps : list Z) : Z * list Z :=
  foldl position_step position_init steps.

Definition steps : list Z :=
  [-1;1;1;-1;-1;1;1;1;-1;-1;-1;-1;-1;1;-1;1;-1;1;1;1;-1;-1;1;1;-1;-1].

End Loops.

(** ** The notebook kernel

    The cells of one notebook run one after the other in one kernel and
    share its state (the variable namespace, and for some notebooks a heap
    of mutable objects or a file system). A cell is a computation on that
    state which may print, may raise, and may end in an expression whose
    value is displayed as [Out[n]]. What was assigned before an exception
    stays assigned. *)

Module Kernel.

Inductive exn :=
| NameError (name : string)
| IndexError
| KeyError (key : string)
| TypeError
| ZeroDivisionError
| OverflowError
| AttributeError (name : string)
| FileNotFoundError (path : string)
| IsADirectoryError (path : string)
| ArrowInvalid (path : string).

(** A computation on a state [S] printing values of type [O]. *)
Definition M (S O A : Type) : Type := S → S * list O * (exn + A).

Section monad.
Context {S O : Type}.

Definition ret {A} (a : A) : M S O A := λ s, (s, [], inr a).

Definition bind {A B} (m : M S O A) (f : A → M S O B) : M S O B :=
  λ s, match m s with
       | (s', out, inl e) => (s', out, inl e)
       | (s', out, inr a) =>
           match f a s' with (s'', out', r) => (s'', out ++ out', r) end
       end.

Definition raise {A} (e : exn) : M S O A := λ s, (s, [], inl e).

Definition print (o : O) : M S O () := λ s, (s, [o], inr ()).

Definition modify (f : S → S) : M S O () := λ s, (f s, [], inr ()).

(** Reading the name [name], bound when the field [proj] is [Some _]. *)
Definition read {A} (name : string) (proj : S → option A) : M S O A :=
  λ s, match proj s with
       | Some v => (s, [], inr v)
       | None => (s, [], inl (NameError name))
       end.

(** [for x in xs: body x] *)
Fixpoint for_ {A} (xs : list A) (body : A → M S O ()) : M S O () :=
  match xs with
  | [] => ret ()
  | x :: xs => bind (body x) (λ _, for_ xs body)
  end.

(** A code cell; its value is the last expression's, if it ends in one. *)
Definition cell : Type := M S O (option O).

Record outcome := Outcome {
  stdout : list O;
  out : option O;
  error : option exn
}.

(** The outcome of a cell that prints nothing and does not raise. *)
Definition quiet (v : option O) : outcome := Outcome [] v None.

Definition run_cell (c : cell) (s : S) : S * outcome :=
  match c s with
  | (s', printed, inl e) => (s', Outcome printed None (Some e))
  | (s', printed, inr v) => (s', Outcome printed v None)
  end.

(** Running the cells in order; the kernel goes on after a cell that
    raised, as the recorded execution counts show. *)
Fixpoint run_all (cells : list cell) (s : S) : S * list outcome :=
  match cells with
  | [] => (s, [])
  | c :: cells =>
      let '(s', o) := run_cell c s in
      let '(s'', os) := run_all cells s' in
      (s'', o :: os)
  end.

(** The kernel state in which the cell number [n] (from 0) starts. *)
Definition state_before (cells : list cell) (n : nat) (s : S) : S :=
  (run_all (take n cells) s).1.

(** The property that the specification states of the cells, "each cell
    is a standalone demonstration with no shared runtime state": a cell
    gives in the fresh kernel the outcome that it gives after the cells
    before it. *)
Definition standalone (cells : list cell) (fresh : S) : Prop :=
  ∀ k c, cells !! k = Some c →
    (run_cell c fresh).2 = (run_cell c (state_before cells k fresh)).2.

(** The outcome of a cell is determined by the part [view] of the kernel
    state: two runs from states with the same view give the same outcome. *)
Definition determined_by {V} (view : S → V) (c : cell) : Prop :=
  ∀ s s', view s = view s' → (run_cell c s).2 = (run_cell c s').2.

(** The cells that raised, with their position in the notebook. *)
Definition errors (os : list outcome) : list (nat * exn) :=
  omap (λ p, (p.1,.) <$> error p.2) (imap pair os).
End monad.

Arguments cell : clear implicits.
Arguments outcome : clear implicits.

End Kernel.

Declare Scope kernel_scope.
Delimit Scope kernel_scope with kernel.
Notation "x ← m ; k" := (Kernel.bind m (λ x, k))
  (at level 20, m at level 100, k at level 200, only parsing) : kernel_scope.
Notation "m ;; k" := (Kernel.bind m (λ _, k))
  (at level 100, k at level 200, right associativity, only parsing) : kernel_scope.

(** ** Data frames and partitioned datasets

    The notebooks call a dataframe library and a columnar-storage library
    whose code is not part of the repository. What the cells use of them
    is modelled here: from the specification where it describes the
    behaviour (the partitioned directory, the aggregate and the filtered
    read), and otherwise from what the calls of the cells are documented
    to do. *)

Module Frames.

(** A value in a data frame: an integer, a string or a boolean. *)
Inductive scalar :=
| CInt (n : Z)
| CStr (s : string)
| CBool (b : bool).

#[global] Instance scalar_eq_dec : EqDecision scalar.
Proof. solve_decision. Defined.

(** A data frame: its columns in order, its row labels (the index) and its
    rows; a row maps a column name to the value it holds, and holds nothing
    (NaN) at a column it does not map. *)
Record DataFrame := {
  columns : list string;
  index : list Z;
  rows : list (gmap string scalar)
}.

(** The default index [0, 1, ..., n-1]. *)
Definition range_index (n : nat) : list Z := seqZ 0 (Z.of_nat n).

(** [len(df)] *)
Definition len (df : DataFrame) : Z := Z.of_nat (length (rows df)).

(** [df.head()]: the first five rows. *)
Definition head (df : DataFrame) : DataFrame :=
  {| columns := columns df; index := take 5 (index df); rows := take 5 (rows df) |}.

(** [df.loc[label, column] = value]: sets the value in every row labelled
    [label]; a label that is not in the index is appended as a new row, and
    a column that is not among the columns is appended as a new column. The
    value is taken to be of the type that the column holds, as in the
    notebook; what the library does with a value of another type depends on
    its version and is outside the model. *)
Definition set_loc (label : Z) (column : string) (value : scalar)
    (df : DataFrame) : DataFrame :=
  let cols :=
    if decide (column ∈ columns df) then columns df else columns df ++ [column] in
  if decide (label ∈ index df) then
    {| columns := cols;
       index := index df;
       rows := zip_with (λ lab r, if decide (lab = label) then <[column := value]> r else r)
                 (index df) (rows df) |}
  else
    {| columns := cols;
       index := index df ++ [label];
       rows := rows df ++ [{[column := value]}] |}.

(** *** A partitioned dataset on disk *)

(** A directory level [key=value]; [None] is the partition of the rows
    that hold nothing at the key column. *)
Definition segment : Type := string * option scalar.

(** One leaf file of the directory tree: the directories above it, one per
    partition key, and the table it stores, which has the columns that are
    not partition keys. The tree is kept as the list of its leaf files. *)
Record leaf := {
  leaf_path : list segment;
  leaf_columns : list string;
  leaf_rows : list (gmap string scalar)
}.

(** The key/value pairs of a row, one per partition column, in order. *)
Definition partition_key (partition_cols : list string) (r : gmap string scalar)
    : list segment :=
  (λ c, (c, r !! c)) <$> partition_cols.

(** A row without its partition columns, as a leaf file stores it. *)
Definition drop_columns (partition_cols : list string) (r : gmap string scalar)
    : gmap string scalar :=
  foldr delete r partition_cols.

(** The leaf file of the rows whose key is [p]. *)
Definition leaf_of (df : DataFrame) (partition_cols : list string) (p : list segment)
    : leaf :=
  {| leaf_path := p;
     leaf_columns := filter (λ c, c ∉ partition_cols) (columns df);
     leaf_rows :=
       drop_columns partition_cols <$>
         filter (λ r, partition_key partition_cols r = p) (rows df) |}.

(** Modelled from the spec: the dataframe library's
    [df.to_parquet(dir, partition_cols=..., index=False)], whose code is not
    in the repository. The spec has the dataset "materialized as a directory
    of columnar files partitioned by categorical column values", "each file
    holding the subset matching one partition-key combination", one file
    "per combination of observed values", where "a partition directory's
    path segments encode the partition key/value pairs and every row within
    a leaf file shares those key values". [None] is the error of a
    partition column that the frame does not have. The order in which the
    leaf files are listed is not specified; here it follows the rows. *)
Definition to_parquet (df : DataFrame) (partition_cols : list string)
    : option (list leaf) :=
  if decide (Forall (λ c, c ∈ columns df) partition_cols) then
    Some (leaf_of df partition_cols <$> remove_dups (partition_key partition_cols <$> rows df))
  else None.

(** A stored row with the key values of its path put back. *)
Definition attach (p : list segment) (r : gmap string scalar) : gmap string scalar :=
  foldr (λ kv r, match kv.2 with
                 | Some v => <[kv.1 := v]> r
                 | None => delete kv.1 r
                 end) r p.

(** The rows of one leaf file, as they are read. *)
Definition leaf_table (l : leaf) : list (gmap string scalar) :=
  attach (leaf_path l) <$> leaf_rows l.

(** The columns of a dataset: the stored columns, then the partition keys. *)
Definition dataset_columns (d : list leaf) : list string :=
  match d with
  | [] => []
  | l :: _ => leaf_columns l ++ (fst <$> leaf_path l)
  end.

Definition table (cols : list string) (rs : list (gmap string scalar)) : DataFrame :=
  {| columns := cols; index := range_index (length rs); rows := rs |}.

(** Modelled from the spec: reading the directory "in aggregate"
    ([pd.read_parquet(dir)], or [pq.ParquetDataset(dir).read().to_pandas()]),
    whose code is not in the repository: the rows of all leaf files, each
    with the key values of its path. *)
Definition read_parquet (d : list leaf) : DataFrame :=
  table (dataset_columns d) (d ≫= leaf_table).

(** *** Filters *)

(** The comparison of a filter triple: ['=='], ['!='], ['<'], ['<='],
    ['>'], ['>=']. *)
Inductive op := Eq | Ne | Lt | Le | Gt | Ge.

Definition of_comparison (o : op) (c : comparison) : bool :=
  match o, c with
  | Eq, Datatypes.Eq => true
  | Ne, (Datatypes.Lt | Datatypes.Gt) => true
  | Lt, Datatypes.Lt => true
  | Le, (Datatypes.Lt | Datatypes.Eq) => true
  | Gt, Datatypes.Gt => true
  | Ge, (Datatypes.Gt | Datatypes.Eq) => true
  | _, _ => false
  end.

(** [x o y]; [None] when the two values are of different types, which the
    library refuses. *)
Definition compare_scalar (o : op) (x y : scalar) : option bool :=
  match x, y with
  | CInt a, CInt b => Some (of_comparison o (a ?= b))
  | CStr a, CStr b => Some (of_comparison o (String.compare a b))
  | CBool a, CBool b => Some (of_comparison o (Z.b2z a ?= Z.b2z b))
  | _, _ => None
  end.

(** A filter: (column, operator, value). *)
Definition filter_triple : Type := string * op * scalar.

(** Whether a row passes a filter; a row holding nothing at the column
    does not. *)
Definition passes (f : filter_triple) (r : gmap string scalar) : option bool :=
  match r !! f.1.1 with
  | Some x => compare_scalar f.1.2 x f.2
  | None => Some false
  end.

(** The row holds a string, or nothing, at the column. *)
Definition holds_string (c : string) (r : gmap string scalar) : Prop :=
  match r !! c with
  | Some (CStr _) | None => True
  | Some _ => False
  end.

(** The row holds an integer, or nothing, at the column. *)
Definition holds_integer (c : string) (r : gmap string scalar) : Prop :=
  match r !! c with
  | Some (CInt _) | None => True
  | Some _ => False
  end.

(** The row holds an integer at the column. *)
Definition integer_at (c : string) (r : gmap string scalar) : Prop :=
  match r !! c with
  | Some (CInt _) => True
  | _ => False
  end.

(** The row holds an integer below [n] at the column. *)
Definition int_below (c : string) (n : Z) (r : gmap string scalar) : Prop :=
  match r !! c with
  | Some (CInt a) => a < n
  | _ => False
  end.

#[global] Instance holds_string_dec c r : Decision (holds_string c r).
Proof. unfold holds_string. destruct (r !! c) as [[]|]; apply _. Defined.

#[global] Instance holds_integer_dec c r : Decision (holds_integer c r).
Proof. unfold holds_integer. destruct (r !! c) as [[]|]; apply _. Defined.

#[global] Instance integer_at_dec c r : Decision (integer_at c r).
Proof. unfold integer_at. destruct (r !! c) as [[]|]; apply _. Defined.

#[global] Instance int_below_dec c n r : Decision (int_below c n r).
Proof. unfold int_below. destruct (r !! c) as [[]|]; apply _. Defined.

(** The rows that pass one filter; [None] when a comparison is refused. *)
Fixpoint apply_filter (f : filter_triple) (rs : list (gmap string scalar))
    : option (list (gmap string scalar)) :=
  match rs with
  | [] => Some []
  | r :: rs =>
      match passes f r, apply_filter f rs with
      | Some b, Some rs' => Some (if b then r :: rs' else rs')
      | _, _ => None
      end
  end.

(** The filters, applied one after the other in the order of the list. *)
Definition apply_filters (fs : list filter_triple) (rs : list (gmap string scalar))
    : option (list (gmap string scalar)) :=
  foldl (λ acc f, acc ≫= apply_filter f) (Some rs) fs.

(** Modelled from the spec: reading the directory "through key/value and
    numeric-comparison filters supplied as an ordered list of (column,
    operator, value) triples, applied conjunctively in listed order"
    ([pq.ParquetDataset(dir, filters=...).read().to_pandas()]), whose code
    is not in the repository. *)
Definition read_filtered (d : list leaf) (fs : list filter_triple) : option DataFrame :=
  table (dataset_columns d) <$> apply_filters fs (d ≫= leaf_table).

(** Modelled from the spec: [dataset.partitioning.dictionaries], whose code
    is not in the repository: for each partition key, the values found on
    the paths of the leaf files. *)
Definition key_values (d : list leaf) (k : string) : list scalar :=
  remove_dups (d ≫= λ l, omap (λ kv, if decide (kv.1 = k) then kv.2 else None) (leaf_path l)).

(** The partition keys of a dataset. *)
Definition partition_keys (d : list leaf) : list string :=
  match d with
  | [] => []
  | l :: _ => fst <$> leaf_path l
  end.

Definition dictionaries (d : list leaf) : list (list scalar) :=
  key_values d <$> partition_keys d.

(** The data types of the columns as the columnar library shows them. *)
Inductive dtype := Int64 | String_ | Bool_ | Dictionary | Mixed.

Definition scalar_dtype (v : scalar) : dtype :=
  match v with CInt _ => Int64 | CStr _ => String_ | CBool _ => Bool_ end.

#[global] Instance dtype_eq_dec : EqDecision dtype.
Proof. solve_decision. Defined.

(** The type of a stored column: that of its values when every row holds
    one and they agree. A column of integers in which a row holds nothing
    is not stored as [int64]. *)
Definition column_dtype (rs : list (gmap string scalar)) (c : string) : dtype :=
  match remove_dups ((λ r, scalar_dtype <$> r !! c) <$> rs) with
  | [Some t] => t
  | _ => Mixed
  end.

(** The schema of the table read from a dataset: the stored columns with
    their types, and the partition keys, which are dictionary-encoded. *)
Definition schema (d : list leaf) : list (string * dtype) :=
  match d with
  | [] => []
  | l :: _ =>
      ((λ c, (c, column_dtype (d ≫= leaf_rows) c)) <$> leaf_columns l) ++
      ((λ k, (k, Dictionary)) <$> (fst <$> leaf_path l))
  end.

(** The categories of a column of the table read from a dataset: a
    partition key is read as a categorical column whose categories are the
    values of its dictionary; another column has the values it holds. *)
Definition categories (d : list leaf) (column : string) : list scalar :=
  if decide (column ∈ partition_keys d) then key_values d column
  else remove_dups (omap (λ r, r !! column) (d ≫= leaf_rows)).

(** [df.column.value_counts()]: the number of rows for every category of
    the column, also where it is 0. *)
Definition value_counts (categories : list scalar) (column : string)
    (df : DataFrame) : list (scalar * Z) :=
  (λ v, (v, Z.of_nat (length (filter (λ r, r !! column = Some v) (rows df))))) <$> categories.

(** The integers of a column. *)
Definition int_values (column : string) (df : DataFrame) : list Z :=
  omap (λ r, match r !! column with Some (CInt n) => Some n | _ => None end) (rows df).

(** [df.column.describe()] of an integer column, without its statistics in
    floating point (mean, std and the quartiles): count, min and max. *)
Record description := {
  d_count : Z;
  d_min : option Z;
  d_max : option Z
}.

Definition minimum (l : list Z) : option Z :=
  match l with [] => None | x :: l => Some (foldr Z.min x l) end.

Definition maximum (l : list Z) : option Z :=
  match l with [] => None | x :: l => Some (foldr Z.max x l) end.

Definition describe (column : string) (df : DataFrame) : description :=
  let l := int_values column df in
  {| d_count := Z.of_nat (length l); d_min := minimum l; d_max := maximum l |}.

End Frames.

(** ** Notebook: Data Structures, Conditionals and Loops *)

Module DataStructures.
Import Kernel.
Local Open Scope kernel_scope.

(** A Python [float] is kept as the term that computes it: what is proved
    of this notebook does not depend on the rounding of IEEE doubles, and
    the printed digits are not modelled. *)
Inductive float :=
| FOfInt (n : Z)
| FAdd (x y : float)
| FDiv (n d : Z).

(** The names the notebook binds, each with the type it is used at;
    [None] is an unbound name. The variable of a comprehension is local to
    it and is not a name of the kernel. *)
Record namespace := Namespace {
  t : option (Z);
  multiples_loop : option (list Z);
  i : option (Z);
  multiples : option (list Z);
  approx_pi : option (float);
  N : option (Z);
  sample_words : option (list string);
  my_dict : option (gmap string Z);
  word : option (string);
  steps : option (list Z);
  position : option (Z)
}.

Definition fresh : namespace :=
  Namespace None None None None None None None None None None None.

Definition set_t (v : Z) (s : namespace) : namespace :=
  {| t := Some v; multiples_loop := multiples_loop s; i := i s; multiples
     := multiples s; approx_pi := approx_pi s; N := N s; sample_words :=
     sample_words s; my_dict := my_dict s; word := word s; steps := steps
     s; position := position s |}.

Definition set_multiples_loop (v : list Z) (s : namespace) : namespace :=
  {| t := t s; multiples_loop := Some v; i := i s; multiples := multiples
     s; approx_pi := approx_pi s; N := N s; sample_words := sample_words
     s; my_dict := my_dict s; word := word s; steps := steps s; position
     := position s |}.

Definition set_i (v : Z) (s : namespace) : namespace :=
  {| t := t s; multiples_loop := multiples_loop s; i := Some v; multiples
     := multiples s; approx_pi := approx_pi s; N := N s; sample_words :=
     sample_words s; my_dict := my_dict s; word := word s; steps := steps
     s; position := position s |}.

Definition set_multiples (v : list Z) (s : namespace) : namespace :=
  {| t := t s; multiples_loop := multiples_loop s; i := i s; multiples :=
     Some v; approx_pi := approx_pi s; N := N s; sample_words :=
     sample_words s; my_dict := my_dict s; word := word s; steps := steps
     s; position := position s |}.

Definition set_approx_pi (v : float) (s : namespace) : namespace :=
  {| t := t s; multiples_loop := multiples_loop s; i := i s; multiples :=
     multiples s; approx_pi := Some v; N := N s; sample_words :=
     sample_words s; my_dict := my_dict s; word := word s; steps := steps
     s; position := position s |}.

Definition set_N (v : Z) (s : namespace) : namespace :=
  {| t := t s; multiples_loop := multiples_loop s; i := i s; multiples :=
     multiples s; approx_pi := approx_pi s; N := Some v; sample_words :=
     sample_words s; my_dict := my_dict s; word := word s; steps := steps
     s; position := position s |}.

Definition set_sample_words (v : list string) (s : namespace) : namespace :=
  {| t := t s; multiples_loop := multiples_loop s; i := i s; multiples :=
     multiples s; approx_pi := approx_pi s; N := N s; sample_words := Some
     v; my_dict := my_dict s; word := word s; steps := steps s; position
     := position s |}.

Definition set_my_dict (v : gmap string Z) (s : namespace) : namespace :=
  {| t := t s; multiples_loop := multiples_loop s; i := i s; multiples :=
     multiples s; approx_pi := approx_pi s; N := N s; sample_words :=
     sample_words s; my_dict := Some v; word := word s; steps := steps s;
     position := position s |}.

Definition set_word (v : string) (s : namespace) : namespace :=
  {| t := t s; multiples_loop := multiples_loop s; i := i s; multiples :=
     multiples s; approx_pi := approx_pi s; N := N s; sample_words :=
     sample_words s; my_dict := my_dict s; word := Some v; steps := steps
     s; position := position s |}.

Definition set_steps (v : list Z) (s : namespace) : namespace :=
  {| t := t s; multiples_loop := multiples_loop s; i := i s; multiples :=
     multiples s; approx_pi := approx_pi s; N := N s; sample_words :=
     sample_words s; my_dict := my_dict s; word := word s; steps := Some
     v; position := position s |}.

Definition set_position (v : Z) (s : namespace) : namespace :=
  {| t := t s; multiples_loop := multiples_loop s; i := i s; multiples :=
     multiples s; approx_pi := approx_pi s; N := N s; sample_words :=
     sample_words s; my_dict := my_dict s; word := word s; steps := steps
     s; position := Some v |}.

(** What a cell prints or displays. *)
Inductive atom :=
| AInt (n : Z)
| AFloat (x : float)
| AStr (s : string).

Inductive shown :=
| SInt (n : Z)
| SStr (s : string)
| SInts (l : list Z)
| SDict (d : gmap string Z)
| SLine (args : list atom).

Abbreviation cell := (Kernel.cell namespace shown).
Abbreviation M := (Kernel.M namespace shown).

(** *** String methods (on ASCII letters) *)

Definition upper (c : ascii) : ascii :=
  let n := N_of_ascii c in
  if ((97 <=? n) && (n <=? 122))%N then ascii_of_N (n - 32) else c.

Definition lower (c : ascii) : ascii :=
  let n := N_of_ascii c in
  if ((65 <=? n) && (n <=? 90))%N then ascii_of_N (n + 32) else c.

Fixpoint lower_all (s : string) : string :=
  match s with
  | EmptyString => EmptyString
  | String c s => String (lower c) (lower_all s)
  end.

(** [s.capitalize()]: first character in upper case, the others in lower
    case. The letters are those of ASCII, of which the strings of the
    notebook consist; other characters are left as they are. *)
Definition capitalize (s : string) : string :=
  match s with
  | EmptyString => EmptyString
  | String c s => String (upper c) (lower_all s)
  end.

(** [s * n] for a string and an integer; empty for [n <= 0]. *)
Definition str_mul (s : string) (n : Z) : string :=
  String.concat "" (replicate (Z.to_nat n) s).

(** [n / d] on integers is true division and raises on a zero divisor. *)
Definition truediv (n d : Z) : M float :=
  if decide (d = 0) then raise ZeroDivisionError else ret (FDiv n d).

(** *** The code cells, in the order of the notebook *)

(** [t = 17] *)
Definition cell_t : cell :=
  modify (set_t 17);;
  ret None.

(** ["little orphan annie".capitalize()] *)
Definition cell_capitalize_lower : cell :=
  ret (Some (SStr (capitalize "little orphan annie"))).

(** ["Little orphan annie".capitalize()] *)
Definition cell_capitalize_upper : cell :=
  ret (Some (SStr (capitalize "Little orphan annie"))).

(**
<<
    multiples_loop = []
    for i in range(1,21):
        multiples_loop.append(3*i)

    multiples_loop
>> *)
Definition cell_multiples_loop : cell :=
  modify (set_multiples_loop []);;
  for_ (Loops.range 1 21) (λ x,
    modify (set_i x);;
    l ← read "multiples_loop" multiples_loop;
    modify (set_multiples_loop (l ++ [3 * x])));;
  l ← read "multiples_loop" multiples_loop;
  ret (Some (SInts l)).

(**
<<
    multiples = [7*i for i in range(1,21)]
    multiples
>> *)
Definition cell_multiples : cell :=
  modify (set_multiples ((λ x, 7 * x) <$> Loops.range 1 21));;
  l ← read "multiples" multiples;
  ret (Some (SInts l)).

(** ["times"*5] *)
Definition cell_times : cell :=
  ret (Some (SStr (str_mul "times" 5))).

(**
<<
    approx_pi=0

    N=10

    for i in range(N+1):
        approx_pi = approx_pi +8/((4*i + 1)*(4*i + 3))
    print("For N=", N, "approximation is", approx_pi)
>>
    which the cell repeats for N = 10, 20, 100, 1000. *)
Definition approximate_pi (n : Z) : M () :=
  modify (set_approx_pi (FOfInt 0));;
  modify (set_N n);;
  n ← read "N" N;
  for_ (Loops.range 0 (n + 1)) (λ x,
    modify (set_i x);;
    acc ← read "approx_pi" approx_pi;
    q ← truediv 8 ((4 * x + 1) * (4 * x + 3));
    modify (set_approx_pi (FAdd acc q)));;
  n ← read "N" N;
  acc ← read "approx_pi" approx_pi;
  print (SLine [AStr "For N="; AInt n; AStr "approximation is"; AFloat acc]).

Definition cell_approx_pi : cell :=
  approximate_pi 10;;
  approximate_pi 20;;
  approximate_pi 100;;
  approximate_pi 1000;;
  ret None.

(**
<<
    for i in range(15):
        print("Time"*i)

    print()

    for i in range(15):
        print("Time"*(15-i))
>> *)
Definition cell_triangle : cell :=
  for_ (Loops.range 0 15) (λ x,
    modify (set_i x);;
    print (SStr (str_mul "Time" x)));;
  print (SStr "");;
  for_ (Loops.range 0 15) (λ x,
    modify (set_i x);;
    print (SStr (str_mul "Time" (15 - x))));;
  ret None.

(** [sample_words = ["apple", "banana", ...]] *)
Definition cell_sample_words : cell :=
  modify (set_sample_words Loops.sample_words);;
  ret None.

(**
<<
    my_dict={}

    for word in sample_words:
        if word in my_dict.keys():
            my_dict[word]=my_dict[word]+1
        else:
            my_dict[word]=1

    my_dict
>> *)
Definition my_dict_body (w : string) : M () :=
  modify (set_word w);;
  d ← read "my_dict" my_dict;
  match d !! w with
  | Some n => modify (set_my_dict (<[w := n + 1]> d))
  | None => modify (set_my_dict (<[w := 1]> d))
  end.

Definition cell_my_dict : cell :=
  modify (set_my_dict ∅);;
  ws ← read "sample_words" sample_words;
  for_ ws my_dict_body;;
  d ← read "my_dict" my_dict;
  ret (Some (SDict d)).

(** [steps = [-1,1,1,-1,...]] *)
Definition cell_steps : cell :=
  modify (set_steps Loops.steps);;
  ret None.

(**
<<
    position = 0

    for i in steps:
        print(position)
        position = position + i
>> *)
Definition position_body (x : Z) : M () :=
  modify (set_i x);;
  p ← read "position" position;
  print (SInt p);;
  p ← read "position" position;
  modify (set_position (p + x)).

Definition cell_position : cell :=
  modify (set_position 0);;
  l ← read "steps" steps;
  for_ l position_body;;
  ret None.

(** The two cells without code ([## Code here] and the empty last cell). *)
Definition cell_empty : cell := ret None.

Definition notebook : list cell :=
  [cell_t; cell_capitalize_lower; cell_capitalize_upper; cell_multiples_loop;
   cell_multiples; cell_times; cell_approx_pi; cell_triangle;
   cell_sample_words; cell_my_dict; cell_steps; cell_position;
   cell_empty; cell_empty].

(** What the cell number [k] reads of the names bound by other cells: the
    word count reads [sample_words], the position loop reads [steps]; the
    other cells bind what they read. *)
Definition inputs (k : nat) (s : namespace) : option (list string) * option (list Z) :=
  match k with
  | 9%nat => (sample_words s, None)
  | 11%nat => (None, steps s)
  | _ => (None, None)
  end.

End DataStructures.

(** ** Notebook: Shallow and Deep Copies *)

Module Copies.
Import Kernel.
Local Open Scope kernel_scope.

(** Lists, arrays and data frames are mutable objects: a name holds a
    reference to one, and two names may hold the same reference. *)
Definition loc : Type := positive.

(** An element of a list: an integer, or a reference to another list. *)
Inductive elem :=
| EInt (n : Z)
| EList (l : loc).

(** What [a] and [b] are bound to: a [list] or a numpy array. *)
Inductive ref :=
| RList (l : loc)
| RArray (l : loc).

(** The kernel state: the names of the notebook ([copy], [np] and [pd] are
    the imported modules), the objects, and the next free reference. *)
Record state := State {
  a : option ref;
  b : option ref;
  copy : option ();
  np : option ();
  pd : option ();
  df : option loc;
  df_copy : option loc;
  lists : gmap loc (list elem);
  arrays : gmap loc (list Z);
  frames : gmap loc Frames.DataFrame;
  next : loc
}.

Definition fresh : state :=
  State None None None None None None None ∅ ∅ ∅ 1%positive.

Definition set_a (v : option ref) (s : state) : state :=
  {| a := v; b := b s; copy := copy s; np := np s; pd := pd s; df := df s;
     df_copy := df_copy s; lists := lists s; arrays := arrays s; frames :=
     frames s; next := next s |}.

Definition set_b (v : option ref) (s : state) : state :=
  {| a := a s; b := v; copy := copy s; np := np s; pd := pd s; df := df s;
     df_copy := df_copy s; lists := lists s; arrays := arrays s; frames :=
     frames s; next := next s |}.

Definition set_copy (v : option ()) (s : state) : state :=
  {| a := a s; b := b s; copy := v; np := np s; pd := pd s; df := df s;
     df_copy := df_copy s; lists := lists s; arrays := arrays s; frames :=
     frames s; next := next s |}.

Definition set_np (v : option ()) (s : state) : state :=
  {| a := a s; b := b s; copy := copy s; np := v; pd := pd s; df := df s;
     df_copy := df_copy s; lists := lists s; arrays := arrays s; frames :=
     frames s; next := next s |}.

Definition set_pd (v : option ()) (s : state) : state :=
  {| a := a s; b := b s; copy := copy s; np := np s; pd := v; df := df s;
     df_copy := df_copy s; lists := lists s; arrays := arrays s; frames :=
     frames s; next := next s |}.

Definition set_df (v : option loc) (s : state) : state :=
  {| a := a s; b := b s; copy := copy s; np := np s; pd := pd s; df := v;
     df_copy := df_copy s; lists := lists s; arrays := arrays s; frames :=
     frames s; next := next s |}.

Definition set_df_copy (v : option loc) (s : state) : state :=
  {| a := a s; b := b s; copy := copy s; np := np s; pd := pd s; df := df
     s; df_copy := v; lists := lists s; arrays := arrays s; frames :=
     frames s; next := next s |}.

Definition set_lists (v : gmap loc (list elem)) (s : state) : state :=
  {| a := a s; b := b s; copy := copy s; np := np s; pd := pd s; df := df
     s; df_copy := df_copy s; lists := v; arrays := arrays s; frames :=
     frames s; next := next s |}.

Definition set_arrays (v : gmap loc (list Z)) (s : state) : state :=
  {| a := a s; b := b s; copy := copy s; np := np s; pd := pd s; df := df
     s; df_copy := df_copy s; lists := lists s; arrays := v; frames :=
     frames s; next := next s |}.

Definition set_frames (v : gmap loc Frames.DataFrame) (s : state) : state :=
  {| a := a s; b := b s; copy := copy s; np := np s; pd := pd s; df := df
     s; df_copy := df_copy s; lists := lists s; arrays := arrays s; frames
     := v; next := next s |}.

Definition set_next (v : loc) (s : state) : state :=
  {| a := a s; b := b s; copy := copy s; np := np s; pd := pd s; df := df
     s; df_copy := df_copy s; lists := lists s; arrays := arrays s; frames
     := frames s; next := v |}.

(** The value of a list as [print] and [Out] show it; a list that contains
    itself is shown as [[...]] where it recurs. *)
#[warnings="-register-all"]
Inductive pyrepr :=
| PInt (n : Z)
| PList (items : list pyrepr)
| PEllipsis.

Inductive shown :=
| SValue (v : pyrepr)
| SArray (xs : list Z)
| SStr (s : string)
| SFrame (d : Frames.DataFrame).

Abbreviation cell := (Kernel.cell state shown).
Abbreviation M := (Kernel.M state shown).

(** *** Objects *)

Definition new_list (xs : list elem) : M loc :=
  λ s, (set_next (Pos.succ (next s)) (set_lists (<[next s := xs]> (lists s)) s),
        [], inr (next s)).

Definition new_array (xs : list Z) : M loc :=
  λ s, (set_next (Pos.succ (next s)) (set_arrays (<[next s := xs]> (arrays s)) s),
        [], inr (next s)).

Definition new_frame (d : Frames.DataFrame) : M loc :=
  λ s, (set_next (Pos.succ (next s)) (set_frames (<[next s := d]> (frames s)) s),
        [], inr (next s)).

Definition get_list (l : loc) : M (list elem) := λ s, (s, [], inr (lists s !!! l)).
Definition get_array (l : loc) : M (list Z) := λ s, (s, [], inr (arrays s !!! l)).
Definition get_frame (l : loc) : M Frames.DataFrame :=
  λ s, (s, [], inr (default (Frames.table [] []) (frames s !! l))).

(** The position an index denotes in a sequence of [n] elements; a
    negative index counts from the end. *)
Definition norm_index (n : nat) (i : Z) : option nat :=
  if decide (0 ≤ i < Z.of_nat n) then Some (Z.to_nat i)
  else if decide (- Z.of_nat n ≤ i < 0) then Some (Z.to_nat (Z.of_nat n + i))
  else None.

(** The integers that an element of an array holds: [np.array] of a list
    of small integers makes an array of 64-bit integers. *)
Definition int64 (v : Z) : Prop := - 2 ^ 63 ≤ v < 2 ^ 63.

#[global] Instance int64_dec (v : Z) : Decision (int64 v).
Proof. unfold int64. apply _. Defined.

(** [r[i] = v] for an integer [v]. A list takes any integer; an array
    refuses an integer outside the 64 bits of its elements, and is then
    left as it was. *)
Definition setitem (r : ref) (i v : Z) : M () :=
  match r with
  | RList l =>
      xs ← get_list l;
      match norm_index (length xs) i with
      | Some k => modify (λ s, set_lists (<[l := <[k := EInt v]> xs]> (lists s)) s)
      | None => raise IndexError
      end
  | RArray l =>
      xs ← get_array l;
      match norm_index (length xs) i with
      | Some k =>
          if decide (int64 v)
          then modify (λ s, set_arrays (<[l := <[k := v]> xs]> (arrays s)) s)
          else raise OverflowError
      | None => raise IndexError
      end
  end.

(** [r[i][j] = v]: an integer element does not take an item assignment. *)
Definition setitem2 (r : ref) (i j v : Z) : M () :=
  match r with
  | RList l =>
      xs ← get_list l;
      match norm_index (length xs) i with
      | Some k =>
          match xs !! k with
          | Some (EList l') => setitem (RList l') j v
          | _ => raise TypeError
          end
      | None => raise IndexError
      end
  | RArray l =>
      xs ← get_array l;
      match norm_index (length xs) i with
      | Some _ => raise TypeError
      | None => raise IndexError
      end
  end.

(** [copy.copy(r)] and [r.copy()]: a new object with the same elements;
    the lists inside a list are shared with the original. *)
Definition shallow_copy (r : ref) : M ref :=
  match r with
  | RList l => xs ← get_list l; l' ← new_list xs; ret (RList l')
  | RArray l => xs ← get_array l; l' ← new_array xs; ret (RArray l')
  end.

(** [copy.deepcopy] of a list: a new list whose inner lists are copied in
    turn; [memo] maps the lists already copied to their copies, so that a
    list met twice is copied once. Each call that is not answered by [memo]
    adds a list to it, which bounds the depth by the number of lists. The
    recursion limit of the interpreter is not part of the kernel state, so
    a copy that would exceed it is outside the model. *)
Fixpoint deepcopy_list (fuel : nat) (l : loc)
    (h : gmap loc (list elem) * loc * gmap loc loc)
    : loc * (gmap loc (list elem) * loc * gmap loc loc) :=
  let '(heap, nxt, memo) := h in
  match memo !! l with
  | Some l' => (l', h)
  | None =>
      match fuel with
      | O => (l, h)
      | S fuel =>
          let l' := nxt in
          let start := (<[l' := []]> heap, Pos.succ nxt, <[l := l']> memo) in
          let '(ys, (heap', nxt', memo')) :=
            foldl (λ acc e,
                     match e with
                     | EInt n => (acc.1 ++ [EInt n], acc.2)
                     | EList l0 =>
                         let '(l0', h') := deepcopy_list fuel l0 acc.2 in
                         (acc.1 ++ [EList l0'], h')
                     end)
                  ([], start) (heap !!! l) in
          (l', (<[l' := ys]> heap', nxt', memo'))
      end
  end.

(** [copy.deepcopy(r)] *)
Definition deep_copy (r : ref) : M ref :=
  match r with
  | RList l =>
      λ s, let '(l', (heap, nxt, _)) :=
             deepcopy_list (S (size (lists s))) l (lists s, next s, ∅) in
           (set_next nxt (set_lists heap s), [], inr (RList l'))
  | RArray l => xs ← get_array l; l' ← new_array xs; ret (RArray l')
  end.

Fixpoint render_list (fuel : nat) (heap : gmap loc (list elem))
    (visiting : gset loc) (l : loc) : pyrepr :=
  match fuel with
  | O => PEllipsis
  | S fuel =>
      if decide (l ∈ visiting) then PEllipsis
      else PList ((λ e, match e with
                        | EInt n => PInt n
                        | EList l' => render_list fuel heap ({[l]} ∪ visiting) l'
                        end) <$> (heap !!! l))
  end.

(** What [print(r)] prints and a final expression [r] displays. *)
Definition render (r : ref) : M shown :=
  match r with
  | RList l =>
      λ s, (s, [], inr (SValue (render_list (S (S (size (lists s)))) (lists s) ∅ l)))
  | RArray l => xs ← get_array l; ret (SArray xs)
  end.

Definition print_ref (r : ref) : M () := v ← render r; print v.

Definition int_list (l : list Z) : list elem := EInt <$> l.

(** *** The code cells, in the order of the notebook *)

(**
<<
    a = [1,2,3,4,5,6]
    b = a
    b[3] = 71

    print(a)
    print(b)
>> *)
Definition cell_alias : cell :=
  l ← new_list (int_list [1; 2; 3; 4; 5; 6]);
  modify (set_a (Some (RList l)));;
  x ← read "a" a;
  modify (set_b (Some x));;
  x ← read "b" b;
  setitem x 3 71;;
  x ← read "a" a; print_ref x;;
  x ← read "b" b; print_ref x;;
  ret None.

(**
<<
    import copy
    b=copy.copy(a)
>> *)
Definition cell_copy : cell :=
  modify (set_copy (Some ()));;
  _ ← read "copy" copy;
  x ← read "a" a;
  y ← shallow_copy x;
  modify (set_b (Some y));;
  ret None.

(**
<<
    a=[1,2,3,4,5,6]
    b[3]=71
    print(a)
    print(b)
>> *)
Definition cell_copy_changed : cell :=
  l ← new_list (int_list [1; 2; 3; 4; 5; 6]);
  modify (set_a (Some (RList l)));;
  x ← read "b" b;
  setitem x 3 71;;
  x ← read "a" a; print_ref x;;
  x ← read "b" b; print_ref x;;
  ret None.

(** [a = [[1, 2, 3, 4], [5, 6, 7, 8]]] *)
Definition assign_nested : M () :=
  l1 ← new_list (int_list [1; 2; 3; 4]);
  l2 ← new_list (int_list [5; 6; 7; 8]);
  l ← new_list [EList l1; EList l2];
  modify (set_a (Some (RList l))).

(**
<<
    a = [[1, 2, 3, 4],
         [5, 6, 7, 8]]

    b = copy.copy(a)
    b[0][2] = 71

    a
>> *)
Definition cell_nested_copy : cell :=
  assign_nested;;
  _ ← read "copy" copy;
  x ← read "a" a;
  y ← shallow_copy x;
  modify (set_b (Some y));;
  x ← read "b" b;
  setitem2 x 0 2 71;;
  x ← read "a" a;
  v ← render x;
  ret (Some v).

(** The same with [b = copy.deepcopy(a)]. *)
Definition cell_nested_deepcopy : cell :=
  assign_nested;;
  _ ← read "copy" copy;
  x ← read "a" a;
  y ← deep_copy x;
  modify (set_b (Some y));;
  x ← read "b" b;
  setitem2 x 0 2 71;;
  x ← read "a" a;
  v ← render x;
  ret (Some v).

(** [import numpy as np] *)
Definition cell_import_numpy : cell :=
  modify (set_np (Some ()));;
  ret None.

(** [a = np.array([1,2,3,4])] *)
Definition assign_array : M () :=
  _ ← read "np" np;
  l ← new_array [1; 2; 3; 4];
  modify (set_a (Some (RArray l))).

(**
<<
    a = np.array([1,2,3,4])
    b = a

    b[2] = 1

    print(a)
    print(b)
>> *)
Definition cell_array_alias : cell :=
  assign_array;;
  x ← read "a" a;
  modify (set_b (Some x));;
  x ← read "b" b;
  setitem x 2 1;;
  x ← read "a" a; print_ref x;;
  x ← read "b" b; print_ref x;;
  ret None.

(** The same with [b = a.copy()]. *)
Definition cell_array_copy : cell :=
  assign_array;;
  x ← read "a" a;
  y ← shallow_copy x;
  modify (set_b (Some y));;
  x ← read "b" b;
  setitem x 2 1;;
  x ← read "a" a; print_ref x;;
  x ← read "b" b; print_ref x;;
  ret None.

(** [del a, b] *)
Definition cell_del : cell :=
  _ ← read "a" a;
  modify (set_a None);;
  _ ← read "b" b;
  modify (set_b None);;
  ret None.

(** [a] *)
Definition cell_a : cell :=
  x ← read "a" a;
  v ← render x;
  ret (Some v).

(** [b] *)
Definition cell_b : cell :=
  x ← read "b" b;
  v ← render x;
  ret (Some v).

(**
<<
    import pandas as pd

    df = pd.DataFrame({'column_1':[435, 999, 545],
                          'column_2':["ab", "bc", "de"],
                          'column_3':[True, True, False]})
>> *)
Definition frame_literal : Frames.DataFrame :=
  Frames.table ["column_1"; "column_2"; "column_3"]
    [ {[ "column_1" := Frames.CInt 435; "column_2" := Frames.CStr "ab";
         "column_3" := Frames.CBool true ]};
      {[ "column_1" := Frames.CInt 999; "column_2" := Frames.CStr "bc";
         "column_3" := Frames.CBool true ]};
      {[ "column_1" := Frames.CInt 545; "column_2" := Frames.CStr "de";
         "column_3" := Frames.CBool false ]} ].

Definition cell_frame : cell :=
  modify (set_pd (Some ()));;
  _ ← read "pd" pd;
  l ← new_frame frame_literal;
  modify (set_df (Some l));;
  ret None.

(** [df_copy = df.copy()] *)
Definition cell_frame_copy : cell :=
  l ← read "df" df;
  d ← get_frame l;
  l' ← new_frame d;
  modify (set_df_copy (Some l'));;
  ret None.

(**
<<
    df_copy.loc[2, 'column_2'] = "cd"

    print("df = ")
    print(df)

    print()

    print("df_copy = ")
    print(df_copy)
>> *)
Definition cell_frame_changed : cell :=
  l ← read "df_copy" df_copy;
  d ← get_frame l;
  modify (λ s, set_frames
                 (<[l := Frames.set_loc 2 "column_2" (Frames.CStr "cd") d]> (frames s)) s);;
  print (SStr "df = ");;
  l ← read "df" df; d ← get_frame l; print (SFrame d);;
  print (SStr "");;
  print (SStr "df_copy = ");;
  l ← read "df_copy" df_copy; d ← get_frame l; print (SFrame d);;
  ret None.

(** The empty last cell. *)
Definition cell_empty : cell := ret None.

Definition notebook : list cell :=
  [cell_alias; cell_copy; cell_copy_changed; cell_nested_copy;
   cell_nested_deepcopy; cell_import_numpy; cell_array_alias; cell_array_copy;
   cell_del; cell_a; cell_b; cell_frame; cell_frame_copy; cell_frame_changed;
   cell_empty].

End Copies.

(** ** Notebook: Parquet Files *)

Module Parquet.
Import Kernel.
Local Open Scope kernel_scope.

(** What a path of the file system holds: a delimited text file, kept as
    the table it parses to, or the directory of a partitioned dataset. *)
Inductive file :=
| Csv (d : Frames.DataFrame)
| ParquetDir (d : list Frames.leaf).

(** A [pq.ParquetDataset]: the leaf files found in the directory and the
    filters it was opened with. *)
Record dataset := {
  ds_leaves : list Frames.leaf;
  ds_filters : list Frames.filter_triple
}.

(** The kernel state: the names of the notebook ([pd] and [pq] are the
    imported modules) and the files. No cell of this notebook changes a
    data frame in place, so the names hold the frames themselves. *)
Record state := State {
  pd : option ();
  df_csv : option Frames.DataFrame;
  df_parq : option Frames.DataFrame;
  pq : option ();
  study_directory : option dataset;
  study_directory_F : option dataset;
  files : gmap string file
}.

Definition set_pd (v : option ()) (s : state) : state :=
  {| pd := v; df_csv := df_csv s; df_parq := df_parq s; pq := pq s;
     study_directory := study_directory s; study_directory_F :=
     study_directory_F s; files := files s |}.

Definition set_df_csv (v : option Frames.DataFrame) (s : state) : state :=
  {| pd := pd s; df_csv := v; df_parq := df_parq s; pq := pq s;
     study_directory := study_directory s; study_directory_F :=
     study_directory_F s; files := files s |}.

Definition set_df_parq (v : option Frames.DataFrame) (s : state) : state :=
  {| pd := pd s; df_csv := df_csv s; df_parq := v; pq := pq s;
     study_directory := study_directory s; study_directory_F :=
     study_directory_F s; files := files s |}.

Definition set_pq (v : option ()) (s : state) : state :=
  {| pd := pd s; df_csv := df_csv s; df_parq := df_parq s; pq := v;
     study_directory := study_directory s; study_directory_F :=
     study_directory_F s; files := files s |}.

Definition set_study_directory (v : option dataset) (s : state) : state :=
  {| pd := pd s; df_csv := df_csv s; df_parq := df_parq s; pq := pq s;
     study_directory := v; study_directory_F := study_directory_F s; files
     := files s |}.

Definition set_study_directory_F (v : option dataset) (s : state) : state :=
  {| pd := pd s; df_csv := df_csv s; df_parq := df_parq s; pq := pq s;
     study_directory := study_directory s; study_directory_F := v; files
     := files s |}.

Definition set_files (v : gmap string file) (s : state) : state :=
  {| pd := pd s; df_csv := df_csv s; df_parq := df_parq s; pq := pq s;
     study_directory := study_directory s; study_directory_F :=
     study_directory_F s; files := v |}.

Definition study_results_csv : string := "../data/study_results.csv".
Definition study_data_parquet : string := "../data/study_data_parquet/".

(** The kernel when the notebook starts: no name is bound, and the file
    system holds the sample input, which is not among the sources and is a
    parameter here. *)
Definition fresh (study_results : Frames.DataFrame) : state :=
  State None None None None None None {[ study_results_csv := Csv study_results ]}.

Inductive shown :=
| SInt (n : Z)
| SFrame (d : Frames.DataFrame)
| STable (fields : list (string * Frames.dtype)) (d : Frames.DataFrame)
| SDictionaries (ds : list (list Frames.scalar))
| SCounts (cs : list (Frames.scalar * Z))
| SDescription (d : Frames.description).

Abbreviation cell := (Kernel.cell state shown).
Abbreviation M := (Kernel.M state shown).

(** [pd.read_csv(path)] *)
Definition read_csv (path : string) : M Frames.DataFrame :=
  λ s, match files s !! path with
       | Some (Csv d) => (s, [], inr d)
       | Some (ParquetDir _) => (s, [], inl (IsADirectoryError path))
       | None => (s, [], inl (FileNotFoundError path))
       end.

(** [df.to_parquet(path, partition_cols=..., index=False)]; the directory
    then holds the leaf files of this frame. *)
Definition to_parquet (d : Frames.DataFrame) (path : string)
    (partition_cols : list string) : M () :=
  match Frames.to_parquet d partition_cols with
  | Some leaves => modify (λ s, set_files (<[path := ParquetDir leaves]> (files s)) s)
  | None =>
      raise (KeyError (default "" (head (filter (λ c, c ∉ Frames.columns d)
                                           partition_cols))))
  end.

(** The leaf files under [path]. *)
Definition list_dataset (path : string) : M (list Frames.leaf) :=
  λ s, match files s !! path with
       | Some (ParquetDir d) => (s, [], inr d)
       | Some (Csv _) => (s, [], inl (ArrowInvalid path))
       | None => (s, [], inl (FileNotFoundError path))
       end.

(** [pd.read_parquet(path)] *)
Definition read_parquet (path : string) : M Frames.DataFrame :=
  d ← list_dataset path;
  ret (Frames.read_parquet d).

(** [pq.ParquetDataset(path, filters=...)] *)
Definition ParquetDataset (path : string) (filters : list Frames.filter_triple)
    : M dataset :=
  d ← list_dataset path;
  ret {| ds_leaves := d; ds_filters := filters |}.

(** [dataset.read()], and [.to_pandas()] of it. *)
Definition read_dataset (ds : dataset) : M Frames.DataFrame :=
  match Frames.read_filtered (ds_leaves ds) (ds_filters ds) with
  | Some d => ret d
  | None => raise TypeError
  end.

(** [df.column]: the frame must have the column. *)
Definition column (d : Frames.DataFrame) (c : string) : M () :=
  if decide (c ∈ Frames.columns d) then ret () else raise (AttributeError c).

(** The columns of the sample input, as [df_csv.head()] shows them. *)
Definition study_columns : list string := ["sex"; "treatment"; "age"; "recovery"].

(** The partition columns of the notebook. *)
Definition partition_cols : list string := ["sex"; "treatment"].

(** The filters of the notebook. *)
Definition filters_F : list Frames.filter_triple :=
  [("sex", Frames.Eq, Frames.CStr "F"); ("age", Frames.Lt, Frames.CInt 50)].

(** The rows that the two filters ask for: sex F and an age below 50. *)
Definition wanted (r : gmap string Frames.scalar) : Prop :=
  r !! "sex" = Some (Frames.CStr "F") ∧ Frames.int_below "age" 50 r.

#[global] Instance wanted_dec r : Decision (wanted r).
Proof. unfold wanted. apply _. Defined.

(** *** The code cells, in the order of the notebook *)

(** [import pandas as pd] *)
Definition cell_import_pandas : cell :=
  modify (set_pd (Some ()));;
  ret None.

(**
<<
    df_csv = pd.read_csv("../data/study_results.csv")

    df_csv.head()
>> *)
Definition cell_read_csv : cell :=
  _ ← read "pd" pd;
  d ← read_csv study_results_csv;
  modify (set_df_csv (Some d));;
  d ← read "df_csv" df_csv;
  ret (Some (SFrame (Frames.head d))).

(** [len(df_csv)] *)
Definition cell_len : cell :=
  d ← read "df_csv" df_csv;
  ret (Some (SInt (Frames.len d))).

(**
<<
    df_csv.to_parquet("../data/study_data_parquet/",
                      partition_cols=['sex', 'treatment'],
                      index=False)
>> *)
Definition cell_to_parquet : cell :=
  d ← read "df_csv" df_csv;
  to_parquet d study_data_parquet partition_cols;;
  ret None.

(** [df_parq = pd.read_parquet("../data/study_data_parquet/")] *)
Definition cell_read_parquet : cell :=
  _ ← read "pd" pd;
  d ← read_parquet study_data_parquet;
  modify (set_df_parq (Some d));;
  ret None.

(** [df_parq] *)
Definition cell_df_parq : cell :=
  d ← read "df_parq" df_parq;
  ret (Some (SFrame d)).

(** [import pyarrow.parquet as pq] *)
Definition cell_import_pyarrow : cell :=
  modify (set_pq (Some ()));;
  ret None.

(** [study_directory = pq.ParquetDataset("../data/study_data_parquet/")] *)
Definition cell_dataset : cell :=
  _ ← read "pq" pq;
  ds ← ParquetDataset study_data_parquet [];
  modify (set_study_directory (Some ds));;
  ret None.

(** [study_directory.partitioning.dictionaries] *)
Definition cell_dictionaries : cell :=
  ds ← read "study_directory" study_directory;
  ret (Some (SDictionaries (Frames.dictionaries (ds_leaves ds)))).

(** [study_directory.read()] *)
Definition cell_read : cell :=
  ds ← read "study_directory" study_directory;
  d ← read_dataset ds;
  ret (Some (STable (Frames.schema (ds_leaves ds)) d)).

(** [study_directory.read().to_pandas()] *)
Definition cell_to_pandas : cell :=
  ds ← read "study_directory" study_directory;
  d ← read_dataset ds;
  ret (Some (SFrame d)).

(**
<<
    study_directory_F = pq.ParquetDataset("../data/study_data_parquet/",
                                             filters=[('sex', '==', 'F'),
                                                      ('age', '<', 50)])
>> *)
Definition cell_dataset_F : cell :=
  _ ← read "pq" pq;
  ds ← ParquetDataset study_data_parquet filters_F;
  modify (set_study_directory_F (Some ds));;
  ret None.

(** [study_directory_F.read().to_pandas().sex.value_counts()] *)
Definition cell_value_counts : cell :=
  ds ← read "study_directory_F" study_directory_F;
  d ← read_dataset ds;
  column d "sex";;
  ret (Some (SCounts (Frames.value_counts (Frames.categories (ds_leaves ds) "sex") "sex" d))).

(** [study_directory_F.read().to_pandas().age.describe()] *)
Definition cell_describe : cell :=
  ds ← read "study_directory_F" study_directory_F;
  d ← read_dataset ds;
  column d "age";;
  ret (Some (SDescription (Frames.describe "age" d))).

(** The kernel once the dataset [d] was written, read back and opened
    (after [study_directory.read().to_pandas()]). *)
Definition loaded (study_results : Frames.DataFrame) (d : list Frames.leaf) : state :=
  {| pd := Some ();
     df_csv := Some study_results;
     df_parq := Some (Frames.read_parquet d);
     pq := Some ();
     study_directory := Some {| ds_leaves := d; ds_filters := [] |};
     study_directory_F := None;
     files := <[study_data_parquet := ParquetDir d]>
                {[ study_results_csv := Csv study_results ]} |}.

(** The values of the two partition columns, as the dictionaries of the
    dataset show them, and their combinations as paths. *)
Definition sexes : list Frames.scalar := [Frames.CStr "F"; Frames.CStr "M"].

Definition treatments : list Frames.scalar :=
  [Frames.CStr "A"; Frames.CStr "B"; Frames.CStr "C"].

Definition combinations : list (list Frames.segment) :=
  mbind (λ s, (λ t, [("sex", Some s); ("treatment", Some t)]) <$> treatments) sexes.

Definition notebook : list cell :=
  [cell_import_pandas; cell_read_csv; cell_len; cell_to_parquet;
   cell_read_parquet; cell_df_parq; cell_import_pyarrow; cell_dataset;
   cell_dictionaries; cell_read; cell_to_pandas; cell_dataset_F;
   cell_value_counts; cell_describe].

(** What the cell number [k] reads of the kernel state: the names bound
    by other cells that occur in it, and the files when it reads a path;
    the rest of the state is blanked. *)
Definition inputs (k : nat) (s : state) : state :=
  let blank := State None None None None None None ∅ in
  match k with
  | 1%nat | 4%nat => set_files (files s) (set_pd (pd s) blank)
  | 2%nat | 3%nat => set_df_csv (df_csv s) blank
  | 5%nat => set_df_parq (df_parq s) blank
  | 7%nat | 11%nat => set_files (files s) (set_pq (pq s) blank)
  | 8%nat | 9%nat | 10%nat => set_study_directory (study_directory s) blank
  | 12%nat | 13%nat => set_study_directory_F (study_directory_F s) blank
  | _ => blank
  end.


End Parquet.

(** *** A stand-in for the sample input

    [../data/study_results.csv] is not among the sources. The notebook
    records its columns, its first rows, its number of rows, and the first
    and last rows of the partitions. The table below agrees with what is
    recorded; it serves to instantiate the theorems about the notebook at
    a concrete input. *)

Module Sample.
Import Frames.

Definition row (s t : string) (ar : Z * Z) : gmap string scalar :=
  {[ "sex" := CStr s; "treatment" := CStr t; "age" := CInt ar.1; "recovery" := CInt ar.2 ]}.

Definition study_results : DataFrame :=
  table Parquet.study_columns
    (
      (row "F" "A" <$>
       [(19, 12); (21, 2); (22, 13); (24, 12); (28, 3); (29, 7); (31,
        4); (33, 8); (35, 12); (38, 2); (40, 3); (42, 10); (45, 3); (51,
        7); (53, 11); (56, 12); (58, 13); (58, 14); (59, 10); (63, 3)]) ++
      (row "F" "B" <$>
       [(22, 9); (24, 4); (24, 13); (24, 13); (25, 10); (27, 2); (29,
        10); (30, 5); (32, 2); (34, 3); (36, 8); (39, 8); (41, 3); (44,
        5); (47, 3); (50, 12); (57, 13); (64, 4); (64, 10); (64, 13)]) ++
      (row "F" "C" <$>
       [(20, 10); (23, 8); (26, 2); (27, 11); (31, 3); (33, 5); (35,
        12); (37, 12); (40, 11); (43, 2); (46, 11); (48, 11); (50, 8);
        (52, 2); (54, 5); (55, 2); (57, 10); (60, 4); (61, 6); (63, 8)]) ++
      (row "M" "A" <$>
       [(22, 11); (23, 5); (25, 9); (25, 12); (26, 10); (28, 8); (30,
        14); (31, 7); (38, 9); (42, 11); (53, 9); (54, 7); (54, 6); (55,
        5); (55, 14); (55, 4); (56, 13); (59, 14); (62, 5); (64, 3)]) ++
      (row "M" "B" <$>
       [(19, 3); (19, 9); (19, 10); (22, 8); (26, 12); (29, 10); (30,
        8); (36, 4); (36, 14); (37, 7); (41, 4); (42, 9); (43, 8); (45,
        2); (46, 12); (48, 6); (49, 6); (52, 9); (55, 3); (56, 14)]) ++
      (row "M" "C" <$>
       [(19, 2); (21, 4); (23, 10); (24, 3); (25, 7); (30, 13); (30,
        12); (31, 3); (43, 2); (46, 13); (47, 13); (48, 6); (55, 12);
        (56, 11); (57, 12); (59, 14); (61, 11); (61, 13); (62, 8); (64,
        7)])).

(** The directory that the notebook writes for it. *)
Definition study_data : list leaf :=
  default [] (to_parquet study_results Parquet.partition_cols).

End Sample.

(** ** The outputs that the notebooks record

    The outputs stored in the notebooks next to the cells of the two
    practice notebooks, cell by cell; the digits of the floating-point
    numbers that the approximation of pi prints are left out. *)

Module Recorded.
Import Kernel.

Definition capitalized : DataStructures.shown := DataStructures.SStr "Little orphan annie".

Definition multiples_of_3 : DataStructures.shown :=
  DataStructures.SInts
    [3; 6; 9; 12; 15; 18; 21; 24; 27; 30; 33; 36; 39; 42; 45; 48; 51; 54; 57;
     60].

Definition multiples_of_7 : DataStructures.shown :=
  DataStructures.SInts
    [7; 14; 21; 28; 35; 42; 49; 56; 63; 70; 77; 84; 91; 98; 105; 112; 119;
     126; 133; 140].

Definition times_5 : DataStructures.shown := DataStructures.SStr "timestimestimestimestimes".

(** The lines [For N= n approximation is ...], without the number. *)
Definition pi_lines : list (string * Z * string) :=
  [("For N=", 10, "approximation is"); ("For N=", 20, "approximation is");
   ("For N=", 100, "approximation is"); ("For N=", 1000, "approximation is")].

Definition triangle : list DataStructures.shown :=
  DataStructures.SStr <$>
    ["";
     "Time";
     "TimeTime";
     "TimeTimeTime";
     "TimeTimeTimeTime";
     "TimeTimeTimeTimeTime";
     "TimeTimeTimeTimeTimeTime";
     "TimeTimeTimeTimeTimeTimeTime";
     "TimeTimeTimeTimeTimeTimeTimeTime";
     "TimeTimeTimeTimeTimeTimeTimeTimeTime";
     "TimeTimeTimeTimeTimeTimeTimeTimeTimeTime";
     "TimeTimeTimeTimeTimeTimeTimeTimeTimeTimeTime";
     "TimeTimeTimeTimeTimeTimeTimeTimeTimeTimeTimeTime";
     "TimeTimeTimeTimeTimeTimeTimeTimeTimeTimeTimeTimeTime";
     "TimeTimeTimeTimeTimeTimeTimeTimeTimeTimeTimeTimeTimeTime";
     "";
     "TimeTimeTimeTimeTimeTimeTimeTimeTimeTimeTimeTimeTimeTimeTime";
     "TimeTimeTimeTimeTimeTimeTimeTimeTimeTimeTimeTimeTimeTime";
     "TimeTimeTimeTimeTimeTimeTimeTimeTimeTimeTimeTimeTime";
     "TimeTimeTimeTimeTimeTimeTimeTimeTimeTimeTimeTime";
     "TimeTimeTimeTimeTimeTimeTimeTimeTimeTimeTime";
     "TimeTimeTimeTimeTimeTimeTimeTimeTimeTime";
     "TimeTimeTimeTimeTimeTimeTimeTimeTime";
     "TimeTimeTimeTimeTimeTimeTimeTime";
     "TimeTimeTimeTimeTimeTimeTime";
     "TimeTimeTimeTimeTimeTime";
     "TimeTimeTimeTimeTime";
     "TimeTimeTimeTime";
     "TimeTimeTime";
     "TimeTime";
     "Time"].

Definition word_counts : DataStructures.shown :=
  DataStructures.SDict (list_to_map
    [("apple", 2); ("banana", 1); ("computer", 2); ("programming", 1);
     ("language", 1); ("Obama", 1); ("Bush", 1); ("Trump", 1); ("Eisenhower",
     1); ("president", 4); ("dog", 2); ("cat", 1); ("duck", 2); ("goose", 1);
     ("baseball", 1); ("basketball", 1); ("football", 1); ("hockey", 1);
     ("soccer", 1); ("sports", 1); ("lebron", 1); ("james", 1); ("darius", 1);
     ("garland", 1)]).

Definition positions : list DataStructures.shown :=
  DataStructures.SInt <$>
    [0; (-1); 0; 1; 0; (-1); 0; 1; 2; 1; 0; (-1); (-2); (-3); (-2); (-3);
     (-2); (-3); (-2); (-1); 0; (-1); (-2); (-1); 0; (-1)].


(** The recorded outcomes of the cells of the Data Structures notebook,
    but for the cell of the approximation of pi. *)
Definition data_structures : list (outcome DataStructures.shown) :=
  [quiet None; quiet (Some capitalized); quiet (Some capitalized);
   quiet (Some multiples_of_3); quiet (Some multiples_of_7); quiet (Some times_5);
   Outcome triangle None None; quiet None; quiet (Some word_counts); quiet None;
   Outcome positions None None; quiet None; quiet None].


(** The frame that the last cell of the Copies notebook prints for
    [df_copy]:
<<
       column_1 column_2  column_3
    0       435       ab      True
    1       999       bc      True
    2       545       cd     False
>> *)
Definition frame_changed : Frames.DataFrame :=
  Frames.table ["column_1"; "column_2"; "column_3"]
    [ {[ "column_1" := Frames.CInt 435; "column_2" := Frames.CStr "ab";
         "column_3" := Frames.CBool true ]};
      {[ "column_1" := Frames.CInt 999; "column_2" := Frames.CStr "bc";
         "column_3" := Frames.CBool true ]};
      {[ "column_1" := Frames.CInt 545; "column_2" := Frames.CStr "cd";
         "column_3" := Frames.CBool false ]} ].

(** A printed list of integers, and a printed list of such lists. *)
Definition ints (l : list Z) : Copies.pyrepr := Copies.PList (Copies.PInt <$> l).

Definition lists (ls : list (list Z)) : Copies.shown :=
  Copies.SValue (Copies.PList (ints <$> ls)).

Definition printed (ls : list (list Z)) : list Copies.shown :=
  (λ l, Copies.SValue (ints l)) <$> ls.

(** The recorded outcomes of the cells of the Copies notebook. *)
Definition copies : list (outcome Copies.shown) :=
  [Outcome (printed [[1; 2; 3; 71; 5; 6]; [1; 2; 3; 71; 5; 6]]) None None;
   quiet None;
   Outcome (printed [[1; 2; 3; 4; 5; 6]; [1; 2; 3; 71; 5; 6]]) None None;
   quiet (Some (lists [[1; 2; 71; 4]; [5; 6; 7; 8]]));
   quiet (Some (lists [[1; 2; 3; 4]; [5; 6; 7; 8]]));
   quiet None;
   Outcome [Copies.SArray [1; 2; 1; 4]; Copies.SArray [1; 2; 1; 4]] None None;
   Outcome [Copies.SArray [1; 2; 3; 4]; Copies.SArray [1; 2; 1; 4]] None None;
   quiet None;
   Outcome [] None (Some (NameError "a"));
   Outcome [] None (Some (NameError "b"));
   quiet None;
   quiet None;
   Outcome [Copies.SStr "df = "; Copies.SFrame Copies.frame_literal; Copies.SStr "";
            Copies.SStr "df_copy = "; Copies.SFrame frame_changed] None None;
   quiet None].

End Recorded.

(** ** The other cells of the practice problems

    What the statements about the remaining cells are written with: the
    sum of the approximation of pi, the triangle as a function of its word
    and height, the total of the word count, and the shape and the invariant
    of the objects of the Copies notebook. *)

From Stdlib Require QArith Qfield.

Module Strings.

(** The string holds ASCII characters only. [DataStructures.capitalize]
    is Python's [str.capitalize] on these strings, as the string literals of
    the notebook are; on other characters the method maps letters that the
    model leaves alone, and may change the length of the string. *)
Fixpoint ascii_only (s : string) : Prop :=
  match s with
  | EmptyString => True
  | String c s => (N_of_ascii c < 128)%N ∧ ascii_only s
  end.
End Strings.

Module Series.
Import DataStructures.

(** One iteration of the loop on [approx_pi]:
    [approx_pi = approx_pi + 8/((4*i + 1)*(4*i + 3))]. *)
Definition pi_step (acc : float) (x : Z) : float :=
  FAdd acc (FDiv 8 ((4 * x + 1) * (4 * x + 3))).

(** The term that [approx_pi=0] and the loop [for i in range(N+1)] leave in
    [approx_pi]. *)
Definition pi_term (n : Z) : float :=
  foldl pi_step (FOfInt 0) (Loops.range 0 (n + 1)).

(** The line that [print("For N=", N, "approximation is", approx_pi)]
    prints. *)
Definition pi_line (n : Z) : shown :=
  SLine [AStr "For N="; AInt n; AStr "approximation is"; AFloat (pi_term n)].

(** The value of a float term without rounding, as a rational number. *)
Fixpoint exact (x : float) : QArith_base.Q :=
  match x with
  | FOfInt n => QArith_base.inject_Z n
  | FAdd x y => QArith_base.Qplus (exact x) (exact y)
  | FDiv n d => QArith_base.Qdiv (QArith_base.inject_Z n) (QArith_base.inject_Z d)
  end.

(** The sum of the first [m] terms of the Leibniz series
    [4 * (1 - 1/3 + 1/5 - 1/7 + ...)]. *)
Fixpoint leibniz (m : nat) : QArith_base.Q :=
  match m with
  | O => QArith_base.inject_Z 0
  | S m => QArith_base.Qplus (leibniz m)
             (QArith_base.Qdiv
                (QArith_base.inject_Z (if Nat.even m then 4 else -4))
                (QArith_base.inject_Z (2 * Z.of_nat m + 1)))
  end.
End Series.

Module Triangle.
Import Kernel DataStructures.
Local Open Scope kernel_scope.

(** The cell of the triangle, with the word and the number of lines of
    each half as arguments:
<<
    for i in range(n):
        print(w*i)

    print()

    for i in range(n):
        print(w*(n-i))
>> *)
Definition triangle (w : string) (n : Z) : M () :=
  for_ (Loops.range 0 n) (λ x,
    modify (set_i x);;
    print (SStr (str_mul w x)));;
  print (SStr "");;
  for_ (Loops.range 0 n) (λ x,
    modify (set_i x);;
    print (SStr (str_mul w (n - x)))).
End Triangle.

Module WordCount.

(** [sum(my_dict.values())] *)
Definition total (d : gmap string Z) : Z := map_fold (λ _ n acc, n + acc) 0 d.

(** The dictionary that counts what two dictionaries count. *)
Definition merge (d1 d2 : gmap string Z) : gmap string Z :=
  union_with (λ n1 n2, Some (n1 + n2)) d1 d2.
End WordCount.

Module Walk.

(** A step of the walk of [steps]: one to the right or one to the left. *)
Definition unit_step (x : Z) : Prop := x = 1 ∨ x = -1.
End Walk.

Module Heap.
Import Copies.

(** Every object was allocated: its reference lies below the next free
    one. *)
Definition allocated (s : state) : Prop :=
  (∀ l, is_Some (lists s !! l) → (l < next s)%positive) ∧
  (∀ l, is_Some (arrays s !! l) → (l < next s)%positive) ∧
  (∀ l, is_Some (frames s !! l) → (l < next s)%positive).

(** [xs] with the element that the index [i] denotes replaced by [v], if
    the index denotes one. *)
Definition updated {A} (xs : list A) (i : Z) (v : A) : list A :=
  match norm_index (length xs) i with
  | Some k => <[k := v]> xs
  | None => xs
  end.

(** The shape of [a = [[1, 2, 3, 4], [5, 6, 7, 8]]]: the list [l] holds
    the lists [ls], and these hold the integers of [rows]. A list may occur
    more than once in [ls], as the row [r] in [[r, r]]. *)
Definition nested (s : state) (l : loc) (ls : list loc) (rows : list (list Z)) : Prop :=
  lists s !! l = Some (EList <$> ls) ∧
  Forall2 (λ li row, lists s !! li = Some (int_list row)) ls rows.

(** The rows after the list [lk] was assigned the integers [row']: every
    row that is the list [lk] holds them. *)
Definition assigned (ls : list loc) (lk : loc) (row' : list Z)
    (rows : list (list Z)) : list (list Z) :=
  zip_with (λ li row, if decide (li = lk) then row' else row) ls rows.

(** What is displayed for a list of integers and for a list of lists of
    integers. *)
Definition show_row (row : list Z) : shown := SValue (PList (PInt <$> row)).

Definition show_rows (rows : list (list Z)) : shown :=
  SValue (PList ((λ row, PList (PInt <$> row)) <$> rows)).

(** The step of the loop of [deepcopy_list] on the elements of a list. *)
Definition copy_elem (fuel : nat)
    (acc : list elem * (gmap loc (list elem) * loc * gmap loc loc)) (e : elem)
    : list elem * (gmap loc (list elem) * loc * gmap loc loc) :=
  match e with
  | EInt n => (acc.1 ++ [EInt n], acc.2)
  | EList l0 =>
      let '(l0', h') := deepcopy_list fuel l0 acc.2 in
      (acc.1 ++ [EList l0'], h')
  end.

(** A list that holds itself, as [a = []; a.append(a)] makes it. *)
Definition cyclic : state :=
  State (Some (RList 1%positive)) None (Some ()) None None None None
        {[ 1%positive := [EList 1%positive] ]} ∅ ∅ 2%positive.
End Heap.

Module Invariant.
Import Kernel Copies Heap.

(** The object that a reference denotes exists. *)
Definition bound (s : state) (r : ref) : Prop :=
  match r with
  | RList l => is_Some (lists s !! l)
  | RArray l => is_Some (arrays s !! l)
  end.

(** The invariant of the kernel state: the objects lie below the next
    free reference, and a name that is bound is bound to an object that
    exists. *)
Definition wf (s : state) : Prop :=
  allocated s ∧
  (∀ r, a s = Some r → bound s r) ∧
  (∀ r, b s = Some r → bound s r) ∧
  (∀ l, df s = Some l → is_Some (frames s !! l)) ∧
  (∀ l, df_copy s = Some l → is_Some (frames s !! l)).

(** [m], run in a state that satisfies the invariant and [P], ends in a
    state that satisfies the invariant, and [Q] if it does not raise. *)
Definition triple {A} (P : state → Prop) (m : M A) (Q : A → state → Prop) : Prop :=
  ∀ s, wf s → P s →
    wf (m s).1.1 ∧ ∀ v, (m s).2 = inr v → Q v (m s).1.1.
End Invariant.

(** * Theorems *)

(** ** Running cells *)

Module KernelFacts.
Import Kernel.

Section run.
Context {St Out : Type}.
Implicit Types (c : cell St Out) (cells : list (cell St Out)) (s : St).

Lemma run_all_step c cells s s' o :
  run_cell c s = (s', o) →
  run_all (c :: cells) s = ((run_all cells s').1, o :: (run_all cells s').2).
Proof. intros H. cbn [run_all]. rewrite H. by destruct (run_all cells s'). Qed.

Lemma run_all_app cells1 cells2 s :
  run_all (cells1 ++ cells2) s =
    ((run_all cells2 (run_all cells1 s).1).1,
     (run_all cells1 s).2 ++ (run_all cells2 (run_all cells1 s).1).2).
Proof.
  revert s. induction cells1 as [|c cells1 IH]; intros s.
  - cbn. by destruct (run_all cells2 s).
  - cbn [app run_all]. destruct (run_cell c s) as [s' o]. rewrite IH.
    destruct (run_all cells1 s') as [s1 os1]. cbn.
    by destruct (run_all cells2 s1).
Qed.

Lemma run_all_length cells s : length (run_all cells s).2 = length cells.
Proof.
  revert s. induction cells as [|c cells IH]; intros s; [done|].
  cbn [run_all]. destruct (run_cell c s) as [s' o]. specialize (IH s').
  destruct (run_all cells s'). cbn in *. by rewrite IH.
Qed.

(** The outcome of a cell is the same in the run of the whole notebook
    and in the run of the cells up to it. *)
Lemma run_all_lookup_take cells s (n k : nat) :
  (k < n)%nat →
  (run_all cells s).2 !! k = (run_all (take n cells) s).2 !! k.
Proof.
  intros Hk. rewrite <-(take_drop n cells) at 1. rewrite run_all_app. cbn.
  destruct (decide (k < length (run_all (take n cells) s).2)%nat) as [Hlt|Hge].
  - by rewrite lookup_app_l.
  - rewrite run_all_length in Hge. rewrite length_take in Hge.
    rewrite !lookup_ge_None_2; [done| |].
    + rewrite run_all_length, length_take. lia.
    + rewrite length_app, !run_all_length, length_take, length_drop. lia.
Qed.

(** The outcome of cell [k] is that of running it in the state left by
    the cells before it. *)
Lemma run_all_lookup cells s (k : nat) c :
  cells !! k = Some c →
  (run_all cells s).2 !! k = Some (run_cell c (state_before cells k s)).2.
Proof.
  intros Hc. unfold state_before.
  rewrite <-(take_drop k cells) at 1. rewrite run_all_app. cbn.
  rewrite (drop_S _ _ _ Hc). cbn [run_all].
  destruct (run_cell c (run_all (take k cells) s).1) as [s' o].
  destruct (run_all (drop (S k) cells) s') as [s'' os]. cbn.
  rewrite lookup_app_r; rewrite run_all_length, length_take.
  - replace (k - k `min` length cells)%nat with 0%nat; [done|].
    apply lookup_lt_Some in Hc. lia.
  - lia.
Qed.

Lemma errors_nil (os : list (outcome Out)) :
  Forall (λ o, error o = None) os → errors os = [].
Proof.
  intros Hos. unfold errors.
  assert (Hall : Forall (λ p : nat * outcome Out, error p.2 = None) (imap pair os)).
  { apply Forall_forall. intros [i o] (i' & o' & [= -> ->] & Hi)%elem_of_lookup_imap.
    rewrite Forall_forall in Hos. apply Hos. by eapply list_elem_of_lookup_2. }
  induction Hall as [|p ps Hp _ IH]; [done|]. cbn. by rewrite Hp.
Qed.
End run.

End KernelFacts.



(** ** The loops of the practice problems *)

Module LoopsFacts.
Import Loops.

Lemma foldl_snoc_fmap {A B} (f : A → B) (l : list A) (acc : list B) :
  foldl (λ acc i, acc ++ [f i]) acc l = acc ++ (f <$> l).
Proof.
  revert acc. induction l as [|x l IH]; intros acc; simpl.
  - by rewrite app_nil_r.
  - by rewrite IH, <-app_assoc.
Qed.

Lemma range_length (lo hi : Z) : lo ≤ hi → Z.of_nat (length (range lo hi)) = hi - lo.
Proof. intros H. unfold range. rewrite length_seqZ. lia. Qed.

Lemma range_lookup (lo hi : Z) (k : nat) :
  lo + Z.of_nat k < hi → range lo hi !! k = Some (lo + Z.of_nat k).
Proof. intros H. unfold range. apply lookup_seqZ. lia. Qed.


(** *** The position loop *)

Lemma position_fold_fst (l : list Z) (st : Z * list Z) :
  (foldl position_step st l).1 = st.1 + sum l.
Proof.
  revert st. induction l as [|x l IH]; intros st; simpl.
  - lia.
  - rewrite IH. simpl. lia.
Qed.

Lemma position_fold_snd_length (l : list Z) (st : Z * list Z) :
  length (foldl position_step st l).2 = (length st.2 + length l)%nat.
Proof.
  revert st. induction l as [|x l IH]; intros st; simpl.
  - lia.
  - rewrite IH. simpl. rewrite length_app. simpl. lia.
Qed.

Lemma position_fold_snd_prefix (l : list Z) (st : Z * list Z) :
  st.2 `prefix_of` (foldl position_step st l).2.
Proof.
  revert st. induction l as [|x l IH]; intros st; simpl.
  - done.
  - etrans; [|apply IH]. simpl. by apply prefix_app_r.
Qed.

Lemma sum_snoc (l : list Z) (x : Z) : sum (l ++ [x]) = sum l + x.
Proof.
  unfold sum. induction l as [|y l IHl]; simpl; [lia|]. rewrite IHl. lia.
Qed.

Lemma position_at_spec (steps : list Z) (k : nat) :
  position_at steps k =
    (sum (take k steps),
     (λ j, sum (take j steps)) <$> seq 0 (k `min` length steps)).
Proof.
  unfold position_at. induction k as [|k IH].
  - done.
  - destruct (decide (k < length steps)%nat) as [Hlt|Hge].
    + destruct (lookup_lt_is_Some_2 steps k Hlt) as [x Hx].
      rewrite (take_S_r _ _ _ Hx), foldl_app, IH.
      replace (S k `min` length steps)%nat with (S k) by lia.
      replace (k `min` length steps)%nat with k by lia.
      rewrite seq_S, fmap_app, <-(take_S_r _ _ _ Hx).
      rewrite (take_S_r _ _ _ Hx), sum_snoc. reflexivity.
    + rewrite (take_ge steps (S k)) by lia.
      rewrite (take_ge steps k) in IH by lia.
      rewrite IH. do 3 f_equal. lia.
Qed.


(** *** The word count *)

Lemma occurrences_cons (w x : string) (l : list string) :
  occurrences w (x :: l) = (if decide (x = w) then 1 else 0) + occurrences w l.
Proof.
  unfold occurrences. rewrite filter_cons.
  destruct (decide (x = w)); simpl; lia.
Qed.

Lemma occurrences_pos (w : string) (l : list string) : w ∈ l ↔ 0 < occurrences w l.
Proof.
  induction l as [|x l IH].
  - split; [by intros ?%elem_of_nil|]. unfold occurrences; simpl; lia.
  - rewrite occurrences_cons, elem_of_cons.
    assert (0 ≤ occurrences w l) by (unfold occurrences; lia).
    destruct (decide (x = w)) as [->|Hne]; [split; [lia|by left]|].
    rewrite IH. split; [intros [?|?]; [congruence|lia]|right; lia].
Qed.

(** The loop invariant: every key counted so far maps to its number of
    occurrences so far, on top of the counts the loop started with. *)
Lemma my_dict_fold_lookup (l : list string) (d : gmap string Z) (w : string) :
  foldl my_dict_step d l !! w =
    match d !! w with
    | Some n => Some (n + occurrences w l)
    | None => if decide (w ∈ l) then Some (occurrences w l) else None
    end.
Proof.
  revert d. induction l as [|x l IH]; intros d.
  - cbn [foldl]. destruct (d !! w) eqn:E.
    + f_equal. unfold occurrences. simpl. lia.
    + destruct (decide (w ∈ [])) as [Hin|]; [by apply elem_of_nil in Hin|done].
  - cbn [foldl]. rewrite IH, occurrences_cons. unfold my_dict_step.
    destruct (decide (x = w)) as [->|Hne].
    + destruct (d !! w) eqn:E; rewrite lookup_insert_eq; [f_equal; lia|].
      rewrite decide_True by apply list_elem_of_here. f_equal; lia.
    + destruct (d !! x) eqn:Ex; rewrite lookup_insert_ne by done;
        (destruct (d !! w) eqn:E; [f_equal; lia|]);
        (destruct (decide (w ∈ l)) as [Hl|Hl], (decide (w ∈ x :: l)) as [Hxl|Hxl];
           try done; exfalso;
           [apply Hxl; by apply elem_of_cons; right
           |apply elem_of_cons in Hxl as [?|?]; [congruence|done]]).
Qed.


End LoopsFacts.

(** ** Partitioned datasets *)

Module FramesFacts.
Import Frames.

(** Grouping a list by a key and concatenating the groups gives back the
    elements of the list. *)
Lemma group_by_Permutation {A K} `{EqDecision K} (f : A → K) (ks : list K) (l : list A) :
  NoDup ks → (∀ x, x ∈ l → f x ∈ ks) →
  ks ≫= (λ k, filter (λ x, f x = k) l) ≡ₚ l.
Proof.
  intros Hnd. revert l. induction Hnd as [|k ks Hk Hnd IH]; intros l Hl.
  - destruct l as [|x l]; [done|].
    specialize (Hl x (list_elem_of_here _ _)). by apply elem_of_nil in Hl.
  - rewrite bind_cons.
    etrans; [|apply (filter_app_complement (λ x, f x = k) l)].
    apply Permutation_app; [done|].
    rewrite <-(IH (filter (λ x, ¬ f x = k) l)).
    + apply reflexive_eq, Forall_bind_ext, Forall_forall. intros k' Hk'.
      rewrite list_filter_filter_l; [done|]. intros x -> ->. done.
    + intros x [Hx Hin]%list_elem_of_filter.
      specialize (Hl x Hin). apply elem_of_cons in Hl as [?|?]; done.
Qed.

Lemma elem_of_cons_ne {A} (x y : A) (l : list A) : y ≠ x → x ∈ y :: l ↔ x ∈ l.
Proof.
  intros Hne. rewrite elem_of_cons.
  split; [intros [?|?]; [congruence|done]|by right].
Qed.

Lemma drop_columns_lookup (pcols : list string) (r : gmap string scalar) (c : string) :
  drop_columns pcols r !! c = if decide (c ∈ pcols) then None else r !! c.
Proof.
  unfold drop_columns. induction pcols as [|p pcols IH]; cbn [foldr].
  - destruct (decide (c ∈ [])) as [Hin|]; [by apply elem_of_nil in Hin|done].
  - destruct (decide (p = c)) as [->|Hne].
    + rewrite lookup_delete_eq, decide_True; [done|apply list_elem_of_here].
    + assert (Hiff : c ∈ p :: pcols ↔ c ∈ pcols) by (by apply elem_of_cons_ne).
      rewrite (decide_ext _ _ _ _ Hiff), <-IH. by rewrite lookup_delete_ne.
Qed.

Lemma attach_lookup (pcols : list string) (r m : gmap string scalar) (c : string) :
  attach (partition_key pcols r) m !! c = if decide (c ∈ pcols) then r !! c else m !! c.
Proof.
  unfold attach, partition_key.
  induction pcols as [|p pcols IH]; cbn [foldr fmap list_fmap fst snd].
  - destruct (decide (c ∈ [])) as [Hin|]; [by apply elem_of_nil in Hin|done].
  - destruct (decide (p = c)) as [->|Hne].
    + rewrite decide_True by apply list_elem_of_here.
      destruct (r !! c) eqn:E; [by rewrite lookup_insert_eq|by rewrite lookup_delete_eq].
    + assert (Hiff : c ∈ p :: pcols ↔ c ∈ pcols) by (by apply elem_of_cons_ne).
      rewrite (decide_ext _ _ _ _ Hiff), <-IH.
      destruct (r !! p); [by rewrite lookup_insert_ne|by rewrite lookup_delete_ne].
Qed.

(** Putting the key values of a row back into what the leaf file stores
    of it gives the row. *)
Lemma attach_drop_columns (pcols : list string) (r : gmap string scalar) :
  attach (partition_key pcols r) (drop_columns pcols r) = r.
Proof.
  apply map_eq. intros c. rewrite attach_lookup, drop_columns_lookup.
  by destruct (decide (c ∈ pcols)).
Qed.

Lemma to_parquet_Some (df : DataFrame) (pcols : list string) (d : list leaf) :
  to_parquet df pcols = Some d ↔
  Forall (λ c, c ∈ columns df) pcols ∧
  d = leaf_of df pcols <$> remove_dups (partition_key pcols <$> rows df).
Proof.
  unfold to_parquet. destruct (decide (Forall _ pcols)) as [H|H].
  - split; [intros [= <-]; done|intros [_ ->]; done].
  - split; [done|intros [? _]; done].
Qed.

Lemma leaf_table_leaf_of (df : DataFrame) (pcols : list string) (p : list segment) :
  leaf_table (leaf_of df pcols p) = filter (λ r, partition_key pcols r = p) (rows df).
Proof.
  unfold leaf_table, leaf_of. simpl. rewrite <-list_fmap_compose.
  rewrite <-(list_fmap_id (filter _ (rows df))) at 2.
  apply Forall_fmap_ext, Forall_forall. intros r [<- _]%list_elem_of_filter.
  simpl. apply attach_drop_columns.
Qed.

(** The rows read back from the leaf files, group after group. *)
Lemma read_rows_to_parquet (df : DataFrame) (pcols : list string) (d : list leaf) :
  to_parquet df pcols = Some d →
  d ≫= leaf_table =
    remove_dups (partition_key pcols <$> rows df) ≫=
      (λ p, filter (λ r, partition_key pcols r = p) (rows df)).
Proof.
  intros [_ ->]%to_parquet_Some. rewrite list_fmap_bind.
  apply list_bind_ext; [|done]. intros p. apply leaf_table_leaf_of.
Qed.

Lemma read_rows_Permutation (df : DataFrame) (pcols : list string) (d : list leaf) :
  to_parquet df pcols = Some d → d ≫= leaf_table ≡ₚ rows df.
Proof.
  intros Hd. rewrite (read_rows_to_parquet _ _ _ Hd).
  apply group_by_Permutation; [apply NoDup_remove_dups|].
  intros r Hr. apply elem_of_remove_dups. by apply list_elem_of_fmap_2.
Qed.

Lemma dataset_columns_to_parquet (df : DataFrame) (pcols : list string) (d : list leaf) :
  to_parquet df pcols = Some d → rows df ≠ [] →
  dataset_columns d = filter (λ c, c ∉ pcols) (columns df) ++ pcols.
Proof.
  intros [_ ->]%to_parquet_Some Hne.
  destruct (remove_dups (partition_key pcols <$> rows df)) as [|p ps] eqn:E.
  - destruct (rows df) as [|r rs]; [done|].
    assert (Hin : partition_key pcols r ∈ remove_dups (partition_key pcols <$> r :: rs)).
    { apply elem_of_remove_dups. apply list_elem_of_here. }
    rewrite E in Hin. by apply elem_of_nil in Hin.
  - simpl. f_equal.
    assert (Hin : p ∈ partition_key pcols <$> rows df).
    { apply elem_of_remove_dups. rewrite E. apply list_elem_of_here. }
    apply list_elem_of_fmap in Hin as (r & -> & _).
    unfold partition_key. rewrite <-list_fmap_compose.
    rewrite <-(list_fmap_id pcols) at 2. by apply list_fmap_ext.
Qed.

(** *** The layout of the written directory *)

Lemma partition_key_keys (pcols : list string) (r : gmap string scalar) :
  fst <$> partition_key pcols r = pcols.
Proof.
  unfold partition_key. rewrite <-list_fmap_compose.
  rewrite <-(list_fmap_id pcols) at 2. by apply list_fmap_ext.
Qed.

Lemma partition_key_elem_of (pcols : list string) (r : gmap string scalar)
    (k : string) (v : option scalar) :
  (k, v) ∈ partition_key pcols r ↔ k ∈ pcols ∧ r !! k = v.
Proof.
  unfold partition_key. rewrite list_elem_of_fmap. split.
  - intros (c & [= -> ->] & Hc). done.
  - intros [Hk <-]. by exists k.
Qed.

(** The leaf files are those of the keys of the rows, one for each key. *)
Lemma to_parquet_paths (df : DataFrame) (pcols : list string) (d : list leaf) :
  to_parquet df pcols = Some d →
  leaf_path <$> d = remove_dups (partition_key pcols <$> rows df).
Proof.
  intros [_ ->]%to_parquet_Some. rewrite <-list_fmap_compose.
  rewrite <-(list_fmap_id (remove_dups _)) at 2. by apply list_fmap_ext.
Qed.

Lemma to_parquet_elem_of (df : DataFrame) (pcols : list string) (d : list leaf) (l : leaf) :
  to_parquet df pcols = Some d → l ∈ d →
  ∃ r, r ∈ rows df ∧ l = leaf_of df pcols (partition_key pcols r).
Proof.
  intros [_ ->]%to_parquet_Some (p & -> & Hp)%list_elem_of_fmap.
  apply elem_of_remove_dups, list_elem_of_fmap in Hp as (r & -> & Hr).
  by exists r.
Qed.

(** Every leaf file lies under one directory per partition key, holds
    some row, and holds only rows with the key values of its path. *)
Lemma to_parquet_layout (df : DataFrame) (pcols : list string) (d : list leaf) (l : leaf) :
  to_parquet df pcols = Some d → l ∈ d →
  fst <$> leaf_path l = pcols ∧
  leaf_rows l ≠ [] ∧
  (∀ r', r' ∈ leaf_rows l →
     ∃ r, r ∈ rows df ∧ r' = drop_columns pcols r ∧
          ∀ k v, (k, v) ∈ leaf_path l → r !! k = v) ∧
  (∀ r, r ∈ leaf_table l →
     r ∈ rows df ∧ ∀ k v, (k, v) ∈ leaf_path l → r !! k = v).
Proof.
  intros Hd Hl. destruct (to_parquet_elem_of _ _ _ _ Hd Hl) as (r0 & Hr0 & ->).
  split; [apply partition_key_keys|]. split; [|split].
  - cbn. intros Hnil%fmap_nil_inv.
    eapply (filter_nil_not_elem_of _ _ r0); [exact Hnil|done|done].
  - cbn. intros r' (r & -> & [Hkey Hr]%list_elem_of_filter)%list_elem_of_fmap.
    exists r. split; [done|]. split; [done|]. intros k v Hkv.
    rewrite <-Hkey in Hkv. by apply partition_key_elem_of in Hkv as [_ ?].
  - rewrite leaf_table_leaf_of. intros r [Hkey Hr]%list_elem_of_filter.
    split; [done|]. intros k v Hkv. cbn in Hkv.
    rewrite <-Hkey in Hkv. by apply partition_key_elem_of in Hkv as [_ ?].
Qed.

(** One leaf file per combination of values that some row has. *)
Lemma to_parquet_one_leaf_per_key (df : DataFrame) (pcols : list string) (d : list leaf) :
  to_parquet df pcols = Some d →
  NoDup (leaf_path <$> d) ∧
  (∀ p, p ∈ leaf_path <$> d ↔ ∃ r, r ∈ rows df ∧ partition_key pcols r = p).
Proof.
  intros Hd. rewrite (to_parquet_paths _ _ _ Hd). split; [apply NoDup_remove_dups|].
  intros p. rewrite elem_of_remove_dups, list_elem_of_fmap.
  split; [intros (r & -> & Hr)|intros (r & Hr & <-)]; by exists r.
Qed.

Lemma to_parquet_nonempty (df : DataFrame) (pcols : list string) (d : list leaf) :
  to_parquet df pcols = Some d → rows df ≠ [] → d ≠ [].
Proof.
  intros Hd Hne ->. destruct (rows df) as [|r rs] eqn:E; [done|].
  destruct (to_parquet_one_leaf_per_key _ _ _ Hd) as [_ Hp].
  specialize (Hp (partition_key pcols r)). cbn in Hp.
  destruct Hp as [_ Hp]. rewrite E in Hp.
  by destruct (not_elem_of_nil _ (Hp (ex_intro _ r (conj (list_elem_of_here _ _) eq_refl)))).
Qed.

Lemma partition_keys_to_parquet (df : DataFrame) (pcols : list string) (d : list leaf) :
  to_parquet df pcols = Some d → rows df ≠ [] → partition_keys d = pcols.
Proof.
  intros Hd Hne. pose proof (to_parquet_nonempty _ _ _ Hd Hne) as Hd0.
  destruct d as [|l d']; [done|]. cbn.
  by destruct (to_parquet_layout _ _ _ l Hd (list_elem_of_here _ _)) as [? _].
Qed.

(** The dictionary of a partition key lists the values that the rows
    have at it, each once. *)
Lemma key_values_to_parquet (df : DataFrame) (pcols : list string) (d : list leaf)
    (k : string) :
  to_parquet df pcols = Some d → k ∈ pcols →
  NoDup (key_values d k) ∧
  (∀ v, v ∈ key_values d k ↔ ∃ r, r ∈ rows df ∧ r !! k = Some v).
Proof.
  intros Hd Hk. unfold key_values. split; [apply NoDup_remove_dups|].
  intros v. rewrite elem_of_remove_dups, list_elem_of_bind. split.
  - intros (l & Hv & Hl). apply list_elem_of_omap in Hv as ([k' v'] & Hkv & Hv).
    cbn in Hv. destruct (decide (k' = k)) as [->|]; [|done]. subst v'.
    destruct (to_parquet_layout _ _ _ l Hd Hl) as (_ & Hne & Hrows & _).
    destruct (leaf_rows l) as [|r' rs'] eqn:E; [done|].
    destruct (Hrows r' (list_elem_of_here _ _)) as (r & Hr & _ & Hkeys).
    exists r. split; [done|]. by apply Hkeys.
  - intros (r & Hr & Hv). exists (leaf_of df pcols (partition_key pcols r)). split.
    + apply list_elem_of_omap. exists (k, Some v). split.
      * cbn. by apply partition_key_elem_of.
      * cbn. by rewrite decide_True.
    + apply to_parquet_Some in Hd as [_ ->]. apply list_elem_of_fmap_2.
      apply elem_of_remove_dups. by apply list_elem_of_fmap_2.
Qed.


(** *** Filters *)

Lemma apply_filter_Some (f : filter_triple) (rs rs' : list (gmap string scalar)) :
  apply_filter f rs = Some rs' → rs' = filter (λ r, passes f r = Some true) rs.
Proof.
  revert rs'. induction rs as [|r rs IH]; intros rs'; cbn [apply_filter].
  - by intros [= <-].
  - destruct (passes f r) as [b|] eqn:Hb; [|done].
    destruct (apply_filter f rs) as [rs0|]; [|done].
    intros [= <-]. rewrite filter_cons, (IH rs0 eq_refl).
    destruct (decide (passes f r = Some true)) as [Ht|Hne].
    + rewrite Hb in Ht. by injection Ht as ->.
    + destruct b; [by rewrite Hb in Hne|done].
Qed.

Lemma apply_filter_is_Some (f : filter_triple) (rs : list (gmap string scalar)) :
  Forall (λ r, is_Some (passes f r)) rs → is_Some (apply_filter f rs).
Proof.
  induction 1 as [|r rs [b Hb] _ [rs' IH]]; cbn [apply_filter]; [by eexists|].
  rewrite Hb, IH. by eexists.
Qed.

Lemma apply_filters_snoc (fs : list filter_triple) (f : filter_triple)
    (rs : list (gmap string scalar)) :
  apply_filters (fs ++ [f]) rs = apply_filters fs rs ≫= apply_filter f.
Proof. unfold apply_filters. by rewrite foldl_app. Qed.

(** The filters of a list act as their conjunction: what is read is what
    passes every filter. *)
Lemma apply_filters_Some (fs : list filter_triple) (rs rs' : list (gmap string scalar)) :
  apply_filters fs rs = Some rs' →
  rs' = filter (λ r, Forall (λ f, passes f r = Some true) fs) rs.
Proof.
  revert rs'. induction fs as [|f fs IH] using rev_ind; intros rs'.
  - intros [= <-]. induction rs as [|r rs IHrs]; [done|].
    rewrite filter_cons_True by constructor. by rewrite <-IHrs.
  - rewrite apply_filters_snoc.
    destruct (apply_filters fs rs) as [rs0|]; [|done]. cbn.
    intros ->%apply_filter_Some. rewrite (IH rs0 eq_refl), list_filter_filter.
    apply list_filter_iff. intros r. rewrite Forall_app, Forall_singleton.
    by split; intros [? ?].
Qed.

Lemma apply_filters_is_Some (fs : list filter_triple) (rs : list (gmap string scalar)) :
  Forall (λ r, Forall (λ f, is_Some (passes f r)) fs) rs →
  is_Some (apply_filters fs rs).
Proof.
  induction fs as [|f fs IH] using rev_ind; intros Hrs; [by eexists|].
  rewrite apply_filters_snoc. destruct IH as [rs0 H0].
  { eapply Forall_impl; [exact Hrs|]. intros r Hr.
    apply Forall_app in Hr. by destruct Hr. }
  rewrite H0. cbn. apply apply_filter_is_Some.
  apply apply_filters_Some in H0 as ->.
  apply Forall_forall. intros r [_ Hr]%list_elem_of_filter.
  rewrite Forall_forall in Hrs. specialize (Hrs r Hr).
  apply Forall_app in Hrs. destruct Hrs as [_ Hf].
  by rewrite Forall_singleton in Hf.
Qed.

Lemma string_compare_refl (s : string) : String.compare s s = Datatypes.Eq.
Proof.
  induction s as [|c s IH]; [done|]. cbn.
  replace (Ascii.compare c c) with Datatypes.Eq; [done|].
  symmetry. unfold Ascii.compare. apply N.compare_refl.
Qed.

Lemma passes_eq_string (c v : string) (r : gmap string scalar) :
  holds_string c r →
  is_Some (passes (c, Eq, CStr v) r) ∧
  (passes (c, Eq, CStr v) r = Some true ↔ r !! c = Some (CStr v)).
Proof.
  unfold holds_string, passes. cbn.
  destruct (r !! c) as [[n|s|b]|]; [done| |done|by split; [eexists|]].
  intros _. cbn. split; [by eexists|].
  destruct (String.compare s v) eqn:E; cbn.
  - apply String.compare_eq_iff in E as ->. done.
  - split; [done|]. intros [= ->]. by rewrite string_compare_refl in E.
  - split; [done|]. intros [= ->]. by rewrite string_compare_refl in E.
Qed.

Lemma passes_lt_int (c : string) (n : Z) (r : gmap string scalar) :
  holds_integer c r →
  is_Some (passes (c, Lt, CInt n) r) ∧
  (passes (c, Lt, CInt n) r = Some true ↔ int_below c n r).
Proof.
  unfold holds_integer, passes, int_below. cbn.
  destruct (r !! c) as [[a|s|b]|]; [|done|done|by split; [eexists|]].
  intros _. cbn. split; [by eexists|].
  destruct (a ?= n) eqn:E; cbn.
  - apply Z.compare_eq_iff in E. split; [done|lia].
  - apply Z.compare_lt_iff in E. done.
  - apply Z.compare_gt_iff in E. split; [done|lia].
Qed.

Lemma filter_ext_elem_of {A} (P Q : A → Prop) `{!∀ x, Decision (P x), !∀ x, Decision (Q x)}
    (l : list A) :
  (∀ x, x ∈ l → P x ↔ Q x) → filter P l = filter Q l.
Proof.
  induction l as [|x l IH]; intros Hext; [done|].
  rewrite !filter_cons, IH by (intros y Hy; apply Hext; by apply list_elem_of_further).
  apply decide_ext, Hext, list_elem_of_here.
Qed.

Lemma filter_all {A} (P : A → Prop) `{!∀ x, Decision (P x)} (l : list A) :
  (∀ x, x ∈ l → P x) → filter P l = l.
Proof.
  induction l as [|x l IH]; intros Hall; [done|].
  rewrite filter_cons_True by apply Hall, list_elem_of_here.
  rewrite IH; [done|]. intros y Hy. by apply Hall, list_elem_of_further.
Qed.

Lemma filter_none {A} (P : A → Prop) `{!∀ x, Decision (P x)} (l : list A) :
  (∀ x, x ∈ l → ¬ P x) → filter P l = [].
Proof.
  induction l as [|x l IH]; intros Hnone; [done|].
  rewrite filter_cons_False by apply Hnone, list_elem_of_here.
  apply IH. intros y Hy. by apply Hnone, list_elem_of_further.
Qed.

(** The two filters of the notebook keep the rows whose sex is F and
    whose age is below 50. *)
Lemma apply_filters_F (rs : list (gmap string scalar)) :
  Forall (holds_string "sex") rs → Forall (holds_integer "age") rs →
  apply_filters [("sex", Eq, CStr "F"); ("age", Lt, CInt 50)] rs =
    Some (filter (λ r, r !! "sex" = Some (CStr "F") ∧ int_below "age" 50 r) rs).
Proof.
  intros Hs Ha. rewrite Forall_forall in Hs. rewrite Forall_forall in Ha.
  destruct (apply_filters_is_Some [("sex", Eq, CStr "F"); ("age", Lt, CInt 50)] rs)
    as [rs' Hrs'].
  { apply Forall_forall. intros r Hr. repeat constructor.
    - by apply passes_eq_string, Hs.
    - by apply passes_lt_int, Ha. }
  rewrite Hrs'. f_equal. rewrite (apply_filters_Some _ _ _ Hrs').
  apply filter_ext_elem_of. intros r Hr.
  rewrite Forall_cons, Forall_singleton.
  rewrite (proj2 (passes_eq_string "sex" "F" r (Hs r Hr))).
  by rewrite (proj2 (passes_lt_int "age" 50 r (Ha r Hr))).
Qed.

Lemma maximum_spec (l : list Z) (n : Z) :
  l ≠ [] → Forall (λ a, a < n) l → ∃ m, maximum l = Some m ∧ m < n ∧ m ∈ l.
Proof.
  destruct l as [|x l]; [done|]. intros _ [Hx Hl]%Forall_cons. cbn.
  exists (foldr Z.max x l). split; [done|].
  induction Hl as [|y l Hy Hl IH]; cbn.
  - split; [done|apply list_elem_of_here].
  - destruct IH as [IH1 IH2]. destruct (Z.max_spec y (foldr Z.max x l)) as [[_ ->]|[_ ->]].
    + split; [done|]. apply elem_of_cons in IH2 as [->|?].
      * apply list_elem_of_here.
      * by do 2 apply list_elem_of_further.
    + split; [done|]. apply list_elem_of_further, list_elem_of_here.
Qed.

Lemma int_values_below (c : string) (n : Z) (t : DataFrame) :
  Forall (int_below c n) (rows t) →
  length (int_values c t) = length (rows t) ∧ Forall (λ a, a < n) (int_values c t).
Proof.
  unfold int_values. induction 1 as [|r rs Hr _ [IH1 IH2]]; [done|].
  unfold int_below in Hr. cbn. destruct (r !! c) as [[a| |]|]; try done.
  cbn. split; [by rewrite IH1|by constructor].
Qed.

(** *** Column types *)






End FramesFacts.

(** ** The Parquet notebook, cell by cell *)

Module ParquetFacts.
Import Kernel Parquet.

Ltac kstep :=
  cbv beta iota zeta delta
    [run_cell bind modify ret raise Kernel.read print read_csv to_parquet
     read_parquet ParquetDataset list_dataset read_dataset column
     study_data_parquet study_results_csv partition_cols];
  cbn.

Ltac run_cell_with H := kstep; rewrite ?H; kstep.

Lemma run_import_pandas (s : state) :
  run_cell cell_import_pandas s = (set_pd (Some ()) s, Outcome [] None None).
Proof. reflexivity. Qed.

Lemma run_read_csv (s : state) (df : Frames.DataFrame) :
  pd s = Some () → files s !! study_results_csv = Some (Csv df) →
  run_cell cell_read_csv s =
    (set_df_csv (Some df) s, Outcome [] (Some (SFrame (Frames.head df))) None).
Proof.
  intros Hpd Hf. unfold cell_read_csv. run_cell_with Hpd.
  unfold study_data_parquet, study_results_csv in Hf. rewrite Hf. by kstep.
Qed.

Lemma run_len (s : state) (df : Frames.DataFrame) :
  df_csv s = Some df →
  run_cell cell_len s = (s, Outcome [] (Some (SInt (Frames.len df))) None).
Proof. intros H. unfold cell_len. by run_cell_with H. Qed.

Lemma run_to_parquet (s : state) (df : Frames.DataFrame) (d : list Frames.leaf) :
  df_csv s = Some df → Frames.to_parquet df partition_cols = Some d →
  run_cell cell_to_parquet s =
    (set_files (<[study_data_parquet := ParquetDir d]> (files s)) s,
     Outcome [] None None).
Proof.
  intros H Hd. unfold cell_to_parquet. run_cell_with H.
  unfold partition_cols in Hd. rewrite Hd. by kstep.
Qed.

Lemma run_read_parquet (s : state) (d : list Frames.leaf) :
  pd s = Some () → files s !! study_data_parquet = Some (ParquetDir d) →
  run_cell cell_read_parquet s =
    (set_df_parq (Some (Frames.read_parquet d)) s, Outcome [] None None).
Proof.
  intros Hpd Hf. unfold cell_read_parquet. run_cell_with Hpd.
  unfold study_data_parquet, study_results_csv in Hf. rewrite Hf. by kstep.
Qed.

Lemma run_df_parq (s : state) (t : Frames.DataFrame) :
  df_parq s = Some t →
  run_cell cell_df_parq s = (s, Outcome [] (Some (SFrame t)) None).
Proof. intros H. unfold cell_df_parq. by run_cell_with H. Qed.

Lemma run_import_pyarrow (s : state) :
  run_cell cell_import_pyarrow s = (set_pq (Some ()) s, Outcome [] None None).
Proof. reflexivity. Qed.

Lemma run_dataset (s : state) (d : list Frames.leaf) :
  pq s = Some () → files s !! study_data_parquet = Some (ParquetDir d) →
  run_cell cell_dataset s =
    (set_study_directory (Some {| ds_leaves := d; ds_filters := [] |}) s,
     Outcome [] None None).
Proof.
  intros Hpq Hf. unfold cell_dataset. run_cell_with Hpq.
  unfold study_data_parquet, study_results_csv in Hf. rewrite Hf. by kstep.
Qed.

Lemma run_dictionaries (s : state) (ds : dataset) :
  study_directory s = Some ds →
  run_cell cell_dictionaries s =
    (s, Outcome [] (Some (SDictionaries (Frames.dictionaries (ds_leaves ds)))) None).
Proof. intros H. unfold cell_dictionaries. by run_cell_with H. Qed.

Lemma run_read (s : state) (ds : dataset) (t : Frames.DataFrame) :
  study_directory s = Some ds →
  Frames.read_filtered (ds_leaves ds) (ds_filters ds) = Some t →
  run_cell cell_read s =
    (s, Outcome [] (Some (STable (Frames.schema (ds_leaves ds)) t)) None).
Proof.
  intros H Ht. unfold cell_read. run_cell_with H. rewrite Ht. by kstep.
Qed.

Lemma run_to_pandas (s : state) (ds : dataset) (t : Frames.DataFrame) :
  study_directory s = Some ds →
  Frames.read_filtered (ds_leaves ds) (ds_filters ds) = Some t →
  run_cell cell_to_pandas s = (s, Outcome [] (Some (SFrame t)) None).
Proof.
  intros H Ht. unfold cell_to_pandas. run_cell_with H. rewrite Ht. by kstep.
Qed.

Lemma run_dataset_F (s : state) (d : list Frames.leaf) :
  pq s = Some () → files s !! study_data_parquet = Some (ParquetDir d) →
  run_cell cell_dataset_F s =
    (set_study_directory_F (Some {| ds_leaves := d; ds_filters := filters_F |}) s,
     Outcome [] None None).
Proof.
  intros Hpq Hf. unfold cell_dataset_F. run_cell_with Hpq.
  unfold study_data_parquet, study_results_csv in Hf. rewrite Hf. by kstep.
Qed.

Lemma run_value_counts (s : state) (ds : dataset) (t : Frames.DataFrame) :
  study_directory_F s = Some ds →
  Frames.read_filtered (ds_leaves ds) (ds_filters ds) = Some t →
  "sex" ∈ Frames.columns t →
  run_cell cell_value_counts s =
    (s, Outcome []
          (Some (SCounts (Frames.value_counts
                            (Frames.categories (ds_leaves ds) "sex") "sex" t)))
          None).
Proof.
  intros H Ht Hc. unfold cell_value_counts. run_cell_with H. rewrite Ht. kstep.
  rewrite decide_True by done. by kstep.
Qed.

Lemma run_describe (s : state) (ds : dataset) (t : Frames.DataFrame) :
  study_directory_F s = Some ds →
  Frames.read_filtered (ds_leaves ds) (ds_filters ds) = Some t →
  "age" ∈ Frames.columns t →
  run_cell cell_describe s =
    (s, Outcome [] (Some (SDescription (Frames.describe "age" t))) None).
Proof.
  intros H Ht Hc. unfold cell_describe. run_cell_with H. rewrite Ht. kstep.
  rewrite decide_True by done. by kstep.
Qed.


(** *** The whole run *)

Section whole_run.
Import KernelFacts.
Variables (df : Frames.DataFrame) (d : list Frames.leaf).
Hypothesis written : Frames.to_parquet df partition_cols = Some d.


Lemma run_notebook_11 :
  run_all (take 11 notebook) (fresh df) =
    (loaded df d,
     [quiet None;
      quiet (Some (SFrame (Frames.head df)));
      quiet (Some (SInt (Frames.len df)));
      quiet None;
      quiet None;
      quiet (Some (SFrame (Frames.read_parquet d)));
      quiet None;
      quiet None;
      quiet (Some (SDictionaries (Frames.dictionaries d)));
      quiet (Some (STable (Frames.schema d) (Frames.read_parquet d)));
      quiet (Some (SFrame (Frames.read_parquet d)))]).
Proof.
  unfold notebook. cbn [take].
  rewrite (run_all_step _ _ _ _ _ (run_import_pandas _)).
  erewrite run_all_step by (eapply (run_read_csv _ df); solve [eassumption | reflexivity]).
  erewrite run_all_step by (eapply (run_len _ df); solve [eassumption | reflexivity]).
  erewrite run_all_step by (eapply (run_to_parquet _ df d); solve [eassumption | reflexivity]).
  erewrite run_all_step by (eapply (run_read_parquet _ d); solve [eassumption | reflexivity]).
  erewrite run_all_step by (eapply run_df_parq; solve [eassumption | reflexivity]).
  rewrite (run_all_step _ _ _ _ _ (run_import_pyarrow _)).
  erewrite run_all_step by (eapply (run_dataset _ d); solve [eassumption | reflexivity]).
  erewrite run_all_step by (eapply run_dictionaries; solve [eassumption | reflexivity]).
  erewrite run_all_step by (eapply run_read; solve [eassumption | reflexivity]).
  erewrite run_all_step by (eapply run_to_pandas; solve [eassumption | reflexivity]).
  reflexivity.
Qed.

Variable tF : Frames.DataFrame.
Hypothesis filtered : Frames.read_filtered d filters_F = Some tF.
Hypothesis has_sex : "sex" ∈ Frames.columns tF.
Hypothesis has_age : "age" ∈ Frames.columns tF.

Lemma run_notebook_last :
  run_all (drop 11 notebook) (loaded df d) =
    (set_study_directory_F (Some {| ds_leaves := d; ds_filters := filters_F |})
       (loaded df d),
     [quiet None;
      quiet (Some (SCounts (Frames.value_counts (Frames.categories d "sex") "sex" tF)));
      quiet (Some (SDescription (Frames.describe "age" tF)))]).
Proof.
  unfold notebook. cbn [drop].
  unfold loaded.
  erewrite run_all_step by (eapply (run_dataset_F _ d); solve [eassumption | reflexivity]).
  erewrite run_all_step by (eapply (run_value_counts _ _ tF); solve [eassumption | reflexivity]).
  erewrite run_all_step by (eapply (run_describe _ _ tF); solve [eassumption | reflexivity]).
  reflexivity.
Qed.

Lemma run_notebook :
  (run_all notebook (fresh df)).2 =
    [quiet None;
     quiet (Some (SFrame (Frames.head df)));
     quiet (Some (SInt (Frames.len df)));
     quiet None;
     quiet None;
     quiet (Some (SFrame (Frames.read_parquet d)));
     quiet None;
     quiet None;
     quiet (Some (SDictionaries (Frames.dictionaries d)));
     quiet (Some (STable (Frames.schema d) (Frames.read_parquet d)));
     quiet (Some (SFrame (Frames.read_parquet d)));
     quiet None;
     quiet (Some (SCounts (Frames.value_counts (Frames.categories d "sex") "sex" tF)));
     quiet (Some (SDescription (Frames.describe "age" tF)))].
Proof.
  rewrite <-(take_drop 11 notebook), run_all_app, run_notebook_11.
  cbn [fst snd]. by rewrite run_notebook_last.
Qed.
End whole_run.

End ParquetFacts.

(** ** The partitioned dataset of the Parquet notebook *)

Module ParquetClaims.
Import Kernel Frames Parquet KernelFacts FramesFacts ParquetFacts.

Lemma study_written (df : DataFrame) :
  columns df = study_columns → is_Some (Frames.to_parquet df partition_cols).
Proof.
  intros Hc. unfold Frames.to_parquet. rewrite decide_True; [by eexists|].
  rewrite Hc. unfold partition_cols, study_columns.
  repeat constructor; apply list_elem_of_In; cbn; tauto.
Qed.

Lemma len_rows_nonempty (df : DataFrame) (n : Z) : len df = n → 0 < n → rows df ≠ [].
Proof. unfold len. intros <- Hn E. rewrite E in Hn. cbn in Hn. lia. Qed.

Lemma state_before_loaded (df : DataFrame) (d : list leaf) :
  Frames.to_parquet df partition_cols = Some d →
  state_before notebook 11 (fresh df) = loaded df d.
Proof. intros Hd. unfold state_before. by rewrite (run_notebook_11 df d Hd). Qed.

(** An outcome of one of the first eleven cells, in the run of the whole
    notebook. *)
Lemma outcome_of_first_cells (df : DataFrame) (d : list leaf) (k : nat) :
  Frames.to_parquet df partition_cols = Some d → (k < 11)%nat →
  (run_all notebook (fresh df)).2 !! k =
    [quiet None;
     quiet (Some (SFrame (head df)));
     quiet (Some (SInt (len df)));
     quiet None;
     quiet None;
     quiet (Some (SFrame (Frames.read_parquet d)));
     quiet None;
     quiet None;
     quiet (Some (SDictionaries (dictionaries d)));
     quiet (Some (STable (schema d) (Frames.read_parquet d)));
     quiet (Some (SFrame (Frames.read_parquet d)))] !! k.
Proof.
  intros Hd Hk. rewrite (run_all_lookup_take _ _ 11 k Hk).
  by rewrite (run_notebook_11 df d Hd).
Qed.

Lemma read_columns_study (df : DataFrame) (d : list leaf) :
  columns df = study_columns → rows df ≠ [] →
  Frames.to_parquet df partition_cols = Some d →
  dataset_columns d = ["age"; "recovery"; "sex"; "treatment"].
Proof.
  intros Hc Hne Hd. rewrite (dataset_columns_to_parquet _ _ _ Hd Hne), Hc.
  reflexivity.
Qed.

(** C2: the frame loaded from the CSV (four columns, 120 rows), written
    to the partitioned directory by [to_parquet] with the partition columns
    sex and treatment and read back by [read_parquet], has the same rows as
    a multiset, hence 120 of them, over the same four columns in another
    order. *)
Theorem partition_round_trip (df : DataFrame) :
  columns df = study_columns → len df = 120 →
  ∃ d,
    Frames.to_parquet df partition_cols = Some d ∧
    files (state_before notebook 11 (fresh df)) !! study_data_parquet
      = Some (ParquetDir d) ∧
    df_csv (state_before notebook 11 (fresh df)) = Some df ∧
    df_parq (state_before notebook 11 (fresh df)) = Some (Frames.read_parquet d) ∧
    (run_all notebook (fresh df)).2 !! 5%nat
      = Some (quiet (Some (SFrame (Frames.read_parquet d)))) ∧
    rows (Frames.read_parquet d) ≡ₚ rows df ∧
    columns (Frames.read_parquet d) ≡ₚ columns df ∧
    columns (Frames.read_parquet d) = ["age"; "recovery"; "sex"; "treatment"] ∧
    len (Frames.read_parquet d) = 120.
Proof.
  intros Hc Hlen. destruct (study_written df Hc) as [d Hd]. exists d.
  assert (Hne : rows df ≠ []) by (by eapply len_rows_nonempty).
  assert (Hrows : rows (Frames.read_parquet d) ≡ₚ rows df)
    by (by apply read_rows_Permutation with partition_cols).
  assert (Hcols : columns (Frames.read_parquet d) = ["age"; "recovery"; "sex"; "treatment"])
    by (by apply read_columns_study with df).
  rewrite (state_before_loaded df d Hd).
  split; [done|]. split; [done|]. split; [done|]. split; [done|].
  split; [by rewrite (outcome_of_first_cells df d 5 Hd) by lia|].
  split; [done|]. split; [|split; [done|]].
  - rewrite Hcols, Hc. apply (Permutation_app_comm ["age"; "recovery"] ["sex"; "treatment"]).
  - unfold len in *. by rewrite Hrows.
Qed.

Lemma partition_round_trip_witness :
  columns Sample.study_results = study_columns ∧
  len Sample.study_results = 120 ∧
  ∃ d, Frames.to_parquet Sample.study_results partition_cols = Some d ∧
       rows (Frames.read_parquet d) ≡ₚ rows Sample.study_results.
Proof.
  assert (Hc : columns Sample.study_results = study_columns) by reflexivity.
  assert (Hl : len Sample.study_results = 120) by reflexivity.
  split; [exact Hc|]. split; [exact Hl|].
  destruct (partition_round_trip Sample.study_results Hc Hl)
    as (d & Hd & _ & _ & _ & _ & Hrows & _).
  exists d. split; [exact Hd|exact Hrows].
Defined.

(** C3: in the directory that the notebook writes, every leaf file lies
    under one directory for each partition key, [sex=...] then
    [treatment=...], and every row stored in the leaf file is a row of the
    data whose sex and treatment are the values of these directories. *)
Theorem partition_layout (df : DataFrame) :
  columns df = study_columns →
  ∃ d,
    Frames.to_parquet df partition_cols = Some d ∧
    files (state_before notebook 11 (fresh df)) !! study_data_parquet
      = Some (ParquetDir d) ∧
    ∀ l, l ∈ d →
      (∃ s t, leaf_path l = [("sex", s); ("treatment", t)]) ∧
      leaf_rows l ≠ [] ∧
      (∀ r', r' ∈ leaf_rows l →
         ∃ r, r ∈ rows df ∧ r' = drop_columns partition_cols r ∧
              ∀ k v, (k, v) ∈ leaf_path l → r !! k = v) ∧
      (∀ r, r ∈ leaf_table l →
         r ∈ rows df ∧ ∀ k v, (k, v) ∈ leaf_path l → r !! k = v).
Proof.
  intros Hc. destruct (study_written df Hc) as [d Hd]. exists d.
  rewrite (state_before_loaded df d Hd).
  split; [done|]. split; [done|]. intros l Hl.
  destruct (to_parquet_layout _ _ _ l Hd Hl) as (Hkeys & Hne & Hstored & Hread).
  split; [|done].
  destruct (leaf_path l) as [|[k1 s] [|[k2 t] [|? ?]]]; try done.
  injection Hkeys as -> ->. by exists s, t.
Qed.

Lemma partition_layout_witness :
  columns Sample.study_results = study_columns ∧
  ∃ d, Frames.to_parquet Sample.study_results partition_cols = Some d ∧
       ∀ l, l ∈ d → ∃ s t, leaf_path l = [("sex", s); ("treatment", t)].
Proof.
  assert (Hc : columns Sample.study_results = study_columns) by reflexivity.
  split; [exact Hc|].
  destruct (partition_layout Sample.study_results Hc) as (d & Hd & _ & Hl).
  exists d. split; [exact Hd|]. intros l Hin. exact (proj1 (Hl l Hin)).
Defined.

Lemma combinations_elem_of (p : list segment) :
  p ∈ combinations ↔
  ∃ s t, s ∈ sexes ∧ t ∈ treatments ∧ p = [("sex", Some s); ("treatment", Some t)].
Proof.
  unfold combinations. rewrite list_elem_of_bind. split.
  - intros (s & (t & -> & Ht)%list_elem_of_fmap & Hs). by exists s, t.
  - intros (s & t & Hs & Ht & ->). exists s. split; [|done].
    apply list_elem_of_fmap. by exists t.
Qed.

Lemma partition_key_study (r : gmap string scalar) :
  partition_key partition_cols r = [("sex", r !! "sex"); ("treatment", r !! "treatment")].
Proof. reflexivity. Qed.

(** C4: partitioning the study data by sex and treatment gives one leaf
    file for each combination of values that some row has; when the rows
    have the sexes F and M and the treatments A, B and C, in all six
    combinations, these are 2 * 3 = 6 leaf files, and the dictionaries of
    the dataset are the values F, M of sex and A, B, C of treatment. *)
Theorem six_partitions (df : DataFrame) :
  columns df = study_columns →
  Forall (λ r, r !! "sex" ∈ (Some <$> sexes) ∧
               r !! "treatment" ∈ (Some <$> treatments)) (rows df) →
  Forall (λ p, p ∈ partition_key partition_cols <$> rows df) combinations →
  ∃ d,
    Frames.to_parquet df partition_cols = Some d ∧
    files (state_before notebook 11 (fresh df)) !! study_data_parquet
      = Some (ParquetDir d) ∧
    NoDup (leaf_path <$> d) ∧
    (∀ p, p ∈ leaf_path <$> d ↔ ∃ r, r ∈ rows df ∧ partition_key partition_cols r = p) ∧
    leaf_path <$> d ≡ₚ combinations ∧
    length d = (length sexes * length treatments)%nat ∧
    length d = 6%nat ∧
    (run_all notebook (fresh df)).2 !! 8%nat
      = Some (quiet (Some (SDictionaries (dictionaries d)))) ∧
    ∃ ds dt, dictionaries d = [ds; dt] ∧ ds ≡ₚ sexes ∧ dt ≡ₚ treatments.
Proof.
  intros Hc Hvals Hobs. destruct (study_written df Hc) as [d Hd]. exists d.
  rewrite (state_before_loaded df d Hd).
  destruct (to_parquet_one_leaf_per_key _ _ _ Hd) as [Hnd Hpaths].
  rewrite Forall_forall in Hvals. rewrite Forall_forall in Hobs.
  assert (Hne : rows df ≠ []).
  { intros E. specialize (Hobs [("sex", Some (CStr "F")); ("treatment", Some (CStr "A"))]).
    rewrite E in Hobs. cbn in Hobs. eapply not_elem_of_nil, Hobs.
    apply list_elem_of_In. cbn. tauto. }
  assert (Hperm : leaf_path <$> d ≡ₚ combinations).
  { apply NoDup_Permutation; [done|by compute_done|].
    intros p. rewrite Hpaths. split.
    - intros (r & Hr & <-). rewrite partition_key_study.
      destruct (Hvals r Hr) as [(s & -> & Hs)%list_elem_of_fmap (t & -> & Ht)%list_elem_of_fmap].
      apply combinations_elem_of. by exists s, t.
    - intros Hp. apply Hobs, list_elem_of_fmap in Hp as (r & -> & Hr). by exists r. }
  assert (Hlen : length d = 6%nat).
  { rewrite <-(length_fmap leaf_path), Hperm. reflexivity. }
  split; [done|]. split; [done|]. split; [done|]. split; [done|]. split; [done|].
  split; [by rewrite Hlen|]. split; [done|].
  split; [by rewrite (outcome_of_first_cells df d 8 Hd) by lia|].
  exists (key_values d "sex"), (key_values d "treatment"). split.
  { unfold dictionaries. by rewrite (partition_keys_to_parquet _ _ _ Hd Hne). }
  split.
  - destruct (key_values_to_parquet df partition_cols d "sex" Hd) as [Hnds Hs];
      [by compute_done|].
    apply NoDup_Permutation; [done|by compute_done|]. intros v. rewrite Hs. split.
    + intros (r & Hr & Hv). destruct (Hvals r Hr) as [Hsex _].
      rewrite Hv in Hsex. apply list_elem_of_fmap in Hsex as (s & [= ->] & Hsex). done.
    + intros Hv.
      assert (Hp : [("sex", Some v); ("treatment", Some (CStr "A"))] ∈ combinations).
      { apply combinations_elem_of. exists v, (CStr "A").
        split; [done|]. split; [by compute_done|done]. }
      apply Hobs, list_elem_of_fmap in Hp as (r & Hkey & Hr).
      rewrite partition_key_study in Hkey. injection Hkey as Hsex _. by exists r.
  - destruct (key_values_to_parquet df partition_cols d "treatment" Hd) as [Hndt Ht];
      [by compute_done|].
    apply NoDup_Permutation; [done|by compute_done|]. intros v. rewrite Ht. split.
    + intros (r & Hr & Hv). destruct (Hvals r Hr) as [_ Htr].
      rewrite Hv in Htr. apply list_elem_of_fmap in Htr as (t & [= ->] & Htr). done.
    + intros Hv.
      assert (Hp : [("sex", Some (CStr "F")); ("treatment", Some v)] ∈ combinations).
      { apply combinations_elem_of. exists (CStr "F"), v.
        split; [by compute_done|]. split; [done|done]. }
      apply Hobs, list_elem_of_fmap in Hp as (r & Hkey & Hr).
      rewrite partition_key_study in Hkey. injection Hkey as _ Htr. by exists r.
Qed.

Lemma six_partitions_witness :
  ∃ d, Frames.to_parquet Sample.study_results partition_cols = Some d ∧
       length d = 6%nat ∧
       ∃ ds dt, dictionaries d = [ds; dt] ∧ ds ≡ₚ sexes ∧ dt ≡ₚ treatments.
Proof.
  assert (Hc : columns Sample.study_results = study_columns) by reflexivity.
  assert (Hvals : Forall (λ r, r !! "sex" ∈ (Some <$> sexes) ∧
                                r !! "treatment" ∈ (Some <$> treatments))
                    (rows Sample.study_results)) by (by compute_done).
  assert (Hobs : Forall (λ p, p ∈ partition_key partition_cols <$> rows Sample.study_results)
                   combinations) by (by compute_done).
  destruct (six_partitions Sample.study_results Hc Hvals Hobs)
    as (d & Hd & _ & _ & _ & _ & _ & Hlen & _ & Hdict).
  exists d. split; [exact Hd|]. split; [exact Hlen|exact Hdict].
Defined.

(** With a sex that is a string and an age that is an integer, the
    filtered read succeeds. *)
Lemma filtered_read_succeeds (df : DataFrame) (d : list leaf) :
  columns df = study_columns → rows df ≠ [] →
  Forall (holds_string "sex") (rows df) →
  Forall (holds_integer "age") (rows df) →
  Frames.to_parquet df partition_cols = Some d →
  read_filtered d filters_F =
    Some (table ["age"; "recovery"; "sex"; "treatment"] (filter wanted (d ≫= leaf_table))).
Proof.
  intros Hc Hne Hsex Hage Hd.
  assert (Hperm : d ≫= leaf_table ≡ₚ rows df)
    by (by apply read_rows_Permutation with partition_cols).
  unfold read_filtered. rewrite (read_columns_study df d Hc Hne Hd).
  unfold filters_F. rewrite apply_filters_F; [done| |]; by rewrite Hperm.
Qed.

(** C1: reading the partitioned directory with the filters
    [('sex', '==', 'F'), ('age', '<', 50)] applies the two filters one
    after the other and returns exactly the rows of the 120-row data whose
    sex is F and whose age is below 50; as the data has 40 such rows, the
    result has 40 rows, all of sex F and none of sex M, with a maximal age
    below 50. *)
Theorem filtered_read (df : DataFrame) :
  columns df = study_columns → len df = 120 →
  Forall (holds_string "sex") (rows df) →
  Forall (holds_integer "age") (rows df) →
  length (filter wanted (rows df)) = 40%nat →
  ∃ d t cs,
    Frames.to_parquet df partition_cols = Some d ∧
    read_filtered d filters_F = Some t ∧
    apply_filters filters_F (rows (Frames.read_parquet d)) =
      apply_filter ("sex", Eq, CStr "F") (rows (Frames.read_parquet d)) ≫=
        apply_filter ("age", Lt, CInt 50) ∧
    rows t = filter wanted (rows (Frames.read_parquet d)) ∧
    rows t ≡ₚ filter wanted (rows df) ∧
    (∀ r, r ∈ rows t ↔ r ∈ rows df ∧ r !! "sex" = Some (CStr "F") ∧ int_below "age" 50 r) ∧
    len t = 40 ∧
    (∀ r, r ∈ rows t → r !! "sex" = Some (CStr "F") ∧ r !! "sex" ≠ Some (CStr "M")) ∧
    (run_all notebook (fresh df)).2 !! 12%nat = Some (quiet (Some (SCounts cs))) ∧
    (∀ v n, (v, n) ∈ cs → (v = CStr "F" → n = 40) ∧ (v ≠ CStr "F" → n = 0)) ∧
    (run_all notebook (fresh df)).2 !! 13%nat
      = Some (quiet (Some (SDescription (describe "age" t)))) ∧
    d_count (describe "age" t) = 40 ∧
    ∃ m, d_max (describe "age" t) = Some m ∧ m < 50.
Proof.
  intros Hc Hlen Hsex Hage Hcount. destruct (study_written df Hc) as [d Hd].
  assert (Hne : rows df ≠ []) by (by eapply len_rows_nonempty).
  assert (Hperm : d ≫= leaf_table ≡ₚ rows df)
    by (by apply read_rows_Permutation with partition_cols).
  assert (Hcols : dataset_columns d = ["age"; "recovery"; "sex"; "treatment"])
    by (by apply read_columns_study with df).
  assert (Hfil : apply_filters filters_F (d ≫= leaf_table) =
                   Some (filter wanted (d ≫= leaf_table))).
  { apply apply_filters_F; by rewrite Hperm. }
  remember (table (dataset_columns d) (filter wanted (d ≫= leaf_table))) as t eqn:Et.
  assert (Ht : read_filtered d filters_F = Some t).
  { unfold read_filtered. by rewrite Hfil, Et. }
  assert (Hrt : rows t = filter wanted (rows (Frames.read_parquet d))) by (by rewrite Et).
  assert (Hrows : rows t ≡ₚ filter wanted (rows df)).
  { rewrite Hrt. cbn. by rewrite Hperm. }
  assert (Hin : ∀ r, r ∈ rows t ↔
                 r ∈ rows df ∧ r !! "sex" = Some (CStr "F") ∧ int_below "age" 50 r).
  { intros r. rewrite Hrows, list_elem_of_filter. unfold wanted. tauto. }
  assert (Hlen40 : length (rows t) = 40%nat) by (by rewrite Hrows).
  exists d, t, (value_counts (categories d "sex") "sex" t).
  assert (Hrun := run_notebook df d Hd t Ht).
  rewrite Hrun by (rewrite Et; cbn; rewrite Hcols; by compute_done).
  split; [done|]. split; [done|]. split; [done|]. split; [done|].
  split; [done|]. split; [done|]. split; [unfold len; by rewrite Hlen40|].
  split; [|split; [done|split; [|split; [done|]]]].
  - intros r Hr%Hin. destruct Hr as (_ & Hr & _). rewrite Hr. by split.
  - intros v n (c & [= -> ->] & _)%list_elem_of_fmap. split.
    + intros ->. rewrite filter_all; [by rewrite Hlen40|].
      intros r Hr%Hin. tauto.
    + intros Hv. rewrite filter_none; [done|].
      intros r Hr%Hin Hsv. destruct Hr as (_ & Hr & _). congruence.
  - assert (Hbelow : Forall (int_below "age" 50) (rows t)).
    { apply Forall_forall. intros r Hr%Hin. tauto. }
    destruct (int_values_below "age" 50 t Hbelow) as [Hl Hall].
    unfold describe. cbn [d_count d_max]. split; [by rewrite Hl, Hlen40|].
    destruct (maximum_spec (int_values "age" t) 50) as (m & Hm & Hlt & _); [|done|by exists m].
    intros E. rewrite E in Hl. cbn in Hl. lia.
Qed.

Lemma filtered_read_witness :
  ∃ d t, Frames.to_parquet Sample.study_results partition_cols = Some d ∧
         read_filtered d filters_F = Some t ∧ len t = 40.
Proof.
  assert (Hc : columns Sample.study_results = study_columns) by reflexivity.
  assert (Hl : len Sample.study_results = 120) by reflexivity.
  assert (Hs : Forall (holds_string "sex") (rows Sample.study_results))
    by (by compute_done).
  assert (Ha : Forall (holds_integer "age") (rows Sample.study_results))
    by (by compute_done).
  assert (Hn : length (filter wanted (rows Sample.study_results)) = 40%nat)
    by (vm_compute; reflexivity).
  destruct (filtered_read Sample.study_results Hc Hl Hs Ha Hn)
    as (d & t & cs & Hd & Ht & _ & _ & _ & _ & Hlen & _).
  exists d, t. split; [exact Hd|]. split; [exact Ht|exact Hlen].
Defined.







End ParquetClaims.

(** ** The cells of the Data Structures notebook *)

Module DataStructuresFacts.
Import Kernel DataStructures.

Ltac dstep :=
  cbv beta iota zeta delta
    [run_cell bind modify ret raise Kernel.read print truediv quiet];
  cbn.

(** One iteration of the word count, on the kernel. *)
Lemma my_dict_body_run (w : string) (s : namespace) (d : gmap string Z) :
  my_dict s = Some d →
  my_dict_body w s = (set_my_dict (Loops.my_dict_step d w) (set_word w s), [], inr ()).
Proof.
  intros Hd. unfold my_dict_body. dstep. rewrite Hd. dstep.
  unfold Loops.my_dict_step. by destruct (d !! w).
Qed.

(** The loop of the cell computes the fold [Loops.my_dict_loop] and
    touches no name but [my_dict] and [word]. *)
Lemma for_my_dict_body (ws : list string) (s : namespace) (d : gmap string Z) :
  my_dict s = Some d →
  ∃ s', for_ ws my_dict_body s = (s', [], inr ()) ∧
        my_dict s' = Some (foldl Loops.my_dict_step d ws) ∧
        sample_words s' = sample_words s.
Proof.
  revert s d. induction ws as [|w ws IH]; intros s d Hd.
  - exists s. by rewrite Hd.
  - cbn [for_ foldl]. unfold bind at 1. rewrite (my_dict_body_run w s d Hd).
    destruct (IH (set_my_dict (Loops.my_dict_step d w) (set_word w s))
                 (Loops.my_dict_step d w) eq_refl) as (s' & Hrun & Hd' & Hw').
    exists s'. by rewrite Hrun.
Qed.

Lemma run_my_dict (s : namespace) (ws : list string) :
  sample_words s = Some ws →
  (run_cell cell_my_dict s).2 = quiet (Some (SDict (Loops.my_dict_loop ws))) ∧
  my_dict (run_cell cell_my_dict s).1 = Some (Loops.my_dict_loop ws).
Proof.
  intros Hws. unfold cell_my_dict. dstep. rewrite Hws. dstep.
  destruct (for_my_dict_body ws (set_my_dict ∅ s) ∅ eq_refl) as (s' & Hrun & Hd & _).
  rewrite Hrun. dstep. rewrite Hd. by dstep.
Qed.

Lemma run_my_dict_unbound (s : namespace) :
  sample_words s = None →
  (run_cell cell_my_dict s).2 = Outcome [] None (Some (NameError "sample_words")).
Proof. intros Hws. unfold cell_my_dict. dstep. rewrite Hws. by dstep. Qed.

(** One iteration of the position loop, on the kernel. *)
Lemma position_body_run (x : Z) (s : namespace) (p : Z) :
  position s = Some p →
  position_body x s = (set_position (p + x) (set_i x s), [SInt p], inr ()).
Proof.
  intros Hp. unfold position_body. dstep. rewrite Hp. dstep. rewrite Hp. by dstep.
Qed.

Lemma position_fold_acc (l : list Z) (p : Z) (acc : list Z) :
  foldl Loops.position_step (p, acc) l =
    ((foldl Loops.position_step (p, []) l).1,
     acc ++ (foldl Loops.position_step (p, []) l).2).
Proof.
  revert p acc. induction l as [|x l IH]; intros p acc; cbn [foldl].
  - by rewrite app_nil_r.
  - replace (Loops.position_step (p, acc) x) with ((p + x)%Z, acc ++ [p]) by reflexivity.
    replace (Loops.position_step (p, []) x) with ((p + x)%Z, [p]) by reflexivity.
    rewrite (IH (p + x)%Z (acc ++ [p])), (IH (p + x)%Z [p]).
    cbn [fst snd]. by rewrite <-!app_assoc.
Qed.

(** The loop of the cell prints and computes what the fold
    [Loops.position_step] does. *)
Lemma for_position_body (l : list Z) (s : namespace) (p : Z) :
  position s = Some p →
  ∃ s', for_ l position_body s =
          (s', SInt <$> (foldl Loops.position_step (p, []) l).2, inr ()) ∧
        position s' = Some (foldl Loops.position_step (p, []) l).1.
Proof.
  revert s p. induction l as [|x l IH]; intros s p Hp.
  - exists s. by rewrite Hp.
  - cbn [for_ foldl]. unfold bind at 1. rewrite (position_body_run x s p Hp).
    destruct (IH (set_position (p + x) (set_i x s)) (p + x)%Z eq_refl)
      as (s' & Hrun & Hp').
    exists s'. rewrite Hrun.
    replace (Loops.position_step (p, []) x) with ((p + x)%Z, [p]) by reflexivity.
    rewrite (position_fold_acc l (p + x) [p]). cbn [fst snd].
    by rewrite fmap_app.
Qed.

Lemma run_position (s : namespace) (l : list Z) :
  steps s = Some l →
  (run_cell cell_position s).2 = Outcome (SInt <$> (Loops.position_loop l).2) None None ∧
  position (run_cell cell_position s).1 = Some (Loops.position_loop l).1.
Proof.
  intros Hl. unfold cell_position. dstep. rewrite Hl. dstep.
  destruct (for_position_body l (set_position 0 s) 0%Z eq_refl) as (s' & Hrun & Hp).
  rewrite Hrun. dstep. by rewrite app_nil_r.
Qed.

Lemma run_position_unbound (s : namespace) :
  steps s = None →
  (run_cell cell_position s).2 = Outcome [] None (Some (NameError "steps")).
Proof. intros Hl. unfold cell_position. dstep. rewrite Hl. by dstep. Qed.

(** The two cells that build the multiples show the lists of the loop and
    of the comprehension, in any namespace. *)
Lemma run_multiples_loop (s : namespace) :
  (run_cell cell_multiples_loop s).2 = quiet (Some (SInts (Loops.multiples_loop 3 20))) ∧
  multiples_loop (run_cell cell_multiples_loop s).1 = Some (Loops.multiples_loop 3 20).
Proof. split; reflexivity. Qed.

Lemma run_multiples (s : namespace) :
  (run_cell cell_multiples s).2 = quiet (Some (SInts (Loops.multiples 7 20))) ∧
  multiples (run_cell cell_multiples s).1 = Some (Loops.multiples 7 20).
Proof. split; reflexivity. Qed.

End DataStructuresFacts.

(** ** The loops of the practice problems, and the cells that run them *)

Module LoopClaims.
Import Kernel Loops LoopsFacts DataStructuresFacts.

(** C10: the appending loop and the comprehension build the same list,
    for every multiplier [m] and count [n]; for a count [0 <= n] the list
    has [n] elements and its k-th element (counted from 1) is [m*k]. The
    notebook's instances, which its two cells display in any namespace,
    are the first 20 multiples of 3 and of 7. *)
Theorem multiples_loop_eq_comprehension (m n : Z) :
  multiples_loop m n = multiples m n ∧
  (0 ≤ n →
     Z.of_nat (length (multiples_loop m n)) = n ∧
     Z.of_nat (length (multiples m n)) = n ∧
     ∀ k, 1 ≤ k ≤ n →
       multiples_loop m n !! Z.to_nat (k - 1) = Some (m * k) ∧
       multiples m n !! Z.to_nat (k - 1) = Some (m * k)) ∧
  multiples_loop 3 20 =
    [3; 6; 9; 12; 15; 18; 21; 24; 27; 30; 33; 36; 39; 42; 45; 48; 51; 54; 57; 60] ∧
  multiples 7 20 =
    [7; 14; 21; 28; 35; 42; 49; 56; 63; 70; 77; 84; 91; 98; 105; 112; 119;
     126; 133; 140] ∧
  (∀ s, out (run_cell DataStructures.cell_multiples_loop s).2
          = Some (DataStructures.SInts (multiples_loop 3 20))) ∧
  (∀ s, out (run_cell DataStructures.cell_multiples s).2
          = Some (DataStructures.SInts (multiples 7 20))).
Proof.
  assert (Heq : ∀ m n, multiples_loop m n = multiples m n).
  { intros m' n'. unfold multiples_loop, multiples. by rewrite foldl_snoc_fmap. }
  split; [apply Heq|]. split; [|repeat split; reflexivity].
  intros Hn. rewrite Heq. unfold multiples.
  rewrite length_fmap, range_length by lia.
  split; [lia|]. split; [lia|]. intros k Hk.
  rewrite list_lookup_fmap, range_lookup by lia.
  simpl. split; do 2 f_equal; lia.
Qed.

Lemma multiples_loop_eq_comprehension_witness :
  0 ≤ 20 ∧ multiples_loop 3 20 !! Z.to_nat (5 - 1) = Some (3 * 5).
Proof.
  split; [lia|].
  apply (proj1 (proj2 (proj2 (proj1 (proj2 (multiples_loop_eq_comprehension 3 20)) ltac:(lia))) 5 ltac:(lia))).
Defined.

(** C9: at the start of iteration [k] the position is the sum of the
    first [k] steps; the k-th printed line (from 0) is that sum, the first
    one being 0; when the loop ends the position is the sum of all steps,
    which is -2 for the notebook's 26 steps. The cell of the notebook
    prints and leaves in [position] what this loop does, for the list
    bound to [steps]. *)
Theorem position_prefix_sum (l : list Z) :
  (∀ k, (k ≤ length l)%nat → (position_at l k).1 = sum (take k l)) ∧
  (∀ k, (k < length l)%nat →
     (position_loop l).2 !! k = Some (sum (take k l)) ∧
     (position_loop l).2 !! k = Some (position_at l k).1) ∧
  (l ≠ [] → (position_loop l).2 !! 0%nat = Some 0) ∧
  length (position_loop l).2 = length l ∧
  (position_loop l).1 = sum l ∧
  length steps = 26%nat ∧ (position_loop steps).1 = -2 ∧
  (∀ s, DataStructures.steps s = Some l →
     stdout (run_cell DataStructures.cell_position s).2
       = DataStructures.SInt <$> (position_loop l).2 ∧
     DataStructures.position (run_cell DataStructures.cell_position s).1
       = Some (position_loop l).1).
Proof.
  assert (Hloop : position_loop l = position_at l (length l)).
  { unfold position_loop, position_at. by rewrite firstn_all. }
  assert (Hk : ∀ k, (k < length l)%nat →
            (position_loop l).2 !! k = Some (sum (take k l))).
  { intros k Hlt. rewrite Hloop, position_at_spec. simpl.
    rewrite list_lookup_fmap, Nat.min_id, lookup_seq_lt by done. done. }
  split; [|split; [|split; [|split; [|split; [|split; [|split]]]]]].
  - intros k _. by rewrite position_at_spec.
  - intros k Hlt. rewrite position_at_spec. simpl. split; by apply Hk.
  - intros Hne. rewrite Hk; [done|]. destruct l; [done|simpl; lia].
  - rewrite Hloop, position_at_spec. simpl.
    by rewrite length_fmap, length_seq, Nat.min_id.
  - rewrite Hloop, position_at_spec. simpl. by rewrite firstn_all.
  - reflexivity.
  - reflexivity.
  - intros s Hs. destruct (run_position s l Hs) as [Hout Hpos].
    split; [by rewrite Hout|done].
Qed.

Lemma position_prefix_sum_witness :
  (3 < length steps)%nat ∧ (position_loop steps).2 !! 3%nat = Some (sum (take 3 steps)) ∧
  (position_loop steps).2 !! 3%nat = Some 1.
Proof.
  assert (H : (3 < length steps)%nat) by (vm_compute; lia).
  split; [exact H|]. split; [|reflexivity].
  exact (proj1 (proj1 (proj2 (position_prefix_sum steps)) 3%nat H)).
Defined.

(** C8: for every list of words the loop builds a dictionary whose keys
    are exactly the distinct words of the list, each mapped to its number
    of occurrences; for [sample_words], 'president' is 4, 'apple' and
    'dog' are 2 and 'banana' is 1. The cell of the notebook displays the
    dictionary of this loop for the list bound to [sample_words]. *)
Theorem my_dict_counts_words (words : list string) :
  dom (my_dict_loop words) = list_to_set words ∧
  (∀ w, w ∈ words → my_dict_loop words !! w = Some (occurrences w words)) ∧
  (∀ w, w ∉ words → my_dict_loop words !! w = None) ∧
  my_dict_loop sample_words !! "president" = Some 4 ∧
  my_dict_loop sample_words !! "apple" = Some 2 ∧
  my_dict_loop sample_words !! "dog" = Some 2 ∧
  my_dict_loop sample_words !! "banana" = Some 1 ∧
  (∀ s, DataStructures.sample_words s = Some words →
     (run_cell DataStructures.cell_my_dict s).2
       = quiet (Some (DataStructures.SDict (my_dict_loop words)))).
Proof.
  assert (Hin : ∀ l w, w ∈ l → my_dict_loop l !! w = Some (occurrences w l)).
  { intros l w Hw. unfold my_dict_loop. rewrite my_dict_fold_lookup, lookup_empty.
    by rewrite decide_True. }
  assert (Hout : ∀ l w, w ∉ l → my_dict_loop l !! w = None).
  { intros l w Hw. unfold my_dict_loop. rewrite my_dict_fold_lookup, lookup_empty.
    by rewrite decide_False. }
  split; [|split; [by apply Hin|split; [by apply Hout|]]].
  - apply set_eq. intros w. rewrite elem_of_dom, elem_of_list_to_set.
    destruct (decide (w ∈ words)) as [Hw|Hw].
    + rewrite (Hin _ _ Hw). split; [done|by eexists].
    + rewrite (Hout _ _ Hw). split; [by intros [? ?]|done].
  - split; [|split; [|split; [|split]]];
      [rewrite Hin; [reflexivity|apply list_elem_of_In; vm_compute; tauto].. |].
    intros s Hs. by destruct (run_my_dict s words Hs).
Qed.

Lemma my_dict_counts_words_witness :
  "duck" ∈ sample_words ∧ my_dict_loop sample_words !! "duck" = Some 2.
Proof.
  assert (H : "duck" ∈ sample_words) by (apply list_elem_of_In; vm_compute; tauto).
  split; [exact H|].
  exact (proj1 (proj2 (my_dict_counts_words sample_words)) "duck" H).
Defined.

End LoopClaims.

(** ** What the cells share, and what they raise *)

Module KernelClaims.
Import Kernel KernelFacts.

(** The cells of the Data Structures notebook read the namespace only
    through [sample_words] and [steps]. *)
Lemma data_structures_determined (k : nat) (c : DataStructures.cell) :
  DataStructures.notebook !! k = Some c →
  determined_by (DataStructures.inputs k) c.
Proof.
  intros Hc s s' Hv. unfold DataStructures.notebook in Hc.
  do 9 (destruct k as [|k]; [apply (inj Some) in Hc as <-; vm_compute; reflexivity|]).
  destruct k as [|k].
  { apply (inj Some) in Hc as <-. injection Hv as Hv.
    destruct (DataStructures.sample_words s) as [ws|] eqn:E.
    - destruct (DataStructuresFacts.run_my_dict s ws E) as [-> _].
      by destruct (DataStructuresFacts.run_my_dict s' ws (eq_sym Hv)) as [-> _].
    - rewrite (DataStructuresFacts.run_my_dict_unbound s E).
      by rewrite (DataStructuresFacts.run_my_dict_unbound s' (eq_sym Hv)). }
  destruct k as [|k]; [apply (inj Some) in Hc as <-; vm_compute; reflexivity|].
  destruct k as [|k].
  { apply (inj Some) in Hc as <-. injection Hv as Hv.
    destruct (DataStructures.steps s) as [l|] eqn:E.
    - destruct (DataStructuresFacts.run_position s l E) as [-> _].
      by destruct (DataStructuresFacts.run_position s' l (eq_sym Hv)) as [-> _].
    - rewrite (DataStructuresFacts.run_position_unbound s E).
      by rewrite (DataStructuresFacts.run_position_unbound s' (eq_sym Hv)). }
  do 2 (destruct k as [|k]; [apply (inj Some) in Hc as <-; vm_compute; reflexivity|]).
  done.
Qed.

Ltac pstep :=
  cbv beta iota zeta delta
    [run_cell bind modify ret raise Kernel.read print
     Parquet.read_csv Parquet.read_parquet Parquet.ParquetDataset
     Parquet.list_dataset Parquet.to_parquet Parquet.read_dataset Parquet.column];
  cbn.

Ltac case_stuck :=
  match goal with
  | |- context [match ?x with Some _ => _ | None => _ end] => destruct x
  | |- context [match ?x with Parquet.Csv _ => _ | Parquet.ParquetDir _ => _ end] =>
      destruct x
  | |- context [decide ?P] => destruct (decide P)
  end.

Ltac same_view Hv :=
  cbn in Hv; injection Hv as Hv;
  pstep;
  repeat (first [progress rewrite Hv | case_stuck]; pstep);
  reflexivity.

Ltac same_view2 Hv :=
  let H1 := fresh in let H2 := fresh in
  cbn in Hv; injection Hv as H1 H2;
  pstep;
  repeat (first [progress rewrite H1 | progress rewrite H2 | case_stuck]; pstep);
  reflexivity.

(** The cells of the Parquet notebook read the kernel state only through
    the names and files of [Parquet.inputs]. *)
Lemma parquet_determined (k : nat) (c : Parquet.cell) :
  Parquet.notebook !! k = Some c →
  determined_by (Parquet.inputs k) c.
Proof.
  intros Hc s s' Hv. unfold Parquet.notebook in Hc.
  destruct k as [|k]; [apply (inj Some) in Hc as <-; reflexivity|].
  destruct k as [|k]; [apply (inj Some) in Hc as <-; unfold Parquet.cell_read_csv; same_view2 Hv|].
  destruct k as [|k]; [apply (inj Some) in Hc as <-; unfold Parquet.cell_len; same_view Hv|].
  destruct k as [|k]; [apply (inj Some) in Hc as <-; unfold Parquet.cell_to_parquet; same_view Hv|].
  destruct k as [|k]; [apply (inj Some) in Hc as <-; unfold Parquet.cell_read_parquet; same_view2 Hv|].
  destruct k as [|k]; [apply (inj Some) in Hc as <-; unfold Parquet.cell_df_parq; same_view Hv|].
  destruct k as [|k]; [apply (inj Some) in Hc as <-; reflexivity|].
  destruct k as [|k]; [apply (inj Some) in Hc as <-; unfold Parquet.cell_dataset; same_view2 Hv|].
  destruct k as [|k]; [apply (inj Some) in Hc as <-; unfold Parquet.cell_dictionaries; same_view Hv|].
  destruct k as [|k]; [apply (inj Some) in Hc as <-; unfold Parquet.cell_read; same_view Hv|].
  destruct k as [|k]; [apply (inj Some) in Hc as <-; unfold Parquet.cell_to_pandas; same_view Hv|].
  destruct k as [|k]; [apply (inj Some) in Hc as <-; unfold Parquet.cell_dataset_F; same_view2 Hv|].
  destruct k as [|k]; [apply (inj Some) in Hc as <-; unfold Parquet.cell_value_counts; same_view Hv|].
  destruct k as [|k]; [apply (inj Some) in Hc as <-; unfold Parquet.cell_describe; same_view Hv|].
  done.
Qed.

(** C5, as the specification states it, fails: the cell of the word count
    reads [sample_words], which the cell before it binds; in a fresh
    namespace it raises the name-not-found error, after the preceding
    cells it displays the dictionary. *)
Lemma cells_share_namespace :
  DataStructures.notebook !! 9%nat = Some DataStructures.cell_my_dict ∧
  error (run_cell DataStructures.cell_my_dict DataStructures.fresh).2
    = Some (NameError "sample_words") ∧
  (run_cell DataStructures.cell_my_dict
     (state_before DataStructures.notebook 9 DataStructures.fresh)).2
    = quiet (Some (DataStructures.SDict (Loops.my_dict_loop Loops.sample_words))) ∧
  ¬ standalone DataStructures.notebook DataStructures.fresh.
Proof.
  assert (Hafter :
    (run_cell DataStructures.cell_my_dict
       (state_before DataStructures.notebook 9 DataStructures.fresh)).2
      = quiet (Some (DataStructures.SDict (Loops.my_dict_loop Loops.sample_words)))).
  { by destruct (DataStructuresFacts.run_my_dict
                   (state_before DataStructures.notebook 9 DataStructures.fresh)
                   Loops.sample_words eq_refl). }
  split; [reflexivity|]. split; [reflexivity|]. split; [exact Hafter|].
  intros Hall. specialize (Hall 9%nat DataStructures.cell_my_dict eq_refl).
  rewrite Hafter, (DataStructuresFacts.run_my_dict_unbound DataStructures.fresh eq_refl) in Hall.
  discriminate Hall.
Qed.

(** C5, amended: the cells of a notebook share the namespace of its
    kernel, and the outcome of a cell depends on the kernel state through
    what the cell reads of it. Two runs of a cell of the Data Structures
    notebook or of the Parquet notebook from states that agree on what the
    cell reads give the same outcome; the cells of the Data Structures
    notebook other than the word count and the position loop give in a
    fresh namespace the outcome they give after the cells before them; the
    word count and the position loop raise the name-not-found error where
    [sample_words], respectively [steps], is unbound. *)
Theorem cells_depend_on_what_they_read :
  (∀ k c, DataStructures.notebook !! k = Some c →
     determined_by (DataStructures.inputs k) c) ∧
  (∀ k c, Parquet.notebook !! k = Some c →
     determined_by (Parquet.inputs k) c) ∧
  (∀ k c, DataStructures.notebook !! k = Some c → k ≠ 9%nat → k ≠ 11%nat →
     (run_cell c DataStructures.fresh).2
       = (run_cell c (state_before DataStructures.notebook k DataStructures.fresh)).2) ∧
  (∀ s, DataStructures.sample_words s = None →
     error (run_cell DataStructures.cell_my_dict s).2 = Some (NameError "sample_words")) ∧
  (∀ s, DataStructures.steps s = None →
     error (run_cell DataStructures.cell_position s).2 = Some (NameError "steps")).
Proof.
  split; [exact data_structures_determined|]. split; [exact parquet_determined|].
  split; [|split].
  - intros k c Hc H9 H11. apply (data_structures_determined k c Hc).
    unfold DataStructures.inputs.
    do 12 (destruct k as [|k]; [done|]). done.
  - intros s Hs. by rewrite (DataStructuresFacts.run_my_dict_unbound s Hs).
  - intros s Hs. by rewrite (DataStructuresFacts.run_position_unbound s Hs).
Qed.

Lemma cells_depend_on_what_they_read_witness :
  DataStructures.notebook !! 3%nat = Some DataStructures.cell_multiples_loop ∧
  (run_cell DataStructures.cell_multiples_loop DataStructures.fresh).2
    = (run_cell DataStructures.cell_multiples_loop
         (state_before DataStructures.notebook 3 DataStructures.fresh)).2.
Proof.
  split; [reflexivity|].
  apply (proj1 (proj2 (proj2 cells_depend_on_what_they_read)) 3%nat
           DataStructures.cell_multiples_loop eq_refl); lia.
Defined.

(** The Parquet notebook runs without an error on a sample input with the
    four columns, some row, a sex that is a string and an age that is an
    integer. *)
Lemma parquet_no_error (df : Frames.DataFrame) :
  Frames.columns df = Parquet.study_columns → Frames.rows df ≠ [] →
  Forall (Frames.holds_string "sex") (Frames.rows df) →
  Forall (Frames.holds_integer "age") (Frames.rows df) →
  errors (run_all Parquet.notebook (Parquet.fresh df)).2 = [].
Proof.
  intros Hc Hne Hsex Hage.
  destruct (ParquetClaims.study_written df Hc) as [d Hd].
  pose proof (ParquetClaims.filtered_read_succeeds df d Hc Hne Hsex Hage Hd) as Ht.
  rewrite (ParquetFacts.run_notebook df d Hd _ Ht)
    by (cbn [Frames.columns Frames.table]; apply list_elem_of_In; cbn; tauto).
  reflexivity.
Qed.

(** C6: the only error that a cell of the three notebooks raises is the
    name-not-found error of a name that was deleted: in the Shallow and
    Deep Copies notebook the cell [del a, b] unbinds [a] and [b], which were
    bound, and the two cells after it, [a] and [b], raise it; no other cell
    of that notebook, and no cell of the other two notebooks, raises. *)
Theorem only_name_errors (df : Frames.DataFrame) :
  Frames.columns df = Parquet.study_columns → Frames.rows df ≠ [] →
  Forall (Frames.holds_string "sex") (Frames.rows df) →
  Forall (Frames.holds_integer "age") (Frames.rows df) →
  errors (run_all DataStructures.notebook DataStructures.fresh).2 = [] ∧
  errors (run_all Parquet.notebook (Parquet.fresh df)).2 = [] ∧
  errors (run_all Copies.notebook Copies.fresh).2
    = [(9%nat, NameError "a"); (10%nat, NameError "b")] ∧
  Copies.notebook !! 8%nat = Some Copies.cell_del ∧
  Copies.notebook !! 9%nat = Some Copies.cell_a ∧
  Copies.notebook !! 10%nat = Some Copies.cell_b ∧
  is_Some (Copies.a (state_before Copies.notebook 8 Copies.fresh)) ∧
  is_Some (Copies.b (state_before Copies.notebook 8 Copies.fresh)) ∧
  Copies.a (state_before Copies.notebook 9 Copies.fresh) = None ∧
  Copies.b (state_before Copies.notebook 9 Copies.fresh) = None.
Proof.
  intros Hc Hne Hsex Hage.
  split; [vm_compute; reflexivity|].
  split; [by apply parquet_no_error|].
  split; [vm_compute; reflexivity|].
  split; [reflexivity|]. split; [reflexivity|]. split; [reflexivity|].
  split; [eexists; vm_compute; reflexivity|].
  split; [eexists; vm_compute; reflexivity|].
  split; vm_compute; reflexivity.
Qed.

Lemma only_name_errors_witness :
  errors (run_all Parquet.notebook (Parquet.fresh Sample.study_results)).2 = [] ∧
  errors (run_all Copies.notebook Copies.fresh).2
    = [(9%nat, NameError "a"); (10%nat, NameError "b")].
Proof.
  assert (Hc : Frames.columns Sample.study_results = Parquet.study_columns)
    by reflexivity.
  assert (Hne : Frames.rows Sample.study_results ≠ [])
    by (apply (ParquetClaims.len_rows_nonempty _ 120); [reflexivity|lia]).
  assert (Hs : Forall (Frames.holds_string "sex") (Frames.rows Sample.study_results))
    by (by compute_done).
  assert (Ha : Forall (Frames.holds_integer "age") (Frames.rows Sample.study_results))
    by (by compute_done).
  destruct (only_name_errors Sample.study_results Hc Hne Hs Ha)
    as (_ & Hp & Hcopies & _).
  split; [exact Hp|exact Hcopies].
Defined.

End KernelClaims.

(** ** The model against the recorded outputs *)

Module RecordedFacts.
Import Kernel.

(** What the cells of the Data Structures notebook give in the model is
    what the notebook records. *)
Example data_structures_as_recorded :
  delete 6%nat (run_all DataStructures.notebook DataStructures.fresh).2
    = Recorded.data_structures.
Proof. vm_compute. reflexivity. Qed.

Example pi_lines_as_recorded :
  (λ o, omap (λ l, match l with
                   | DataStructures.SLine
                       [DataStructures.AStr a; DataStructures.AInt n;
                        DataStructures.AStr b; DataStructures.AFloat _] =>
                       Some (a, n, b)
                   | _ => None
                   end) (stdout o))
    <$> (run_all DataStructures.notebook DataStructures.fresh).2 !! 6%nat
  = Some Recorded.pi_lines.
Proof. vm_compute. reflexivity. Qed.

(** The same for the Copies notebook: the aliased and the copied lists and
    arrays, the two errors, and the two frames. *)
Example copies_as_recorded :
  (run_all Copies.notebook Copies.fresh).2 = Recorded.copies.
Proof. vm_compute. reflexivity. Qed.

End RecordedFacts.

(** ** Running a cell step by step *)

Module Steps.
Import Kernel.
Section steps.
Context {St Out : Type}.
Implicit Types s : St.

Lemma bind_modify {B} (f : St → St) (k : () → M St Out B) s :
  bind (modify f) k s = k () (f s).
Proof. unfold bind, modify. by destruct (k () (f s)) as [[? ?] ?]. Qed.

Lemma bind_read_bound {A B} (name : string) (proj : St → option A)
    (k : A → M St Out B) s (v : A) :
  proj s = Some v → bind (read name proj) k s = k v s.
Proof.
  intros Hv. unfold bind, read. rewrite Hv. by destruct (k v s) as [[? ?] ?].
Qed.

Lemma bind_read_unbound {A B} (name : string) (proj : St → option A)
    (k : A → M St Out B) s :
  proj s = None → bind (read name proj) k s = (s, [], inl (NameError name)).
Proof. intros Hv. unfold bind, read. by rewrite Hv. Qed.

Lemma bind_print {B} (o : Out) (k : () → M St Out B) s :
  bind (print o) k s = (let '(s', out, r) := k () s in (s', o :: out, r)).
Proof. unfold bind, print. by destruct (k () s) as [[? ?] ?]. Qed.

Lemma bind_ret {A B} (a : A) (k : A → M St Out B) s : bind (ret a) k s = k a s.
Proof. unfold bind, ret. by destruct (k a s) as [[? ?] ?]. Qed.

Lemma bind_run {A B} (m : M St Out A) (k : A → M St Out B) s s' out (a : A) :
  m s = (s', out, inr a) →
  bind m k s = (let '(s'', out', r) := k a s' in (s'', out ++ out', r)).
Proof. intros Hm. unfold bind. by rewrite Hm. Qed.

Lemma bind_raise {A B} (m : M St Out A) (k : A → M St Out B) s s' out e :
  m s = (s', out, inl e) → bind m k s = (s', out, inl e).
Proof. intros Hm. unfold bind. by rewrite Hm. Qed.
End steps.
End Steps.

(** ** Strings: [capitalize] and the product with an integer *)

Module StringFacts.
Import DataStructures Strings.

Lemma upper_upper (c : ascii) : upper (upper c) = upper c.
Proof. by destruct c as [[] [] [] [] [] [] [] []]. Qed.

Lemma lower_lower (c : ascii) : lower (lower c) = lower c.
Proof. by destruct c as [[] [] [] [] [] [] [] []]. Qed.

Lemma lower_all_lower_all (s : string) : lower_all (lower_all s) = lower_all s.
Proof. induction s as [|c s IH]; [done|]. cbn. by rewrite lower_lower, IH. Qed.

Lemma lower_all_length (s : string) : String.length (lower_all s) = String.length s.
Proof. induction s as [|c s IH]; [done|]. cbn. by rewrite IH. Qed.

Lemma upper_lower (c : ascii) : upper (lower c) = upper c.
Proof. by destruct c as [[] [] [] [] [] [] [] []]. Qed.

Lemma upper_ascii (c : ascii) :
  (N_of_ascii c < 128)%N → (N_of_ascii (upper c) < 128)%N.
Proof. by destruct c as [[] [] [] [] [] [] [] []]. Qed.

Lemma lower_ascii (c : ascii) :
  (N_of_ascii c < 128)%N → (N_of_ascii (lower c) < 128)%N.
Proof. by destruct c as [[] [] [] [] [] [] [] []]. Qed.

(** X1: on a string of ASCII characters, [capitalize] gives the same
    string when it is applied again, as the two cells on "little orphan
    annie" and "Little orphan annie" show; it keeps the length of the
    string, and it does not depend on the case of the letters of its
    argument: two ASCII strings that differ only in case have the same
    [capitalize]. *)
Theorem capitalize_idempotent (s : string) :
  ascii_only s →
  capitalize (capitalize s) = capitalize s ∧
  capitalize (lower_all s) = capitalize s ∧
  String.length (capitalize s) = String.length s ∧
  ascii_only (capitalize s) ∧
  (∀ t, ascii_only t → lower_all s = lower_all t → capitalize s = capitalize t).
Proof.
  intros Hs. split; [|split; [|split; [|split]]].
  - destruct s as [|c s]; [done|]. cbn. by rewrite upper_upper, lower_all_lower_all.
  - destruct s as [|c s]; [done|]. cbn. by rewrite upper_lower, lower_all_lower_all.
  - destruct s as [|c s]; [done|]. cbn. by rewrite lower_all_length.
  - destruct s as [|c s]; [done|]. destruct Hs as [Hc Hs]. split.
    + by apply upper_ascii.
    + clear Hc. induction s as [|d s IH]; [done|].
      destruct Hs as [Hd Hs]. split; [by apply lower_ascii|by apply IH].
  - intros t _ Ht. destruct s as [|c s], t as [|d t]; try done.
    cbn in Ht. injection Ht as Hc Hs'. cbn.
    by rewrite <-(upper_lower c), <-(upper_lower d), Hc, Hs'.
Qed.

Lemma capitalize_idempotent_witness :
  ascii_only "little orphan annie" ∧ ascii_only "Little orphan annie" ∧
  lower_all "little orphan annie" = lower_all "Little orphan annie" ∧
  capitalize "little orphan annie" = capitalize "Little orphan annie" ∧
  capitalize (capitalize "little orphan annie") = "Little orphan annie".
Proof.
  assert (H1 : ascii_only "little orphan annie") by (cbn; repeat split).
  assert (H2 : ascii_only "Little orphan annie") by (cbn; repeat split).
  split; [exact H1|]. split; [exact H2|]. split; [reflexivity|]. split.
  - exact (proj2 (proj2 (proj2 (proj2 (capitalize_idempotent "little orphan annie" H1))))
             "Little orphan annie" H2 eq_refl).
  - exact (proj1 (capitalize_idempotent "little orphan annie" H1)).
Defined.








End StringFacts.

(** ** The approximation of pi *)

Module SeriesFacts.
Import Kernel DataStructures Series DataStructuresFacts Steps.

Lemma pi_body_run (x : Z) (s : namespace) (acc : float) :
  approx_pi s = Some acc →
  (modify (set_i x);;
   acc ← read "approx_pi" approx_pi;
   q ← truediv 8 ((4 * x + 1) * (4 * x + 3));
   modify (set_approx_pi (FAdd acc q)))%kernel s
  = (set_approx_pi (pi_step acc x) (set_i x s), [], inr ()).
Proof.
  intros Ha. cbv beta iota zeta delta [bind modify ret raise Kernel.read truediv].
  cbn. rewrite Ha. cbn. destruct (decide ((4 * x + 1) * (4 * x + 3) = 0)) as [E|_]; [|done].
  exfalso. nia.
Qed.

Lemma for_pi_body (l : list Z) (s : namespace) (acc : float) :
  approx_pi s = Some acc →
  for_ l (λ x,
    modify (set_i x);;
    acc ← read "approx_pi" approx_pi;
    q ← truediv 8 ((4 * x + 1) * (4 * x + 3));
    modify (set_approx_pi (FAdd acc q)))%kernel s
  = (match last l with
     | Some x => set_approx_pi (foldl pi_step acc l) (set_i x s)
     | None => s
     end, [], inr ()).
Proof.
  revert s acc. induction l as [|x l IH]; intros s acc Ha; [done|].
  cbn [for_ foldl]. unfold bind at 1. rewrite (pi_body_run x s acc Ha).
  rewrite (IH (set_approx_pi (pi_step acc x) (set_i x s)) (pi_step acc x) eq_refl).
  destruct l as [|y l]; [done|].
  change (last (x :: y :: l)) with (last (y :: l)).
  destruct (last (y :: l)) eqn:E; [reflexivity|by apply last_None in E].
Qed.

Lemma last_range (n : Z) : 0 ≤ n → last (Loops.range 0 (n + 1)) = Some n.
Proof.
  intros Hn. unfold Loops.range. rewrite last_lookup, length_seqZ.
  rewrite lookup_seqZ. split; lia || (f_equal; lia).
Qed.

Lemma range_empty (n : Z) : n < 0 → Loops.range 0 (n + 1) = [].
Proof.
  intros Hn. unfold Loops.range. destruct (n + 1 - 0) eqn:E; try lia; reflexivity.
Qed.

Lemma approximate_pi_run (n : Z) (s : namespace) :
  approximate_pi n s =
    (let s' := set_N n (set_approx_pi (pi_term n) s) in
     if decide (0 ≤ n) then set_i n s' else s',
     [pi_line n], inr ()).
Proof.
  unfold approximate_pi. rewrite !bind_modify.
  rewrite (bind_read_bound _ _ _ _ n) by reflexivity.
  erewrite bind_run; [|by apply for_pi_body].
  fold (pi_term n). destruct (decide (0 ≤ n)) as [Hn|Hn].
  - rewrite (last_range n Hn). reflexivity.
  - unfold pi_line, pi_term. rewrite range_empty by lia. reflexivity.
Qed.

(** X3: the loop of the approximation, for every [N] and in every
    namespace: the divisor [(4*i + 1)*(4*i + 3)] is never zero, so no
    iteration raises; one line is printed; [N] and [approx_pi] are rebound,
    [i] is left at [N] unless the range is empty, and no other name is
    touched. For a negative [N] the loop does not run and the sum is 0. *)
Theorem approximate_pi_runs (n : Z) (s : namespace) :
  approximate_pi n s =
    (let s' := set_N n (set_approx_pi (pi_term n) s) in
     if decide (0 ≤ n) then set_i n s' else s',
     [pi_line n], inr ()) ∧
  (n < 0 → pi_term n = FOfInt 0).
Proof.
  split; [apply approximate_pi_run|].
  intros Hn. unfold pi_term. by rewrite (range_empty n Hn).
Qed.

Lemma approximate_pi_runs_witness :
  -1 < 0 ∧ pi_term (-1) = FOfInt 0 ∧
  i (approximate_pi (-1) fresh).1.1 = None ∧
  N (approximate_pi (-1) fresh).1.1 = Some (-1).
Proof.
  split; [lia|]. split.
  - apply (proj2 (approximate_pi_runs (-1) fresh)). lia.
  - by rewrite (proj1 (approximate_pi_runs (-1) fresh)).
Defined.

(** X4: the cell runs the loop for N = 10, 20, 100 and 1000: in every
    namespace it prints the four lines and raises nothing, and it leaves
    the names as the last run does. *)
Theorem cell_approx_pi_runs (s : namespace) :
  run_cell cell_approx_pi s =
    (set_i 1000 (set_N 1000 (set_approx_pi (pi_term 1000) s)),
     Outcome [pi_line 10; pi_line 20; pi_line 100; pi_line 1000] None None).
Proof.
  unfold run_cell, cell_approx_pi.
  do 4 (erewrite bind_run; [|apply approximate_pi_run]).
  rewrite !decide_True by lia. reflexivity.
Qed.

Lemma pi_fold_succ (m : nat) :
  foldl pi_step (FOfInt 0) (seqZ 0 (Z.of_nat (S m))) =
    pi_step (foldl pi_step (FOfInt 0) (seqZ 0 (Z.of_nat m))) (Z.of_nat m).
Proof.
  replace (Z.of_nat (S m)) with (Z.of_nat m + 1) by lia.
  rewrite seqZ_app by lia. by rewrite foldl_app.
Qed.

Section exact_value.
Import QArith.
Local Open Scope Q_scope.

Lemma pi_step_exact (m : nat) :
  inject_Z 8 / inject_Z ((4 * Z.of_nat m + 1) * (4 * Z.of_nat m + 3)) ==
    inject_Z 4 / inject_Z (2 * Z.of_nat (2 * m) + 1)
    + inject_Z (-4) / inject_Z (2 * Z.of_nat (S (2 * m)) + 1).
Proof.
  replace (2 * Z.of_nat (2 * m) + 1)%Z with (4 * Z.of_nat m + 1)%Z by lia.
  replace (2 * Z.of_nat (S (2 * m)) + 1)%Z with (4 * Z.of_nat m + 3)%Z by lia.
  rewrite inject_Z_mult.
  assert (H1 : ~ inject_Z (4 * Z.of_nat m + 1) == 0).
  { change 0 with (inject_Z 0). rewrite inject_Z_injective. lia. }
  assert (H3 : ~ inject_Z (4 * Z.of_nat m + 3) == 0).
  { change 0 with (inject_Z 0). rewrite inject_Z_injective. lia. }
  rewrite !inject_Z_plus in *.
  field. split; assumption.
Qed.

Lemma pi_fold_leibniz (m : nat) :
  exact (foldl pi_step (FOfInt 0) (seqZ 0 (Z.of_nat m))) == leibniz (2 * m).
Proof.
  induction m as [|m IH]; [reflexivity|].
  rewrite pi_fold_succ. replace (2 * S m)%nat with (S (S (2 * m))) by lia.
  cbn [pi_step exact leibniz]. rewrite IH.
  replace (Nat.even (2 * m)) with true by (by rewrite Nat.even_mul).
  replace (Nat.even (S (2 * m))) with false
    by (by rewrite Nat.even_succ, Nat.odd_mul).
  rewrite pi_step_exact. ring.
Qed.

Lemma pi_term_succ (n : Z) : (0 ≤ n)%Z → pi_term (n + 1) = pi_step (pi_term n) (n + 1).
Proof.
  intros Hn. unfold pi_term, Loops.range.
  replace (n + 1 + 1 - 0)%Z with ((n + 1) + 1)%Z by lia.
  replace (n + 1 - 0)%Z with (n + 1)%Z by lia.
  rewrite seqZ_app by lia. by rewrite foldl_app.
Qed.

(** X5: taken without rounding, the sum that the loop computes for
    [0 <= N] is the sum of the first [2 * (N + 1)] terms of the Leibniz
    series [4 * (1 - 1/3 + 1/5 - ...)], and it grows with [N]. *)
Theorem pi_term_leibniz (n : Z) :
  (0 ≤ n)%Z →
  exact (pi_term n) == leibniz (2 * Z.to_nat (n + 1)) ∧
  exact (pi_term n) < exact (pi_term (n + 1)).
Proof.
  intros Hn. split.
  - unfold pi_term, Loops.range.
    replace (n + 1 - 0)%Z with (Z.of_nat (Z.to_nat (n + 1))) by lia.
    apply pi_fold_leibniz.
  - rewrite (pi_term_succ n Hn). cbn [pi_step exact].
    rewrite <-(Qplus_0_r (exact (pi_term n))) at 1.
    apply Qplus_lt_r. apply Qlt_shift_div_l.
    + change 0 with (inject_Z 0). rewrite <-Zlt_Qlt. nia.
    + reflexivity.
Qed.

Lemma pi_term_leibniz_witness :
  (0 ≤ 10)%Z ∧ exact (pi_term 10) == leibniz 22.
Proof. split; [lia|]. apply (proj1 (pi_term_leibniz 10 ltac:(lia))). Defined.

End exact_value.
End SeriesFacts.

(** ** More on the word count *)

Module WordCountFacts.
Import Loops LoopsFacts WordCount.

Lemma occurrences_app (w : string) (l1 l2 : list string) :
  occurrences w (l1 ++ l2) = occurrences w l1 + occurrences w l2.
Proof. unfold occurrences. rewrite filter_app, length_app. lia. Qed.

Lemma occurrences_perm (w : string) (l1 l2 : list string) :
  l1 ≡ₚ l2 → occurrences w l1 = occurrences w l2.
Proof. intros Hp. unfold occurrences. by rewrite Hp. Qed.

Lemma occurrences_le (w : string) (l : list string) :
  0 ≤ occurrences w l ≤ Z.of_nat (length l).
Proof.
  unfold occurrences. split; [lia|].
  apply inj_le, length_filter.
Qed.

Lemma occurrences_notin (w : string) (l : list string) :
  w ∉ l → occurrences w l = 0.
Proof.
  intros Hw. pose proof (occurrences_le w l) as Hle.
  destruct (decide (0 < occurrences w l)) as [Hpos|Hpos]; [|lia].
  by apply occurrences_pos in Hpos.
Qed.

(** X6: the word count of a concatenation of two lists is the merge of
    their word counts: a word of both lists is counted with the sum of its
    two counts, a word of one list with its count there. *)
Theorem my_dict_loop_app (l1 l2 : list string) :
  my_dict_loop (l1 ++ l2) = merge (my_dict_loop l1) (my_dict_loop l2).
Proof.
  apply map_eq. intros w. unfold merge, my_dict_loop.
  rewrite lookup_union_with, !my_dict_fold_lookup, !lookup_empty, occurrences_app.
  destruct (decide (w ∈ l1)) as [H1|H1], (decide (w ∈ l2)) as [H2|H2]; cbn.
  - rewrite decide_True by (apply elem_of_app; by left). done.
  - rewrite decide_True by (apply elem_of_app; by left).
    f_equal. rewrite (occurrences_notin w l2 H2). lia.
  - rewrite decide_True by (apply elem_of_app; by right).
    f_equal. rewrite (occurrences_notin w l1 H1). lia.
  - rewrite decide_False; [done|]. intros [?|?]%elem_of_app; done.
Qed.

(** X7: the dictionary that the loop builds does not depend on the order
    of the words of the list. *)
Theorem my_dict_loop_perm (l1 l2 : list string) :
  l1 ≡ₚ l2 → my_dict_loop l1 = my_dict_loop l2.
Proof.
  intros Hp. apply map_eq. intros w. unfold my_dict_loop.
  rewrite !my_dict_fold_lookup, !lookup_empty, (occurrences_perm w l1 l2 Hp).
  destruct (decide (w ∈ l1)) as [H1|H1], (decide (w ∈ l2)) as [H2|H2]; try done.
  - by rewrite Hp in H1.
  - by rewrite <-Hp in H2.
Qed.

Lemma my_dict_loop_perm_witness :
  reverse sample_words ≡ₚ sample_words ∧
  my_dict_loop (reverse sample_words) = my_dict_loop sample_words.
Proof.
  split; [apply reverse_Permutation|].
  apply (my_dict_loop_perm (reverse sample_words) sample_words), reverse_Permutation.
Defined.

Lemma total_step (d : gmap string Z) (w : string) :
  total (my_dict_step d w) = total d + 1.
Proof.
  assert (Hins : ∀ (m : gmap string Z) n, m !! w = None →
            total (<[w := n]> m) = n + total m).
  { intros m n Hm. unfold total. rewrite map_fold_insert_L; [done| |done].
    intros; lia. }
  unfold my_dict_step. destruct (d !! w) as [n|] eqn:E.
  - rewrite <-(insert_delete_eq d), Hins by apply lookup_delete_eq.
    rewrite <-(insert_delete_id d w n E) at 2.
    rewrite Hins by apply lookup_delete_eq. lia.
  - rewrite Hins by done. lia.
Qed.

(** X8: the counts of the dictionary add up to the number of words of the
    list, [sum(my_dict.values()) == len(sample_words)], and every count
    lies between 1 and that number. *)
Theorem my_dict_total (words : list string) :
  total (my_dict_loop words) = Z.of_nat (length words) ∧
  (∀ w n, my_dict_loop words !! w = Some n → 1 ≤ n ≤ Z.of_nat (length words)).
Proof.
  split.
  - induction words as [|w words IH] using rev_ind; [reflexivity|].
    unfold my_dict_loop in *. rewrite foldl_app. cbn [foldl].
    rewrite total_step, IH, length_app. simpl. lia.
  - intros w n. unfold my_dict_loop.
    rewrite my_dict_fold_lookup, lookup_empty.
    destruct (decide (w ∈ words)) as [Hw|Hw]; [|done].
    intros [= <-]. pose proof (occurrences_le w words).
    apply occurrences_pos in Hw. lia.
Qed.

Lemma my_dict_total_witness :
  my_dict_loop sample_words !! "president" = Some 4 ∧
  1 ≤ 4 ≤ Z.of_nat (length sample_words) ∧
  total (my_dict_loop sample_words) = 31.
Proof.
  assert (H : my_dict_loop sample_words !! "president" = Some 4)
    by (vm_compute; reflexivity).
  split; [exact H|]. split.
  - exact (proj2 (my_dict_total sample_words) "president" 4 H).
  - exact (proj1 (my_dict_total sample_words)).
Defined.

End WordCountFacts.

(** ** More on the position loop *)

Module PositionFacts.
Import Loops LoopsFacts Walk.

Lemma sum_app (l1 l2 : list Z) : sum (l1 ++ l2) = sum l1 + sum l2.
Proof.
  unfold sum. induction l1 as [|x l1 IH]; simpl; [lia|]. rewrite IH. lia.
Qed.

Lemma position_fold_shift (l : list Z) (p : Z) (acc : list Z) :
  foldl position_step (p, acc) l =
    (p + (position_loop l).1, acc ++ ((λ q, p + q) <$> (position_loop l).2)).
Proof.
  unfold position_loop, position_init.
  revert p acc. induction l as [|x l IH] using rev_ind; intros p acc.
  - cbn. by rewrite Z.add_0_r, app_nil_r.
  - rewrite !foldl_app. cbn [foldl]. rewrite IH. unfold position_step. cbn [fst snd].
    rewrite fmap_app, app_assoc. cbn. f_equal. lia.
Qed.

(** X9: the position loop over a concatenation of two lists of steps:
    the second part goes on from the position that the first part ends at,
    and prints the lines it prints on its own, shifted by that position. *)
Theorem position_loop_app (l1 l2 : list Z) :
  position_loop (l1 ++ l2) =
    ((position_loop l1).1 + (position_loop l2).1,
     (position_loop l1).2 ++ ((λ q, (position_loop l1).1 + q) <$> (position_loop l2).2)).
Proof.
  unfold position_loop at 1. rewrite foldl_app.
  fold (position_loop l1). destruct (position_loop l1) as [p acc].
  apply position_fold_shift.
Qed.

Lemma sum_unit_steps (l : list Z) :
  Forall unit_step l →
  - Z.of_nat (length l) ≤ sum l ≤ Z.of_nat (length l) ∧
  Z.even (sum l + Z.of_nat (length l)) = true.
Proof.
  induction 1 as [|x l Hx Hl IH]; [done|].
  change (sum (x :: l)) with (x + sum l). rewrite length_cons.
  destruct IH as [IH1 IH2]. split; [destruct Hx; lia|].
  replace (x + sum l + Z.of_nat (S (length l)))
    with ((sum l + Z.of_nat (length l)) + (x + 1)) by lia.
  rewrite Z.even_add, IH2. by destruct Hx as [-> | ->].
Qed.

(** X10: with steps of one to the right or to the left, as in [steps],
    the position at the start of iteration [k] is at most [k] away from 0
    and has the parity of [k], and two lines printed one after the other
    differ by one. *)
Theorem position_unit_steps (l : list Z) :
  Forall unit_step l →
  (∀ k, (k ≤ length l)%nat →
     Z.abs (position_at l k).1 ≤ Z.of_nat k ∧
     Z.even ((position_at l k).1 + Z.of_nat k) = true) ∧
  (∀ k p q, (position_loop l).2 !! k = Some p →
     (position_loop l).2 !! S k = Some q → Z.abs (q - p) = 1).
Proof.
  intros Hl.
  assert (Hat : ∀ k, (position_at l k).1 = sum (take k l)).
  { intros k. by rewrite position_at_spec. }
  split.
  - intros k Hk. rewrite Hat.
    destruct (sum_unit_steps (take k l)) as [Hb Hp]; [by apply Forall_take|].
    rewrite length_take in Hb, Hp.
    replace (k `min` length l)%nat with k in Hb, Hp by lia.
    split; [lia|done].
  - intros k p q Hp Hq.
    assert (Hloop : position_loop l = position_at l (length l)).
    { unfold position_loop, position_at. by rewrite firstn_all. }
    rewrite Hloop, position_at_spec in Hp, Hq. cbn [snd] in Hp, Hq.
    rewrite Nat.min_id in Hp, Hq.
    apply list_lookup_fmap_Some in Hp as (j & -> & Hj).
    apply list_lookup_fmap_Some in Hq as (j' & -> & Hj').
    apply lookup_seq in Hj as [-> Hlt], Hj' as [-> Hlt']. cbn.
    destruct (lookup_lt_is_Some_2 l k) as [x Hx]; [lia|].
    rewrite (take_S_r _ _ _ Hx), sum_snoc.
    rewrite Forall_lookup in Hl. fold (sum (take k l)). destruct (Hl k x Hx) as [-> | ->]; lia.
Qed.

Lemma position_unit_steps_witness :
  Forall unit_step steps ∧ Z.abs (position_at steps 5).1 ≤ 5.
Proof.
  assert (H : Forall unit_step steps)
    by (unfold steps; repeat (constructor; [(by left) || (by right)|]); constructor).
  split; [exact H|].
  exact (proj1 (proj1 (position_unit_steps steps H) 5%nat ltac:(vm_compute; lia))).
Defined.
End PositionFacts.

(** ** The names that the loops bind, and the triangle *)

Module NamespaceFacts.
Import Kernel DataStructures DataStructuresFacts Steps Triangle.

Lemma last_cons_cons_Some {A} (x y : A) (l : list A) :
  last (x :: y :: l) = last (y :: l) ∧ is_Some (last (y :: l)).
Proof.
  split; [done|]. destruct (last (y :: l)) eqn:E; [by eexists|].
  by apply last_None in E.
Qed.

(** The loop of the word count, with the namespace it ends in. *)
Lemma for_my_dict_state (ws : list string) (s : namespace) (d : gmap string Z) :
  my_dict s = Some d →
  for_ ws my_dict_body s =
    (match last ws with
     | Some w => set_my_dict (foldl Loops.my_dict_step d ws) (set_word w s)
     | None => s
     end, [], inr ()).
Proof.
  revert s d. induction ws as [|w ws IH]; intros s d Hd; [done|].
  cbn [for_ foldl]. unfold bind at 1. rewrite (my_dict_body_run w s d Hd).
  rewrite (IH (set_my_dict (Loops.my_dict_step d w) (set_word w s))
              (Loops.my_dict_step d w) eq_refl).
  destruct ws as [|w' ws]; [done|].
  destruct (last_cons_cons_Some w w' ws) as [-> [w'' ->]]. reflexivity.
Qed.

(** The loop of the position, with the namespace it ends in. *)
Lemma for_position_state (l : list Z) (s : namespace) (p : Z) :
  position s = Some p →
  for_ l position_body s =
    (match last l with
     | Some x => set_position (foldl Loops.position_step (p, []) l).1 (set_i x s)
     | None => s
     end, SInt <$> (foldl Loops.position_step (p, []) l).2, inr ()).
Proof.
  revert s p. induction l as [|x l IH]; intros s p Hp; [done|].
  cbn [for_ foldl]. unfold bind at 1. rewrite (position_body_run x s p Hp).
  rewrite (IH (set_position (p + x) (set_i x s)) (p + x) eq_refl).
  replace (Loops.position_step (p, []) x) with ((p + x)%Z, [p]) by reflexivity.
  rewrite (position_fold_acc l (p + x) [p]). cbn [fst snd]. rewrite fmap_app.
  destruct l as [|y l]; [done|].
  destruct (last_cons_cons_Some x y l) as [-> [z ->]]. reflexivity.
Qed.

(** X11: the names that the cell of the word count binds, in every
    namespace: [my_dict], and the loop variable [word], which stays bound
    to the last word after the loop; an empty list leaves [word] as it was
    and displays the empty dictionary. Where [sample_words] is unbound the
    cell raises after [my_dict={}] has run, which stays in effect. No other
    name is touched. *)
Theorem cell_my_dict_state (s : namespace) :
  (∀ ws, sample_words s = Some ws →
     run_cell cell_my_dict s =
       (let s' := set_my_dict (Loops.my_dict_loop ws) s in
        match last ws with Some w => set_word w s' | None => s' end,
        quiet (Some (SDict (Loops.my_dict_loop ws))))) ∧
  (sample_words s = None →
     run_cell cell_my_dict s =
       (set_my_dict ∅ s, Outcome [] None (Some (NameError "sample_words")))).
Proof.
  split.
  - intros ws Hws. unfold run_cell, cell_my_dict.
    rewrite bind_modify, (bind_read_bound _ _ _ _ ws) by done.
    erewrite bind_run; [|by apply for_my_dict_state].
    fold (Loops.my_dict_loop ws).
    destruct (last ws) as [w|] eqn:E; [reflexivity|].
    apply last_None in E as ->. reflexivity.
  - intros Hws. unfold run_cell, cell_my_dict.
    by rewrite bind_modify, bind_read_unbound.
Qed.

Lemma cell_my_dict_state_witness :
  sample_words (set_sample_words ["b"; "a"; "b"] fresh) = Some ["b"; "a"; "b"] ∧
  word (run_cell cell_my_dict (set_sample_words ["b"; "a"; "b"] fresh)).1 = Some "b" ∧
  my_dict (run_cell cell_my_dict fresh).1 = Some ∅.
Proof.
  split; [reflexivity|]. split.
  - by rewrite (proj1 (cell_my_dict_state (set_sample_words ["b"; "a"; "b"] fresh))
                  ["b"; "a"; "b"] eq_refl).
  - by rewrite (proj2 (cell_my_dict_state fresh) eq_refl).
Defined.

(** X12: the names that the cell of the position loop binds, in every
    namespace: [position], which ends at the sum of the steps, and the loop
    variable [i], which stays bound to the last step; an empty list of
    steps prints nothing and leaves [i] as it was. Where [steps] is unbound
    the cell raises after [position = 0] has run, which stays in effect. *)
Theorem cell_position_state (s : namespace) :
  (∀ l, steps s = Some l →
     run_cell cell_position s =
       (let s' := set_position (Loops.sum l) s in
        match last l with Some x => set_i x s' | None => s' end,
        Outcome (SInt <$> (Loops.position_loop l).2) None None)) ∧
  (steps s = None →
     run_cell cell_position s =
       (set_position 0 s, Outcome [] None (Some (NameError "steps")))).
Proof.
  split.
  - intros l Hl. unfold run_cell, cell_position.
    rewrite bind_modify, (bind_read_bound _ _ _ _ l) by done.
    erewrite bind_run; [|by apply for_position_state].
    fold Loops.position_init. fold (Loops.position_loop l).
    assert (Hsum : Loops.sum l = (Loops.position_loop l).1).
    { unfold Loops.position_loop. by rewrite LoopsFacts.position_fold_fst. }
    rewrite Hsum.
    unfold bind, ret. rewrite !app_nil_r.
    destruct (last l) as [x|] eqn:E; [reflexivity|].
    apply last_None in E as ->. reflexivity.
  - intros Hl. unfold run_cell, cell_position.
    by rewrite bind_modify, bind_read_unbound.
Qed.

Lemma cell_position_state_witness :
  steps (set_steps [1; 1; -1] fresh) = Some [1; 1; -1] ∧
  i (run_cell cell_position (set_steps [1; 1; -1] fresh)).1 = Some (-1) ∧
  position (run_cell cell_position fresh).1 = Some 0.
Proof.
  split; [reflexivity|]. split.
  - by rewrite (proj1 (cell_position_state (set_steps [1; 1; -1] fresh))
                  [1; 1; -1] eq_refl).
  - by rewrite (proj2 (cell_position_state fresh) eq_refl).
Defined.

(** X13: the loop variable of a [for] statement is a name of the kernel
    and stays bound after the loop; the variable of a comprehension is not:
    in every namespace the cell of the loop leaves [i] at 20 and the cell
    of the comprehension leaves [i] as it was. Neither touches a name other
    than the list it builds. *)
Theorem loop_variable_scope (s : namespace) :
  (run_cell cell_multiples_loop s).1
    = set_i 20 (set_multiples_loop (Loops.multiples_loop 3 20) s) ∧
  (run_cell cell_multiples s).1 = set_multiples (Loops.multiples 7 20) s ∧
  i (run_cell cell_multiples s).1 = i s.
Proof. repeat split; reflexivity. Qed.

(** A loop that prints [f x] for each [x]. *)
Lemma for_print (f : Z → string) (l : list Z) (s : namespace) :
  for_ l (λ x, modify (set_i x);; print (SStr (f x)))%kernel s =
    (match last l with Some x => set_i x s | None => s end,
     (λ x, SStr (f x)) <$> l, inr ()).
Proof.
  revert s. induction l as [|x l IH]; intros s; [done|].
  cbn [for_]. unfold bind at 1. rewrite bind_modify. unfold print at 1.
  rewrite IH. destruct l as [|y l]; [done|].
  destruct (last_cons_cons_Some x y l) as [-> [z ->]]. reflexivity.
Qed.

Lemma range_sub_reverse (n : Z) :
  (λ x, n - x) <$> Loops.range 0 n = reverse (Loops.range 1 (n + 1)).
Proof.
  unfold Loops.range. apply list_eq. intros k.
  rewrite list_lookup_fmap.
  destruct (decide (Z.of_nat k < n)) as [Hk|Hk].
  - rewrite lookup_seqZ_lt by lia. cbn.
    rewrite reverse_lookup by (rewrite length_seqZ; lia).
    rewrite length_seqZ, lookup_seqZ_lt by lia. f_equal. lia.
  - rewrite !lookup_ge_None_2; [done| |];
      rewrite ?length_reverse, ?length_seqZ; lia.
Qed.

(** X14: the triangle, for every word and height and in every namespace:
    the first loop prints the word 0, 1, ..., n-1 times, then comes an
    empty line, and the second loop prints the lines of the first loop from
    the last to the first with one more word each, n, n-1, ..., 1 words; no
    line raises, and [i] is left at n-1. The cell of the notebook is the
    triangle of "Time" with 15 lines in each half, 31 lines in all. *)
Theorem triangle_lines (w : string) (n : Z) (s : namespace) :
  triangle w n s =
    (if decide (0 < n) then set_i (n - 1) s else s,
     ((λ x, SStr (str_mul w x)) <$> Loops.range 0 n) ++ [SStr ""] ++
     ((λ x, SStr (str_mul w x)) <$> reverse (Loops.range 1 (n + 1))),
     inr ()) ∧
  cell_triangle = bind (triangle "Time" 15) (λ _, ret None) ∧
  length (stdout (run_cell cell_triangle s).2) = 31%nat.
Proof.
  split; [|split; reflexivity].
  unfold triangle.
  erewrite bind_run; [|apply (for_print (str_mul w))].
  rewrite bind_print.
  rewrite (for_print (λ x, str_mul w (n - x))).
  rewrite <-range_sub_reverse, <-list_fmap_compose.
  assert (Hlast : last (Loops.range 0 n) = if decide (0 < n) then Some (n - 1) else None).
  { destruct (decide (0 < n)) as [Hn|Hn].
    - replace n with ((n - 1) + 1) at 1 by lia. apply SeriesFacts.last_range. lia.
    - unfold Loops.range. destruct (n - 0) eqn:E; try lia; reflexivity. }
  rewrite Hlast. destruct (decide (0 < n)); reflexivity.
Qed.
End NamespaceFacts.

(** ** Lists and arrays under two names *)

Module HeapFacts.
Import Kernel Copies Heap Steps.

Lemma allocated_fresh : allocated fresh.
Proof.
  repeat split; intros l [? Hl]; unfold fresh in Hl; cbn [lists arrays frames] in Hl;
    by rewrite lookup_empty in Hl.
Qed.




Lemma updated_length {A} (xs : list A) (i : Z) (v : A) :
  length (updated xs i v) = length xs.
Proof. unfold updated. destruct (norm_index _ _); by rewrite ?length_insert. Qed.

Lemma setitem_list_lists (s : state) (l : loc) (i v : Z) :
  is_Some (lists s !! l) →
  lists (setitem (RList l) i v s).1.1 = <[l := updated (lists s !!! l) i (EInt v)]> (lists s).
Proof.
  intros [xs Hxs]. unfold setitem, get_list, bind, updated.
  destruct (norm_index _ _); [done|]. cbn.
  rewrite insert_id; [done|]. by rewrite lookup_total_alt, Hxs.
Qed.

Lemma setitem_array_arrays (s : state) (l : loc) (i v : Z) :
  is_Some (arrays s !! l) →
  arrays (setitem (RArray l) i v s).1.1 =
    <[l := if decide (int64 v) then updated (arrays s !!! l) i v else arrays s !!! l]>
      (arrays s).
Proof.
  intros [xs Hxs]. unfold setitem, get_array, bind, updated.
  assert (Hid : <[l := arrays s !!! l]> (arrays s) = arrays s).
  { rewrite insert_id; [done|]. by rewrite lookup_total_alt, Hxs. }
  destruct (norm_index _ _), (decide (int64 v)); cbn; by rewrite ?Hid.
Qed.

Lemma setitem_frame (s : state) (r : ref) (i v : Z) :
  let s' := (setitem r i v s).1.1 in
  next s' = next s ∧ a s' = a s ∧ b s' = b s ∧ frames s' = frames s ∧
  match r with
  | RList _ => arrays s' = arrays s
  | RArray _ => lists s' = lists s
  end.
Proof.
  destruct r as [l|l]; unfold setitem, get_list, get_array, bind;
    destruct (norm_index _ _); try done.
  by destruct (decide (int64 v)).
Qed.

Lemma allocated_lt (s : state) (l : loc) :
  allocated s → is_Some (lists s !! l) → l ≠ next s.
Proof. intros (Hl & _) Hs%Hl. lia. Qed.

Lemma allocated_new_list (s : state) (xs : list elem) :
  allocated s → allocated (new_list xs s).1.1.
Proof.
  intros (Hl & Ha & Hf). unfold new_list. cbn. repeat split; cbn; intros l Hs.
  - destruct (decide (l = next s)) as [->|Hne]; [lia|].
    rewrite lookup_insert_ne in Hs by done. apply Hl in Hs. lia.
  - apply Ha in Hs. lia.
  - apply Hf in Hs. lia.
Qed.

Lemma allocated_new_array (s : state) (xs : list Z) :
  allocated s → allocated (new_array xs s).1.1.
Proof.
  intros (Hl & Ha & Hf). unfold new_array. cbn. repeat split; cbn; intros l Hs.
  - apply Hl in Hs. lia.
  - destruct (decide (l = next s)) as [->|Hne]; [lia|].
    rewrite lookup_insert_ne in Hs by done. apply Ha in Hs. lia.
  - apply Hf in Hs. lia.
Qed.

Lemma allocated_new_frame (s : state) (d : Frames.DataFrame) :
  allocated s → allocated (new_frame d s).1.1.
Proof.
  intros (Hl & Ha & Hf). unfold new_frame. cbn. repeat split; cbn; intros l Hs.
  - apply Hl in Hs. lia.
  - apply Ha in Hs. lia.
  - destruct (decide (l = next s)) as [->|Hne]; [lia|].
    rewrite lookup_insert_ne in Hs by done. apply Hf in Hs. lia.
Qed.

Lemma allocated_setitem (s : state) (r : ref) (i v : Z) :
  allocated s →
  match r with RList l => is_Some (lists s !! l) | RArray l => is_Some (arrays s !! l) end →
  allocated (setitem r i v s).1.1.
Proof.
  intros (Hl & Ha & Hf) Hr.
  destruct (setitem_frame s r i v) as (Hn & _ & _ & Hfr & Hother).
  destruct r as [l|l].
  - repeat split; rewrite Hn, ?Hother, ?Hfr; try done.
    intros k. rewrite (setitem_list_lists s l i v Hr).
    destruct (decide (k = l)) as [->|Hne]; [intros _; by apply Hl|].
    rewrite lookup_insert_ne by done. apply Hl.
  - repeat split; rewrite Hn, ?Hother, ?Hfr; try done.
    intros k. rewrite (setitem_array_arrays s l i v Hr).
    destruct (decide (k = l)) as [->|Hne]; [intros _; by apply Ha|].
    rewrite lookup_insert_ne by done. apply Ha.
Qed.

Lemma render_list_S (fuel : nat) (heap : gmap loc (list elem))
    (visiting : gset loc) (l : loc) :
  render_list (S fuel) heap visiting l =
    if decide (l ∈ visiting) then PEllipsis
    else PList ((λ e, match e with
                      | EInt n => PInt n
                      | EList l' => render_list fuel heap ({[l]} ∪ visiting) l'
                      end) <$> (heap !!! l)).
Proof. reflexivity. Qed.

Lemma render_int_list (fuel : nat) (heap : gmap loc (list elem))
    (visiting : gset loc) (l : loc) (row : list Z) :
  heap !! l = Some (int_list row) → l ∉ visiting →
  render_list (S fuel) heap visiting l = PList (PInt <$> row).
Proof.
  intros Hl Hv. rewrite render_list_S, decide_False by done.
  rewrite lookup_total_alt, Hl. cbn. unfold int_list.
  by rewrite <-list_fmap_compose.
Qed.

Lemma render_flat (s : state) (l : loc) (row : list Z) :
  lists s !! l = Some (int_list row) →
  render (RList l) s = (s, [], inr (SValue (PList (PInt <$> row)))).
Proof.
  intros Hl. unfold render. do 3 f_equal. by apply render_int_list.
Qed.

Lemma print_flat {B} (s : state) (l : loc) (row : list Z) (k : () → M B) :
  lists s !! l = Some (int_list row) →
  bind (print_ref (RList l)) k s =
    (let '(s', out, r) := k () s in (s', SValue (PList (PInt <$> row)) :: out, r)).
Proof.
  intros Hl. unfold print_ref.
  unfold bind at 1. unfold bind at 1. rewrite (render_flat s l row Hl).
  unfold print. by destruct (k () s) as [[? ?] ?].
Qed.

(** X16: a list under two names, and a list and its copy: an item
    assigned through an alias is assigned in the one list that both names
    hold; an item assigned through [copy.copy] of the list is assigned in
    the copy, a new object, and the list itself and every other list keep
    their elements. *)
Theorem alias_and_copy (s : state) (l : loc) (i v : Z) :
  allocated s → is_Some (lists s !! l) →
  let xs := lists s !!! l in
  lists (setitem (RList l) i v s).1.1 !! l = Some (updated xs i (EInt v)) ∧
  let s' := (bind (shallow_copy (RList l)) (λ y, setitem y i v) s).1.1 in
  lists s' !! l = Some xs ∧
  lists s' !! next s = Some (updated xs i (EInt v)) ∧
  (∀ k, k ≠ next s → lists s' !! k = lists s !! k) ∧
  allocated s'.
Proof.
  intros Hal Hl xs. split.
  { rewrite (setitem_list_lists s l i v Hl). by rewrite lookup_insert_eq. }
  pose proof (allocated_lt s l Hal Hl) as Hne.
  set (s1 := (new_list xs s).1.1).
  assert (Hcopy : shallow_copy (RList l) s = (s1, [], inr (RList (next s))))
    by reflexivity.
  rewrite (bind_run _ _ _ _ _ _ Hcopy).
  destruct (setitem (RList (next s)) i v s1) as [[s2 out] r] eqn:Es2. cbn [fst].
  assert (H1 : is_Some (lists s1 !! next s)).
  { unfold s1, new_list. cbn. rewrite lookup_insert_eq. by eexists. }
  assert (Hs2 : lists s2 = <[next s := updated xs i (EInt v)]> (lists s)).
  { pose proof (setitem_list_lists s1 (next s) i v H1) as H. rewrite Es2 in H.
    cbn [fst] in H. rewrite H. unfold s1, new_list. cbn.
    rewrite lookup_total_insert_eq, insert_insert_eq. done. }
  assert (Hxs : lists s !! l = Some xs).
  { destruct Hl as [ys Hys]. unfold xs. by rewrite lookup_total_alt, Hys. }
  rewrite Hs2. split; [by rewrite lookup_insert_ne|].
  split; [by rewrite lookup_insert_eq|].
  split; [intros k Hk; by rewrite lookup_insert_ne|].
  pose proof (allocated_setitem s1 (RList (next s)) i v
                (allocated_new_list s xs Hal) H1) as H.
  by rewrite Es2 in H.
Qed.

Lemma alias_and_copy_witness :
  allocated (new_list (int_list [1; 2; 3; 4; 5; 6]) fresh).1.1 ∧
  is_Some (lists (new_list (int_list [1; 2; 3; 4; 5; 6]) fresh).1.1 !! 1%positive) ∧
  lists (setitem (RList 1%positive) 3 71
           (new_list (int_list [1; 2; 3; 4; 5; 6]) fresh).1.1).1.1 !! 1%positive
    = Some (int_list [1; 2; 3; 71; 5; 6]) ∧
  lists (bind (shallow_copy (RList 1%positive)) (λ y, setitem y 3 71)
           (new_list (int_list [1; 2; 3; 4; 5; 6]) fresh).1.1).1.1 !! 1%positive
    = Some (int_list [1; 2; 3; 4; 5; 6]).
Proof.
  assert (Hal : allocated (new_list (int_list [1; 2; 3; 4; 5; 6]) fresh).1.1)
    by apply allocated_new_list, allocated_fresh.
  assert (Hl : is_Some (lists (new_list (int_list [1; 2; 3; 4; 5; 6]) fresh).1.1
                          !! 1%positive))
    by (eexists; reflexivity).
  split; [exact Hal|]. split; [exact Hl|].
  destruct (alias_and_copy _ 1%positive 3 71 Hal Hl) as (Halias & Hcopy & _).
  split; [exact Halias|exact Hcopy].
Defined.

(** X17: the same for numpy arrays, for every array of integers of 64
    bits, every index and every integer: an integer of 64 bits assigned
    through [b = a] is assigned in the array of [a]; assigned through
    [b = a.copy()] it is assigned in a new array, and the array of [a] and
    every other array keep their elements. An integer outside the 64 bits
    is assigned nowhere: the array and the copy hold the elements the array
    had. The elements stay integers of 64 bits. *)
Theorem array_alias_and_copy (s : state) (l : loc) (i v : Z) :
  allocated s → is_Some (arrays s !! l) → Forall int64 (arrays s !!! l) →
  let xs := arrays s !!! l in
  let s' := (bind (shallow_copy (RArray l)) (λ y, setitem y i v) s).1.1 in
  (int64 v →
     arrays (setitem (RArray l) i v s).1.1 !! l = Some (updated xs i v) ∧
     arrays s' !! next s = Some (updated xs i v) ∧
     Forall int64 (updated xs i v)) ∧
  (¬ int64 v →
     arrays (setitem (RArray l) i v s).1.1 !! l = Some xs ∧
     arrays s' !! next s = Some xs) ∧
  arrays s' !! l = Some xs ∧
  (∀ k, k ≠ next s → arrays s' !! k = arrays s !! k) ∧
  allocated s'.
Proof.
  intros Hal Hl Hint xs.
  assert (Hne : l ≠ next s).
  { destruct Hal as (_ & Ha & _). apply Ha in Hl. lia. }
  set (s1 := (new_array xs s).1.1).
  assert (Hcopy : shallow_copy (RArray l) s = (s1, [], inr (RArray (next s))))
    by reflexivity.
  rewrite (bind_run _ _ _ _ _ _ Hcopy).
  destruct (setitem (RArray (next s)) i v s1) as [[s2 out] r] eqn:Es2. cbn [fst].
  assert (H1 : is_Some (arrays s1 !! next s)).
  { unfold s1, new_array. cbn. rewrite lookup_insert_eq. by eexists. }
  assert (Hs2 : arrays s2 =
            <[next s := if decide (int64 v) then updated xs i v else xs]> (arrays s)).
  { pose proof (setitem_array_arrays s1 (next s) i v H1) as H. rewrite Es2 in H.
    cbn [fst] in H. rewrite H. unfold s1, new_array. cbn.
    rewrite lookup_total_insert_eq, insert_insert_eq. done. }
  assert (Hxs : arrays s !! l = Some xs).
  { destruct Hl as [ys Hys]. unfold xs. by rewrite lookup_total_alt, Hys. }
  rewrite (setitem_array_arrays s l i v Hl), Hs2. fold xs.
  split; [|split; [|split; [|split]]].
  - intros Hv. rewrite !decide_True by done. rewrite !lookup_insert_eq.
    split; [done|]. split; [done|]. unfold updated.
    destruct (norm_index _ _); [by apply Forall_insert|done].
  - intros Hv. rewrite !decide_False by done. by rewrite !lookup_insert_eq.
  - by rewrite lookup_insert_ne.
  - intros k Hk. by rewrite lookup_insert_ne.
  - pose proof (allocated_setitem s1 (RArray (next s)) i v
                  (allocated_new_array s xs Hal) H1) as H.
    by rewrite Es2 in H.
Qed.

Lemma array_alias_and_copy_witness :
  allocated (new_array [1; 2; 3; 4] fresh).1.1 ∧
  is_Some (arrays (new_array [1; 2; 3; 4] fresh).1.1 !! 1%positive) ∧
  Forall int64 (arrays (new_array [1; 2; 3; 4] fresh).1.1 !!! 1%positive) ∧
  int64 1 ∧
  arrays (setitem (RArray 1%positive) 2 1 (new_array [1; 2; 3; 4] fresh).1.1).1.1
    !! 1%positive = Some [1; 2; 1; 4] ∧
  arrays (bind (shallow_copy (RArray 1%positive)) (λ y, setitem y 2 1)
            (new_array [1; 2; 3; 4] fresh).1.1).1.1 !! 1%positive
    = Some [1; 2; 3; 4].
Proof.
  assert (Hal : allocated (new_array [1; 2; 3; 4] fresh).1.1)
    by apply allocated_new_array, allocated_fresh.
  assert (Hl : is_Some (arrays (new_array [1; 2; 3; 4] fresh).1.1 !! 1%positive))
    by (eexists; reflexivity).
  assert (Hv : int64 1) by (unfold int64; lia).
  assert (Hint : Forall int64 (arrays (new_array [1; 2; 3; 4] fresh).1.1 !!! 1%positive)).
  { change (Forall int64 [1; 2; 3; 4]). repeat constructor; unfold int64; lia. }
  split; [exact Hal|]. split; [exact Hl|]. split; [exact Hint|]. split; [exact Hv|].
  destruct (array_alias_and_copy _ 1%positive 2 1 Hal Hl Hint) as (Hin & _ & Hcopy & _).
  split; [exact (proj1 (Hin Hv))|exact Hcopy].
Defined.

Lemma setitem_flat (s : state) (l : loc) (ys : list Z) (i v : Z) :
  lists s !! l = Some (int_list ys) →
  setitem (RList l) i v s =
    match norm_index (length ys) i with
    | Some k => (set_lists (<[l := int_list (<[k := v]> ys)]> (lists s)) s, [], inr ())
    | None => (s, [], inl IndexError)
    end.
Proof.
  intros Hl. unfold setitem, get_list, bind, modify.
  rewrite lookup_total_alt, Hl. cbn [default from_option id].
  unfold int_list at 1. rewrite length_fmap.
  destruct (norm_index _ _); [|done]. unfold int_list. by rewrite list_fmap_insert.
Qed.

Lemma norm_index_nonneg (n : nat) (i : Z) :
  0 ≤ i →
  norm_index n i = if decide (Z.to_nat i < n)%nat then Some (Z.to_nat i) else None.
Proof.
  intros Hi. unfold norm_index.
  destruct (decide (Z.to_nat i < n)%nat) as [H|H].
  - rewrite decide_True by lia. done.
  - rewrite !decide_False by lia. done.
Qed.

(** X18: the cell [a=[1,2,3,4,5,6]; b[3]=71; print(a); print(b)] rebinds
    [a] to a new list before it assigns through [b]: whatever list of
    integers [b] is bound to, a copy of the old list of [a] or that list
    itself, the cell prints the new list for [a], unchanged, and the list
    of [b] with 71 at index 3; a list of [b] with fewer than four elements
    raises the index error before anything is printed, and an unbound [b]
    raises the name error. *)
Theorem cell_copy_changed_outcome (s : state) :
  allocated s →
  (∀ lb ys, b s = Some (RList lb) → lists s !! lb = Some (int_list ys) →
     (run_cell cell_copy_changed s).2 =
       if decide (3 < length ys)%nat then
         Outcome [SValue (PList (PInt <$> [1; 2; 3; 4; 5; 6]));
                  SValue (PList (PInt <$> <[3%nat := 71]> ys))] None None
       else Outcome [] None (Some IndexError)) ∧
  (b s = None →
     (run_cell cell_copy_changed s).2 = Outcome [] None (Some (NameError "b"))).
Proof.
  intros Hal. split.
  - intros lb ys Hb Hlb.
    assert (Hne : lb ≠ next s) by (apply (allocated_lt s lb Hal); by eexists).
    unfold run_cell, cell_copy_changed.
    erewrite bind_run; [|reflexivity]. rewrite bind_modify.
    rewrite (bind_read_bound _ _ _ _ (RList lb)) by done.
    unfold bind at 1. rewrite (setitem_flat _ lb ys)
      by (cbn; by rewrite lookup_insert_ne).
    rewrite norm_index_nonneg by lia. change (Z.to_nat 3) with 3%nat.
    destruct (decide (3 < length ys)%nat) as [Hlen|Hlen]; [|done].
    rewrite (bind_read_bound _ _ _ _ (RList (next s))) by reflexivity.
    rewrite (print_flat _ _ [1; 2; 3; 4; 5; 6])
      by (cbn; rewrite lookup_insert_ne by done; by rewrite lookup_insert_eq).
    rewrite (bind_read_bound _ _ _ _ (RList lb)) by done.
    rewrite (print_flat _ _ (<[3%nat := 71]> ys)) by (cbn; by rewrite lookup_insert_eq).
    reflexivity.
  - intros Hb. unfold run_cell, cell_copy_changed.
    erewrite bind_run; [|reflexivity]. rewrite bind_modify.
    by rewrite bind_read_unbound.
Qed.

Lemma cell_copy_changed_outcome_witness :
  allocated (set_b (Some (RList 1%positive)) (new_list (int_list [7; 8; 9; 10]) fresh).1.1) ∧
  (run_cell cell_copy_changed
     (set_b (Some (RList 1%positive)) (new_list (int_list [7; 8; 9; 10]) fresh).1.1)).2
    = Outcome [SValue (PList (PInt <$> [1; 2; 3; 4; 5; 6]));
               SValue (PList (PInt <$> [7; 8; 9; 71]))] None None.
Proof.
  assert (Hal : allocated (set_b (Some (RList 1%positive))
                             (new_list (int_list [7; 8; 9; 10]) fresh).1.1))
    by apply (allocated_new_list fresh), allocated_fresh.
  split; [exact Hal|].
  exact (proj1 (cell_copy_changed_outcome _ Hal) 1%positive [7; 8; 9; 10] eq_refl eq_refl).
Defined.

End HeapFacts.

(** ** Lists of lists: shallow and deep copies *)

Module NestedFacts.
Import Kernel Copies Heap Steps HeapFacts.

Lemma nested_not_in (s : state) (l : loc) (ls : list loc) (rows : list (list Z)) :
  nested s l ls rows → l ∉ ls.
Proof.
  intros (Hl & Hrows) Hin.
  apply list_elem_of_lookup in Hin as [n Hn].
  destruct (Forall2_lookup_l _ _ _ _ _ Hrows Hn) as (row & _ & Hrow).
  rewrite Hl in Hrow. apply (inj Some) in Hrow.
  destruct ls as [|l0 ls]; [done|]. by destruct row.
Qed.

Lemma nested_render (s : state) (l : loc) (ls : list loc) (rows : list (list Z)) :
  nested s l ls rows → render (RList l) s = (s, [], inr (show_rows rows)).
Proof.
  intros Hn. pose proof (nested_not_in s l ls rows Hn) as Hnotin.
  destruct Hn as (Hl & Hrows). unfold render, show_rows. do 3 f_equal.
  rewrite render_list_S, decide_False by set_solver.
  rewrite lookup_total_alt, Hl. cbn [default from_option id]. f_equal.
  rewrite <-list_fmap_compose. clear Hl.
  induction Hrows as [|li row ls rows Hli Hrows IH]; [done|].
  rewrite !fmap_cons. f_equal.
  - cbn [compose]. apply render_int_list; [done|].
    rewrite not_elem_of_union, not_elem_of_singleton. split; [|set_solver].
    intros ->. apply Hnotin. by left.
  - apply IH. intros Hin. apply Hnotin. by right.
Qed.

Lemma nested_lookup (s : state) (l : loc) (ls : list loc) (rows : list (list Z))
    (k : nat) (row : list Z) :
  nested s l ls rows → rows !! k = Some row →
  ∃ lk, ls !! k = Some lk ∧ lists s !! lk = Some (int_list row) ∧ lk ≠ l.
Proof.
  intros Hn Hk. pose proof (nested_not_in s l ls rows Hn) as Hnotin.
  destruct Hn as (Hl & Hrows).
  destruct (Forall2_lookup_r _ _ _ _ _ Hrows Hk) as (lk & Hlk & Hrow).
  exists lk. split; [done|]. split; [done|].
  intros ->. apply Hnotin. by eapply list_elem_of_lookup_2.
Qed.

Lemma nested_setitem2 (s : state) (l : loc) (ls : list loc) (rows : list (list Z))
    (i j v : Z) (k m : nat) (row : list Z) :
  nested s l ls rows →
  norm_index (length rows) i = Some k → rows !! k = Some row →
  norm_index (length row) j = Some m →
  ∃ lk, ls !! k = Some lk ∧
    setitem2 (RList l) i j v s =
      (set_lists (<[lk := int_list (<[m := v]> row)]> (lists s)) s, [], inr ()).
Proof.
  intros Hn Hi Hk Hj.
  destruct (nested_lookup s l ls rows k row Hn Hk) as (lk & Hlk & Hrow & _).
  exists lk. split; [done|]. destruct Hn as (Hl & Hrows).
  unfold setitem2, setitem, get_list, bind, modify.
  rewrite (lookup_total_alt _ l), Hl. cbn [default from_option id].
  rewrite length_fmap, (Forall2_length _ _ _ Hrows), Hi.
  rewrite list_lookup_fmap, Hlk. cbn [fmap option_fmap option_map].
  rewrite (lookup_total_alt _ lk), Hrow. cbn [default from_option id].
  unfold int_list at 1. rewrite length_fmap, Hj.
  unfold int_list. by rewrite list_fmap_insert.
Qed.

Lemma assigned_lookup (ls : list loc) (lk : loc) (row' : list Z)
    (rows : list (list Z)) (n : nat) (ln : loc) (rown : list Z) :
  ls !! n = Some ln → rows !! n = Some rown →
  assigned ls lk row' rows !! n = Some (if decide (ln = lk) then row' else rown).
Proof.
  intros Hln Hrown. unfold assigned. rewrite lookup_zip_with, Hln. cbn.
  by rewrite Hrown.
Qed.

Lemma assigned_length (ls : list loc) (lk : loc) (row' : list Z)
    (rows : list (list Z)) :
  length ls = length rows → length (assigned ls lk row' rows) = length rows.
Proof. intros Hlen. unfold assigned. rewrite length_zip_with. lia. Qed.

(** Where the rows are different lists, one row is assigned. *)
Lemma assigned_NoDup (ls : list loc) (lk : loc) (row' : list Z)
    (rows : list (list Z)) (k : nat) :
  length ls = length rows → NoDup ls → ls !! k = Some lk →
  assigned ls lk row' rows = <[k := row']> rows.
Proof.
  intros Hlen Hnd Hlk. apply list_eq. intros n.
  destruct (ls !! n) as [ln|] eqn:Hln.
  - destruct (lookup_lt_is_Some_2 rows n) as [rown Hrown].
    { rewrite <-Hlen. by eapply lookup_lt_Some. }
    rewrite (assigned_lookup _ _ _ _ _ _ _ Hln Hrown).
    destruct (decide (n = k)) as [->|Hne].
    + rewrite Hlk in Hln. injection Hln as <-. rewrite decide_True by done.
      rewrite list_lookup_insert_eq; [done|]. by eapply lookup_lt_Some.
    + rewrite list_lookup_insert_ne by done. rewrite decide_False; [done|].
      intros ->. apply Hne. by eapply NoDup_lookup.
  - apply lookup_ge_None in Hln.
    rewrite (proj2 (lookup_ge_None _ _))
      by (rewrite assigned_length by done; lia).
    rewrite (proj2 (lookup_ge_None _ _)); [done|]. rewrite length_insert. lia.
Qed.

(** Assigning new integers to one of the inner lists keeps the shape, for
    every list that holds these inner lists. *)
Lemma nested_update (s : state) (l : loc) (ls : list loc) (rows : list (list Z))
    (lk : loc) (row' : list Z) :
  nested s l ls rows → lk ∈ ls →
  nested (set_lists (<[lk := int_list row']> (lists s)) s) l ls
    (assigned ls lk row' rows).
Proof.
  intros Hn Hlk. pose proof (nested_not_in s l ls rows Hn) as Hnotin.
  destruct Hn as (Hl & Hrows). split.
  - cbn. rewrite lookup_insert_ne; [done|]. by intros ->.
  - cbn. apply Forall2_same_length_lookup_2.
    { rewrite assigned_length by (by eapply Forall2_length).
      by eapply Forall2_length. }
    intros n ln rown Hln Hrown.
    destruct (Forall2_lookup_l _ _ _ _ _ Hrows Hln) as (rown0 & Hrown0 & Hheap).
    rewrite (assigned_lookup _ _ _ _ _ _ _ Hln Hrown0) in Hrown.
    apply (inj Some) in Hrown as <-.
    destruct (decide (ln = lk)) as [->|Hne].
    + by rewrite lookup_insert_eq.
    + by rewrite lookup_insert_ne.
Qed.

Lemma deepcopy_list_S (fuel : nat) (l : loc) (heap : gmap loc (list elem))
    (nxt : loc) (memo : gmap loc loc) :
  deepcopy_list (S fuel) l (heap, nxt, memo) =
    match memo !! l with
    | Some l' => (l', (heap, nxt, memo))
    | None =>
        let '(ys, (heap', nxt', memo')) :=
          foldl (copy_elem fuel) ([], (<[nxt := []]> heap, Pos.succ nxt, <[l := nxt]> memo))
                (heap !!! l) in
        (nxt, (<[nxt := ys]> heap', nxt', memo'))
    end.
Proof. reflexivity. Qed.

Lemma copy_elem_ints (fuel : nat) (row : list Z) (ys : list elem)
    (h : gmap loc (list elem) * loc * gmap loc loc) :
  foldl (copy_elem fuel) (ys, h) (int_list row) = (ys ++ int_list row, h).
Proof.
  revert ys. induction row as [|n row IH]; intros ys; cbn.
  - by rewrite app_nil_r.
  - unfold int_list in IH. rewrite IH. by rewrite <-app_assoc.
Qed.

(** The deep copy of a list of integers: a new list with these integers. *)
Lemma deepcopy_int_list (fuel : nat) (l : loc) (row : list Z)
    (heap : gmap loc (list elem)) (nxt : loc) (memo : gmap loc loc) :
  heap !! l = Some (int_list row) → memo !! l = None →
  deepcopy_list (S fuel) l (heap, nxt, memo) =
    (nxt, (<[nxt := int_list row]> heap, Pos.succ nxt, <[l := nxt]> memo)).
Proof.
  intros Hl Hm. rewrite deepcopy_list_S, Hm, lookup_total_alt, Hl.
  cbn [default from_option id]. rewrite copy_elem_ints. cbn.
  by rewrite insert_insert_eq.
Qed.

(** The deep copy of a list that was copied before: the copy made then. *)
Lemma deepcopy_memo (fuel : nat) (l l' : loc)
    (heap : gmap loc (list elem)) (nxt : loc) (memo : gmap loc loc) :
  memo !! l = Some l' →
  deepcopy_list (S fuel) l (heap, nxt, memo) = (l', (heap, nxt, memo)).
Proof. intros Hm. by rewrite deepcopy_list_S, Hm. Qed.

(** The deep copies of the rows [ls], all below [lo]: a row that was met
    before is answered by [memo], which maps different rows to different
    copies. *)
Lemma deepcopy_rows (fuel : nat) (lo : loc) (ls : list loc) :
  ∀ (rows : list (list Z)) (ys : list elem) (heap : gmap loc (list elem))
    (nxt : loc) (memo : gmap loc loc),
  Forall2 (λ li row, heap !! li = Some (int_list row)) ls rows →
  (∀ li, li ∈ ls → (li < lo)%positive) →
  (lo ≤ nxt)%positive →
  (∀ x y, memo !! x = Some y → (y < nxt)%positive) →
  (∀ x x' y, memo !! x = Some y → memo !! x' = Some y → x = x') →
  (∀ x y, x ∈ ls → memo !! x = Some y → (lo ≤ y)%positive ∧ heap !! y = heap !! x) →
  ∃ ls' heap' nxt' memo',
    foldl (copy_elem (S fuel)) (ys, (heap, nxt, memo)) (EList <$> ls)
      = (ys ++ (EList <$> ls'), (heap', nxt', memo')) ∧
    Forall2 (λ li li', memo' !! li = Some li') ls ls' ∧
    Forall2 (λ li' row, heap' !! li' = Some (int_list row)) ls' rows ∧
    (∀ li', li' ∈ ls' → (lo ≤ li' < nxt')%positive) ∧
    (∀ k, (k < nxt)%positive → heap' !! k = heap !! k) ∧
    (∀ k, is_Some (heap' !! k) → is_Some (heap !! k) ∨ (nxt ≤ k < nxt')%positive) ∧
    (nxt ≤ nxt')%positive ∧
    (∀ x x' y, memo' !! x = Some y → memo' !! x' = Some y → x = x') ∧
    (∀ x y, memo !! x = Some y → memo' !! x = Some y).
Proof.
  induction ls as [|li ls IH]; intros rows ys heap nxt memo Hrows Hlo Hle H1 H2 H3.
  - apply Forall2_nil_inv_l in Hrows as ->.
    exists [], heap, nxt, memo. cbn. rewrite app_nil_r.
    split; [done|]. split; [constructor|]. split; [constructor|].
    split; [by intros ? ?%elem_of_nil|]. split; [done|]. split; [by left|].
    split; [lia|]. split; [exact H2|done].
  - apply Forall2_cons_inv_l in Hrows as (row & rows' & Hli & Hrows & ->).
    assert (Hlt : (li < lo)%positive) by (apply Hlo; by left).
    rewrite fmap_cons. cbn [foldl]. unfold copy_elem at 2. cbn [fst snd].
    destruct (memo !! li) as [li'|] eqn:Hm.
    + rewrite (deepcopy_memo fuel li li' heap nxt memo Hm).
      cbv beta iota zeta.
      destruct (H3 li li') as [Hlo' Hsame]; [by left|done|].
      destruct (IH rows' (ys ++ [EList li']) heap nxt memo)
        as (ls' & heap' & nxt' & memo' & Hfold & Hmemo & Hrows' & Hfresh & Hframe
            & Hdom & Hle' & Hinj & Hext); try done.
      { intros x Hx. apply Hlo. by right. }
      { intros x y Hx. apply H3. by right. }
      exists (li' :: ls'), heap', nxt', memo'.
      split; [etrans; [exact Hfold|]; by rewrite <-app_assoc|].
      split; [constructor; [by apply Hext|done]|].
      split; [constructor; [|done]|].
      { rewrite Hframe by (by eapply H1). by rewrite Hsame. }
      split; [|done].
      intros x [->|Hin%Hfresh]%elem_of_cons; [|done].
      split; [done|]. apply H1 in Hm. lia.
    + rewrite (deepcopy_int_list fuel li row heap nxt memo Hli Hm).
      cbv beta iota zeta.
      destruct (IH rows' (ys ++ [EList nxt]) (<[nxt := int_list row]> heap)
                  (Pos.succ nxt) (<[li := nxt]> memo))
        as (ls' & heap' & nxt' & memo' & Hfold & Hmemo & Hrows' & Hfresh & Hframe
            & Hdom & Hle' & Hinj & Hext).
      * apply Forall2_same_length_lookup_2; [by eapply Forall2_length|].
        intros n ln rown Hln Hrown.
        assert (ln < lo)%positive
          by (apply Hlo; right; by eapply list_elem_of_lookup_2).
        rewrite lookup_insert_ne by lia.
        exact (Forall2_lookup_lr _ ls rows' n ln rown Hrows Hln Hrown).
      * intros x Hx. apply Hlo. by right.
      * lia.
      * intros x y Hxy. destruct (decide (x = li)) as [->|Hne].
        -- rewrite lookup_insert_eq in Hxy. injection Hxy as <-. lia.
        -- rewrite lookup_insert_ne in Hxy by done. apply H1 in Hxy. lia.
      * intros x x' y Hx Hx'.
        destruct (decide (x = li)) as [->|Hne], (decide (x' = li)) as [->|Hne'];
          [done| | |].
        -- rewrite lookup_insert_eq in Hx. injection Hx as <-.
           rewrite lookup_insert_ne in Hx' by done. apply H1 in Hx'. lia.
        -- rewrite lookup_insert_eq in Hx'. injection Hx' as <-.
           rewrite lookup_insert_ne in Hx by done. apply H1 in Hx. lia.
        -- rewrite lookup_insert_ne in Hx, Hx' by done. by eapply H2.
      * intros x y Hx Hxy.
        assert (x < lo)%positive by (apply Hlo; by right).
        rewrite (lookup_insert_ne _ nxt x) by lia.
        destruct (decide (x = li)) as [->|Hne].
        -- rewrite lookup_insert_eq in Hxy. injection Hxy as <-.
           split; [done|]. by rewrite lookup_insert_eq.
        -- rewrite lookup_insert_ne in Hxy by done.
           destruct (H3 x y) as [Hlo' Hsame]; [by right|done|].
           split; [done|]. apply H1 in Hxy. rewrite lookup_insert_ne by lia. done.
      * exists (nxt :: ls'), heap', nxt', memo'.
        split; [etrans; [exact Hfold|]; by rewrite <-app_assoc|].
        split; [constructor; [apply Hext; by rewrite lookup_insert_eq|done]|].
        split; [constructor; [|done]|].
        { rewrite Hframe by lia. by rewrite lookup_insert_eq. }
        split; [|split; [|split; [|split; [lia|split; [done|]]]]].
        -- intros x [->|Hin%Hfresh]%elem_of_cons; lia.
        -- intros k Hk. rewrite Hframe by lia. rewrite lookup_insert_ne; [done|lia].
        -- intros k [Hk|Hk]%Hdom; [|right; lia].
           destruct (decide (k = nxt)) as [->|Hne]; [right; lia|].
           rewrite lookup_insert_ne in Hk by done. by left.
        -- intros x y Hxy. apply Hext. rewrite lookup_insert_ne; [done|].
           intros <-. by rewrite Hm in Hxy.
Qed.

Lemma nested_fresh_object (s : state) (l : loc) (ls : list loc)
    (rows : list (list Z)) (heap : gmap loc (list elem)) (nxt : loc) :
  nested s l ls rows →
  (∀ k, k ∈ l :: ls → heap !! k = lists s !! k) →
  nested (set_next nxt (set_lists heap s)) l ls rows.
Proof.
  intros (Hl & Hrows) Hsame. split; cbn.
  - rewrite Hsame; [done|by left].
  - apply Forall2_same_length_lookup_2; [by eapply Forall2_length|].
    intros n ln rown Hln Hrown.
    rewrite Hsame by (right; by eapply list_elem_of_lookup_2).
    exact (Forall2_lookup_lr _ ls rows n ln rown Hrows Hln Hrown).
Qed.

Lemma nested_allocated (s : state) (l : loc) (ls : list loc) (rows : list (list Z)) :
  allocated s → nested s l ls rows → ∀ k, k ∈ l :: ls → (k < next s)%positive.
Proof.
  intros (Hal & _) (Hl & Hrows) k [->|Hk]%elem_of_cons.
  - apply Hal. by eexists.
  - apply list_elem_of_lookup in Hk as [n Hn].
    destruct (Forall2_lookup_l _ _ _ _ _ Hrows Hn) as (row & _ & Hrow).
    apply Hal. by eexists.
Qed.

(** The shallow copy of a list of lists: a new list that holds the same
    inner lists. *)
Lemma shallow_copy_nested (s : state) (l : loc) (ls : list loc) (rows : list (list Z)) :
  allocated s → nested s l ls rows →
  ∃ s', shallow_copy (RList l) s = (s', [], inr (RList (next s))) ∧
    nested s' l ls rows ∧ nested s' (next s) ls rows ∧ allocated s' ∧ a s' = a s.
Proof.
  intros Hal Hn. pose proof (nested_allocated s l ls rows Hal Hn) as Hlt.
  exists (new_list (lists s !!! l) s).1.1. split; [reflexivity|].
  assert (Hne : ∀ k, k ∈ l :: ls → k ≠ next s) by (intros k Hk%Hlt; lia).
  split; [|split; [|split; [by apply allocated_new_list|done]]].
  - apply nested_fresh_object; [done|]. intros k Hk.
    rewrite lookup_insert_ne; [done|]. intros <-. by apply (Hne (next s)).
  - destruct Hn as (Hl & Hrows). split; cbn.
    + by rewrite lookup_insert_eq, lookup_total_alt, Hl.
    + apply Forall2_same_length_lookup_2; [by eapply Forall2_length|].
      intros n ln rown Hln Hrown.
      rewrite lookup_insert_ne
        by (intros <-; apply (Hne (next s)); [right; by eapply list_elem_of_lookup_2|done]).
      exact (Forall2_lookup_lr _ ls rows n ln rown Hrows Hln Hrown).
Qed.

(** [a = [[1, 2, 3, 4], [5, 6, 7, 8]]] builds three new lists. *)
Lemma assign_nested_shape (s : state) :
  allocated s →
  ∃ s', assign_nested s = (s', [], inr ()) ∧
    a s' = Some (RList (Pos.succ (Pos.succ (next s)))) ∧
    copy s' = copy s ∧
    nested s' (Pos.succ (Pos.succ (next s))) [next s; Pos.succ (next s)]
      [[1; 2; 3; 4]; [5; 6; 7; 8]] ∧
    allocated s'.
Proof.
  intros Hal. eexists. split; [reflexivity|]. split; [reflexivity|].
  split; [reflexivity|]. split.
  - split; cbn.
    + by rewrite lookup_insert_eq.
    + repeat constructor.
      * rewrite !lookup_insert_ne by lia. by rewrite lookup_insert_eq.
      * rewrite lookup_insert_ne by lia. by rewrite lookup_insert_eq.
  - apply (allocated_new_list _ [EList (next s); EList (Pos.succ (next s))]).
    apply (allocated_new_list _ (int_list [5; 6; 7; 8])).
    by apply (allocated_new_list _ (int_list [1; 2; 3; 4])).
Qed.

(** X19: a shallow copy of a list of lists shares the inner lists: for
    every list of rows of integers, where a row may be held more than once,
    and every item of a row, the item assigned through [copy.copy] of the
    list is assigned in the row that the list itself holds; the list and its
    copy display the same rows, changed wherever that row is held. Where the
    rows are different lists, this is the one row of the assignment. *)
Theorem shallow_copy_shares_rows (s : state) (l : loc) (ls : list loc)
    (rows : list (list Z)) (i j v : Z) (k m : nat) (lk : loc) (row : list Z) :
  allocated s → nested s l ls rows →
  norm_index (length rows) i = Some k → ls !! k = Some lk → rows !! k = Some row →
  norm_index (length row) j = Some m →
  let rows' := assigned ls lk (<[m := v]> row) rows in
  (∃ s',
     (y ← shallow_copy (RList l);
      setitem2 y i j v;;
      va ← render (RList l);
      vb ← render y;
      ret (va, vb))%kernel s
     = (s', [], inr (show_rows rows', show_rows rows')) ∧
     nested s' l ls rows') ∧
  rows' !! k = Some (<[m := v]> row) ∧
  (∀ n ln rown, ls !! n = Some ln → rows !! n = Some rown →
     rows' !! n = Some (if decide (ln = lk) then <[m := v]> row else rown)) ∧
  (NoDup ls → rows' = <[k := <[m := v]> row]> rows).
Proof.
  intros Hal Hn Hi Hlk Hk Hj rows'.
  assert (Hlen : length ls = length rows) by (destruct Hn; by eapply Forall2_length).
  split; [|split; [|split]].
  - destruct (shallow_copy_nested s l ls rows Hal Hn)
      as (s1 & Hcopy & Hn1 & Hn1' & _ & _).
    destruct (nested_setitem2 s1 (next s) ls rows i j v k m row Hn1' Hi Hk Hj)
      as (lk0 & Hlk0 & Hset).
    rewrite Hlk in Hlk0. injection Hlk0 as <-.
    assert (Hin : lk ∈ ls) by (by eapply list_elem_of_lookup_2).
    pose proof (nested_update s1 l ls rows lk (<[m := v]> row) Hn1 Hin) as Hn2.
    pose proof (nested_update s1 (next s) ls rows lk (<[m := v]> row) Hn1' Hin) as Hn2'.
    eexists. split; [|exact Hn2].
    rewrite (bind_run _ _ _ _ _ _ Hcopy), (bind_run _ _ _ _ _ _ Hset).
    rewrite (bind_run _ _ _ _ _ _ (nested_render _ _ _ _ Hn2)).
    rewrite (bind_run _ _ _ _ _ _ (nested_render _ _ _ _ Hn2')).
    reflexivity.
  - unfold rows'. rewrite (assigned_lookup _ _ _ _ _ _ _ Hlk Hk).
    by rewrite decide_True.
  - intros n ln rown Hln Hrown. by apply assigned_lookup.
  - intros Hnd. by apply assigned_NoDup.
Qed.

(** [a = [r, r]] for a list [r = [1, 2]]. *)
Lemma nested_twice :
  nested (new_list [EList 1%positive; EList 1%positive]
            (new_list (int_list [1; 2]) fresh).1.1).1.1
    2%positive [1%positive; 1%positive] [[1; 2]; [1; 2]].
Proof. split; [reflexivity|]. repeat constructor. Qed.

Lemma allocated_twice :
  allocated (new_list [EList 1%positive; EList 1%positive]
               (new_list (int_list [1; 2]) fresh).1.1).1.1.
Proof.
  apply (allocated_new_list _ [EList 1%positive; EList 1%positive]).
  apply (allocated_new_list _ (int_list [1; 2])). exact allocated_fresh.
Qed.

Lemma shallow_copy_shares_rows_witness :
  (allocated (assign_nested fresh).1.1 ∧
   nested (assign_nested fresh).1.1 3%positive [1%positive; 2%positive]
     [[1; 2; 3; 4]; [5; 6; 7; 8]] ∧
   ∃ s',
     (y ← shallow_copy (RList 3%positive);
      setitem2 y 0 2 71;;
      va ← render (RList 3%positive);
      vb ← render y;
      ret (va, vb))%kernel (assign_nested fresh).1.1
     = (s', [], inr (show_rows [[1; 2; 71; 4]; [5; 6; 7; 8]],
                     show_rows [[1; 2; 71; 4]; [5; 6; 7; 8]]))) ∧
  (∃ s',
     (y ← shallow_copy (RList 2%positive);
      setitem2 y 0 0 9;;
      va ← render (RList 2%positive);
      vb ← render y;
      ret (va, vb))%kernel
       (new_list [EList 1%positive; EList 1%positive]
          (new_list (int_list [1; 2]) fresh).1.1).1.1
     = (s', [], inr (show_rows [[9; 2]; [9; 2]], show_rows [[9; 2]; [9; 2]]))).
Proof.
  split.
  - destruct (assign_nested_shape fresh allocated_fresh)
      as (s0 & Hrun & _ & _ & Hn & Hal).
    rewrite Hrun. cbn [fst]. split; [exact Hal|]. split; [exact Hn|].
    destruct (shallow_copy_shares_rows s0 _ _ _ 0 2 71 0 2 1%positive [1; 2; 3; 4]
                Hal Hn eq_refl eq_refl eq_refl eq_refl) as ((s' & Hs' & _) & _).
    exists s'. exact Hs'.
  - destruct (shallow_copy_shares_rows _ _ _ _ 0 0 9 0 0 1%positive [1; 2]
                allocated_twice nested_twice eq_refl eq_refl eq_refl eq_refl)
      as ((s' & Hs' & _) & _).
    exists s'. exact Hs'.
Defined.

(** The deep copy of a list of lists: a new list of new inner lists with
    the same integers, one for each inner list; no object that existed is
    changed. *)
Lemma deep_copy_nested (s : state) (l : loc) (ls : list loc) (rows : list (list Z)) :
  allocated s → nested s l ls rows →
  ∃ s' ls' (memo : gmap loc loc),
    deep_copy (RList l) s = (s', [], inr (RList (next s))) ∧
    nested s' l ls rows ∧ nested s' (next s) ls' rows ∧
    (∀ k, k ∈ ls' → k ∉ l :: ls) ∧ allocated s' ∧ a s' = a s ∧
    Forall2 (λ li li', memo !! li = Some li') ls ls' ∧
    (∀ x x' y, memo !! x = Some y → memo !! x' = Some y → x = x').
Proof.
  intros Hal Hn. pose proof (nested_allocated s l ls rows Hal Hn) as Hlt.
  pose proof (nested_not_in s l ls rows Hn) as Hnotin.
  destruct Hn as (Hl & Hrows).
  destruct (size (lists s)) as [|fuel] eqn:Esize.
  { apply map_size_empty_inv in Esize. rewrite Esize in Hl. done. }
  destruct (deepcopy_rows fuel (Pos.succ (next s)) ls rows []
              (<[next s := []]> (lists s)) (Pos.succ (next s)) (<[l := next s]> ∅))
    as (ls' & heap' & nxt' & memo' & Hfold & Hmemo & Hrows' & Hfresh & Hframe
        & Hdom & Hle & Hinj & _).
  { apply Forall2_same_length_lookup_2; [by eapply Forall2_length|].
    intros n ln rown Hln Hrown.
    rewrite lookup_insert_ne.
    - exact (Forall2_lookup_lr _ ls rows n ln rown Hrows Hln Hrown).
    - intros <-. assert (next s < next s)%positive; [|lia].
      apply Hlt. right. by eapply list_elem_of_lookup_2. }
  { intros li Hli. assert (li < next s)%positive by (apply Hlt; by right). lia. }
  { lia. }
  { intros x y Hxy. apply lookup_insert_Some in Hxy as [[_ <-]|[_ Hxy]]; [lia|].
    by rewrite lookup_empty in Hxy. }
  { intros x x' y Hx Hx'.
    apply lookup_insert_Some in Hx as [[<- _]|[_ Hx]];
      [|by rewrite lookup_empty in Hx].
    apply lookup_insert_Some in Hx' as [[<- _]|[_ Hx']];
      [done|by rewrite lookup_empty in Hx']. }
  { intros x y Hx Hxy.
    apply lookup_insert_Some in Hxy as [[<- _]|[_ Hxy]];
      [done|by rewrite lookup_empty in Hxy]. }
  exists (set_next nxt' (set_lists (<[next s := EList <$> ls']> heap') s)), ls', memo'.
  assert (Hold : ∀ k, (k < next s)%positive →
            <[next s := EList <$> ls']> heap' !! k = lists s !! k).
  { intros k Hk. rewrite lookup_insert_ne by lia. rewrite Hframe by lia.
    rewrite lookup_insert_ne by lia. done. }
  split; [|split; [|split; [|split; [|split; [|split; [done|done]]]]]].
  - unfold deep_copy. rewrite Esize, deepcopy_list_S, lookup_empty.
    rewrite lookup_total_alt, Hl. cbn [default from_option id].
    etrans; [|reflexivity].
    replace (foldl (copy_elem (S fuel))
               ([], (<[next s := []]> (lists s), Pos.succ (next s), <[l := next s]> ∅))
               (EList <$> ls))
      with ([] ++ (EList <$> ls'), (heap', nxt', memo')) by (symmetry; exact Hfold).
    reflexivity.
  - apply nested_fresh_object; [by split|].
    intros k Hk. apply Hold. by apply Hlt.
  - split; cbn.
    + by rewrite lookup_insert_eq.
    + apply Forall2_same_length_lookup_2; [by eapply Forall2_length|].
      intros n ln rown Hln Hrown.
      rewrite lookup_insert_ne.
      * exact (Forall2_lookup_lr _ ls' rows n ln rown Hrows' Hln Hrown).
      * intros <-. assert (Pos.succ (next s) ≤ next s)%positive; [|lia].
        apply Hfresh. by eapply list_elem_of_lookup_2.
  - intros k Hk%Hfresh Hin. assert (k < next s)%positive; [|lia].
    by apply Hlt.
  - destruct Hal as (Hal & Har & Hfr). repeat split; cbn.
    + intros k Hk. destruct (decide (k = next s)) as [->|Hne]; [lia|].
      rewrite lookup_insert_ne in Hk by done.
      apply Hdom in Hk as [Hk|Hk]; [|lia].
      destruct (decide (k = next s)) as [->|Hne']; [lia|].
      rewrite lookup_insert_ne in Hk by done. apply Hal in Hk. lia.
    + intros k Hk%Har. lia.
    + intros k Hk%Hfr. lia.
Qed.

(** The copies of the rows are the same list where the rows are. *)
Lemma assigned_copy (memo : gmap loc loc) (ls ls' : list loc) (k : nat)
    (lk lk' : loc) (row' : list Z) (rows : list (list Z)) :
  Forall2 (λ li li', memo !! li = Some li') ls ls' →
  (∀ x x' y, memo !! x = Some y → memo !! x' = Some y → x = x') →
  ls !! k = Some lk → ls' !! k = Some lk' →
  assigned ls' lk' row' rows = assigned ls lk row' rows.
Proof.
  intros Hmemo Hinj Hlk Hlk'.
  pose proof (Forall2_lookup_lr _ _ _ _ _ _ Hmemo Hlk Hlk') as Hk.
  apply list_eq. intros n. unfold assigned. rewrite !lookup_zip_with.
  destruct (ls !! n) as [ln|] eqn:Hln.
  - destruct (Forall2_lookup_l _ _ _ _ _ Hmemo Hln) as (ln' & -> & Hn).
    cbn. destruct (rows !! n) as [rown|]; [cbn|done].
    destruct (decide (ln' = lk')) as [->|Hne'], (decide (ln = lk)) as [->|Hne];
      [done| |congruence|done].
    exfalso. apply Hne. by eapply Hinj.
  - rewrite (proj2 (lookup_ge_None ls' n)); [done|].
    rewrite <-(Forall2_length _ _ _ Hmemo). by apply lookup_ge_None.
Qed.

(** X20: a deep copy of a list of lists shares nothing with it: for every
    list of rows of integers, where a row may be held more than once, and
    every item of a row, the item assigned through [copy.deepcopy] of the
    list shows in the copy, wherever the copy holds the copy of that row,
    and the list itself holds and displays the rows it held before. Where
    the rows are different lists, the copy shows the one row of the
    assignment changed. *)
Theorem deep_copy_is_independent (s : state) (l : loc) (ls : list loc)
    (rows : list (list Z)) (i j v : Z) (k m : nat) (lk : loc) (row : list Z) :
  allocated s → nested s l ls rows →
  norm_index (length rows) i = Some k → ls !! k = Some lk → rows !! k = Some row →
  norm_index (length row) j = Some m →
  let rows' := assigned ls lk (<[m := v]> row) rows in
  (∃ s',
     (y ← deep_copy (RList l);
      setitem2 y i j v;;
      va ← render (RList l);
      vb ← render y;
      ret (va, vb))%kernel s
     = (s', [], inr (show_rows rows, show_rows rows')) ∧
     nested s' l ls rows) ∧
  rows' !! k = Some (<[m := v]> row) ∧
  (∀ n ln rown, ls !! n = Some ln → rows !! n = Some rown →
     rows' !! n = Some (if decide (ln = lk) then <[m := v]> row else rown)) ∧
  (NoDup ls → rows' = <[k := <[m := v]> row]> rows).
Proof.
  intros Hal Hn Hi Hlk Hk Hj rows'.
  assert (Hlen : length ls = length rows) by (destruct Hn; by eapply Forall2_length).
  split; [|split; [|split]].
  - destruct (deep_copy_nested s l ls rows Hal Hn)
      as (s1 & ls' & memo & Hcopy & Hn1 & Hn1' & Hdisj & _ & _ & Hmemo & Hinj).
    destruct (nested_setitem2 s1 (next s) ls' rows i j v k m row Hn1' Hi Hk Hj)
      as (lk' & Hlk' & Hset).
    assert (Hin' : lk' ∈ ls') by (by eapply list_elem_of_lookup_2).
    pose proof (nested_update s1 (next s) ls' rows lk' (<[m := v]> row) Hn1' Hin')
      as Hn2'.
    rewrite (assigned_copy memo ls ls' k lk lk' _ _ Hmemo Hinj Hlk Hlk') in Hn2'.
    assert (Hn2 : nested (set_lists (<[lk' := int_list (<[m := v]> row)]> (lists s1)) s1)
                    l ls rows).
    { replace (set_lists (<[lk' := int_list (<[m := v]> row)]> (lists s1)) s1)
        with (set_next (next s1)
                (set_lists (<[lk' := int_list (<[m := v]> row)]> (lists s1)) s1))
        by (by destruct s1).
      apply nested_fresh_object; [done|].
      intros k' Hk'. rewrite lookup_insert_ne; [done|]. intros <-.
      by apply (Hdisj lk'). }
    eexists. split; [|exact Hn2].
    rewrite (bind_run _ _ _ _ _ _ Hcopy), (bind_run _ _ _ _ _ _ Hset).
    rewrite (bind_run _ _ _ _ _ _ (nested_render _ _ _ _ Hn2)).
    rewrite (bind_run _ _ _ _ _ _ (nested_render _ _ _ _ Hn2')).
    reflexivity.
  - unfold rows'. rewrite (assigned_lookup _ _ _ _ _ _ _ Hlk Hk).
    by rewrite decide_True.
  - intros n ln rown Hln Hrown. by apply assigned_lookup.
  - intros Hnd. by apply assigned_NoDup.
Qed.

Lemma deep_copy_is_independent_witness :
  (allocated (assign_nested fresh).1.1 ∧
   nested (assign_nested fresh).1.1 3%positive [1%positive; 2%positive]
     [[1; 2; 3; 4]; [5; 6; 7; 8]] ∧
   ∃ s',
     (y ← deep_copy (RList 3%positive);
      setitem2 y 0 2 71;;
      va ← render (RList 3%positive);
      vb ← render y;
      ret (va, vb))%kernel (assign_nested fresh).1.1
     = (s', [], inr (show_rows [[1; 2; 3; 4]; [5; 6; 7; 8]],
                     show_rows [[1; 2; 71; 4]; [5; 6; 7; 8]]))) ∧
  (∃ s',
     (y ← deep_copy (RList 2%positive);
      setitem2 y 0 0 9;;
      va ← render (RList 2%positive);
      vb ← render y;
      ret (va, vb))%kernel
       (new_list [EList 1%positive; EList 1%positive]
          (new_list (int_list [1; 2]) fresh).1.1).1.1
     = (s', [], inr (show_rows [[1; 2]; [1; 2]], show_rows [[9; 2]; [9; 2]]))).
Proof.
  split.
  - destruct (assign_nested_shape fresh allocated_fresh)
      as (s0 & Hrun & _ & _ & Hn & Hal).
    rewrite Hrun. cbn [fst]. split; [exact Hal|]. split; [exact Hn|].
    destruct (deep_copy_is_independent s0 _ _ _ 0 2 71 0 2 1%positive [1; 2; 3; 4]
                Hal Hn eq_refl eq_refl eq_refl eq_refl) as ((s' & Hs' & _) & _).
    exists s'. exact Hs'.
  - destruct (deep_copy_is_independent _ _ _ _ 0 0 9 0 0 1%positive [1; 2]
                allocated_twice nested_twice eq_refl eq_refl eq_refl eq_refl)
      as ((s' & Hs' & _) & _).
    exists s'. exact Hs'.
Defined.

(** X21: the two cells on the list of lists, in every kernel state whose
    objects were allocated: with [copy.copy] the cell displays in [a] the
    change made through [b], with [copy.deepcopy] it displays [a] as it was
    assigned; both raise the name error where the module [copy], which an
    earlier cell imports, is unbound. *)
Theorem nested_cells_outcome (s : state) :
  allocated s →
  (copy s = Some () →
     (run_cell cell_nested_copy s).2
       = quiet (Some (show_rows [[1; 2; 71; 4]; [5; 6; 7; 8]])) ∧
     (run_cell cell_nested_deepcopy s).2
       = quiet (Some (show_rows [[1; 2; 3; 4]; [5; 6; 7; 8]]))) ∧
  (copy s = None →
     (run_cell cell_nested_copy s).2 = Outcome [] None (Some (NameError "copy")) ∧
     (run_cell cell_nested_deepcopy s).2 = Outcome [] None (Some (NameError "copy"))).
Proof.
  intros Hal.
  destruct (assign_nested_shape s Hal) as (s0 & Hassign & Ha & Hcopy & Hn & Hal0).
  split.
  - intros Hc. rewrite <-Hcopy in Hc. split.
    + destruct (shallow_copy_nested s0 _ _ _ Hal0 Hn)
        as (s1 & Hsc & Hn1 & Hn1' & _ & Ha1).
      destruct (nested_setitem2 (set_b (Some (RList (next s0))) s1) (next s0) _ _
                  0 2 71 0 2 [1; 2; 3; 4] Hn1' eq_refl eq_refl eq_refl)
        as (lk & Hlk & Hset).
      injection Hlk as <-.
      pose proof (nested_update (set_b (Some (RList (next s0))) s1) _ _ _ (next s)
                    (<[2%nat := 71]> [1; 2; 3; 4]) Hn1 ltac:(by left)) as Hn2.
      replace (assigned [next s; Pos.succ (next s)] (next s)
                 (<[2%nat := 71]> [1; 2; 3; 4]) [[1; 2; 3; 4]; [5; 6; 7; 8]])
        with [[1; 2; 71; 4]; [5; 6; 7; 8]] in Hn2
        by (unfold assigned; cbn; rewrite decide_True by done;
            rewrite decide_False by lia; done).
      unfold run_cell, cell_nested_copy.
      rewrite (bind_run _ _ _ _ _ _ Hassign).
      rewrite (bind_read_bound _ _ _ _ () Hc).
      rewrite (bind_read_bound _ _ _ _ _ Ha).
      rewrite (bind_run _ _ _ _ _ _ Hsc).
      rewrite bind_modify.
      rewrite (bind_read_bound _ _ _ _ (RList (next s0))) by reflexivity.
      rewrite (bind_run _ _ _ _ _ _ Hset).
      rewrite (bind_read_bound _ _ _ _ (RList (Pos.succ (Pos.succ (next s)))))
        by (cbn; by rewrite Ha1).
      rewrite (bind_run _ _ _ _ _ _ (nested_render _ _ _ _ Hn2)).
      reflexivity.
    + destruct (deep_copy_nested s0 _ _ _ Hal0 Hn)
        as (s1 & ls' & memo & Hdc & Hn1 & Hn1' & Hdisj & _ & Ha1 & _).
      destruct (nested_setitem2 (set_b (Some (RList (next s0))) s1) (next s0) _ _
                  0 2 71 0 2 [1; 2; 3; 4] Hn1' eq_refl eq_refl eq_refl)
        as (lk & Hlk & Hset).
      assert (Hn2 : nested (set_lists (<[lk := int_list (<[2%nat := 71]> [1; 2; 3; 4])]>
                                         (lists s1)) (set_b (Some (RList (next s0))) s1))
                      (Pos.succ (Pos.succ (next s))) [next s; Pos.succ (next s)]
                      [[1; 2; 3; 4]; [5; 6; 7; 8]]).
      { destruct Hn1 as (Hl1 & Hrows1). split; cbn.
        - rewrite lookup_insert_ne; [done|]. intros Heq.
          apply (Hdisj lk); [by eapply list_elem_of_lookup_2|].
          rewrite Heq. by left.
        - apply Forall2_same_length_lookup_2; [by eapply Forall2_length|].
          intros n ln rown Hln Hrown. rewrite lookup_insert_ne.
          + exact (Forall2_lookup_lr _ _ _ n ln rown Hrows1 Hln Hrown).
          + intros Heq. apply (Hdisj lk); [by eapply list_elem_of_lookup_2|].
            right. rewrite Heq. by eapply list_elem_of_lookup_2. }
      unfold run_cell, cell_nested_deepcopy.
      rewrite (bind_run _ _ _ _ _ _ Hassign).
      rewrite (bind_read_bound _ _ _ _ () Hc).
      rewrite (bind_read_bound _ _ _ _ _ Ha).
      rewrite (bind_run _ _ _ _ _ _ Hdc).
      rewrite bind_modify.
      rewrite (bind_read_bound _ _ _ _ (RList (next s0))) by reflexivity.
      rewrite (bind_run _ _ _ _ _ _ Hset).
      rewrite (bind_read_bound _ _ _ _ (RList (Pos.succ (Pos.succ (next s)))))
        by (cbn; by rewrite Ha1).
      rewrite (bind_run _ _ _ _ _ _ (nested_render _ _ _ _ Hn2)).
      reflexivity.
  - intros Hc. rewrite <-Hcopy in Hc. split.
    + unfold run_cell, cell_nested_copy.
      rewrite (bind_run _ _ _ _ _ _ Hassign).
      by rewrite (bind_read_unbound _ _ _ _ Hc).
    + unfold run_cell, cell_nested_deepcopy.
      rewrite (bind_run _ _ _ _ _ _ Hassign).
      by rewrite (bind_read_unbound _ _ _ _ Hc).
Qed.

Lemma nested_cells_outcome_witness :
  allocated (set_copy (Some ()) fresh) ∧
  copy (set_copy (Some ()) fresh) = Some () ∧
  (run_cell cell_nested_copy (set_copy (Some ()) fresh)).2
    = quiet (Some (show_rows [[1; 2; 71; 4]; [5; 6; 7; 8]])) ∧
  (run_cell cell_nested_deepcopy (set_copy (Some ()) fresh)).2
    = quiet (Some (show_rows [[1; 2; 3; 4]; [5; 6; 7; 8]])).
Proof.
  assert (Hal : allocated (set_copy (Some ()) fresh)) by exact allocated_fresh.
  split; [exact Hal|]. split; [reflexivity|].
  exact (proj1 (nested_cells_outcome _ Hal) eq_refl).
Defined.

End NestedFacts.

(** ** The invariant of the kernel state *)

Module InvariantFacts.
Import Kernel Copies Heap Invariant Steps HeapFacts NestedFacts.

Lemma copy_elems_frame (fuel : nat)
    (IH : ∀ l heap nxt memo,
       (∀ k, is_Some (heap !! k) → (k < nxt)%positive) →
       ∃ l' heap' nxt' memo',
         deepcopy_list fuel l (heap, nxt, memo) = (l', (heap', nxt', memo')) ∧
         (nxt ≤ nxt')%positive ∧
         (∀ k, is_Some (heap' !! k) → (k < nxt')%positive) ∧
         (∀ k, (k < nxt)%positive → heap' !! k = heap !! k))
    (xs : list elem) :
  ∀ ys heap nxt memo,
    (∀ k, is_Some (heap !! k) → (k < nxt)%positive) →
    ∃ ys' heap' nxt' memo',
      foldl (copy_elem fuel) (ys, (heap, nxt, memo)) xs = (ys', (heap', nxt', memo')) ∧
      (nxt ≤ nxt')%positive ∧
      (∀ k, is_Some (heap' !! k) → (k < nxt')%positive) ∧
      (∀ k, (k < nxt)%positive → heap' !! k = heap !! k).
Proof.
  induction xs as [|e xs IHxs]; intros ys heap nxt memo Hb.
  - exists ys, heap, nxt, memo. repeat split; (done || lia).
  - cbn [foldl]. destruct e as [n|l0].
    + cbn [copy_elem fst snd]. apply IHxs, Hb.
    + unfold copy_elem at 2. cbn [fst snd].
      destruct (IH l0 heap nxt memo Hb) as (l' & heap1 & nxt1 & memo1 & -> & Hle & Hb1 & Hf1).
      cbv beta iota zeta.
      destruct (IHxs (ys ++ [EList l']) heap1 nxt1 memo1 Hb1)
        as (ys' & heap' & nxt' & memo' & Hfold & Hle' & Hb' & Hf').
      exists ys', heap', nxt', memo'. split; [exact Hfold|].
      split; [lia|]. split; [done|].
      intros k Hk. rewrite Hf' by lia. by apply Hf1.
Qed.

(** [copy.deepcopy] of a list, whatever the lists hold: the references it
    allocates are new, and no list that existed is changed. *)
Lemma deepcopy_list_frame (fuel : nat) :
  ∀ l heap nxt memo,
    (∀ k, is_Some (heap !! k) → (k < nxt)%positive) →
    ∃ l' heap' nxt' memo',
      deepcopy_list fuel l (heap, nxt, memo) = (l', (heap', nxt', memo')) ∧
      (nxt ≤ nxt')%positive ∧
      (∀ k, is_Some (heap' !! k) → (k < nxt')%positive) ∧
      (∀ k, (k < nxt)%positive → heap' !! k = heap !! k).
Proof.
  induction fuel as [|fuel IH]; intros l heap nxt memo Hb.
  - cbn. destruct (memo !! l) as [l'|].
    + exists l', heap, nxt, memo. repeat split; (done || lia).
    + exists l, heap, nxt, memo. repeat split; (done || lia).
  - rewrite deepcopy_list_S. destruct (memo !! l) as [l'|].
    + exists l', heap, nxt, memo. repeat split; (done || lia).
    + destruct (copy_elems_frame fuel IH (heap !!! l) [] (<[nxt := []]> heap)
                  (Pos.succ nxt) (<[l := nxt]> memo))
        as (ys' & heap' & nxt' & memo' & Hfold & Hle' & Hb' & Hf').
      { intros k Hk. destruct (decide (k = nxt)) as [->|Hne]; [lia|].
        rewrite lookup_insert_ne in Hk by done. apply Hb in Hk. lia. }
      exists nxt, (<[nxt := ys']> heap'), nxt', memo'.
      split; [|split; [lia|split]].
      * etrans; [|reflexivity].
        replace (foldl (copy_elem fuel)
                   ([], (<[nxt := []]> heap, Pos.succ nxt, <[l := nxt]> memo)) (heap !!! l))
          with (ys', (heap', nxt', memo')) by (symmetry; exact Hfold).
        reflexivity.
      * intros k Hk. destruct (decide (k = nxt)) as [->|Hne]; [lia|].
        rewrite lookup_insert_ne in Hk by done. by apply Hb'.
      * intros k Hk. rewrite lookup_insert_ne by lia. rewrite Hf' by lia.
        rewrite lookup_insert_ne by lia. done.
Qed.

Lemma deep_copy_run (s : state) (l : loc) :
  allocated s →
  ∃ s', deep_copy (RList l) s = (s', [], inr (RList (next s))) ∧
    allocated s' ∧
    (∀ k, (k < next s)%positive → lists s' !! k = lists s !! k) ∧
    is_Some (lists s' !! next s) ∧
    arrays s' = arrays s ∧ frames s' = frames s ∧
    a s' = a s ∧ b s' = b s ∧ df s' = df s ∧ df_copy s' = df_copy s.
Proof.
  intros (Hl & Ha & Hf).
  destruct (copy_elems_frame (size (lists s)) (deepcopy_list_frame (size (lists s)))
              (lists s !!! l) [] (<[next s := []]> (lists s))
              (Pos.succ (next s)) (<[l := next s]> ∅))
    as (ys' & heap' & nxt' & memo' & Hfold & Hle' & Hb' & Hf').
  { intros k Hk. destruct (decide (k = next s)) as [->|Hne]; [lia|].
    rewrite lookup_insert_ne in Hk by done. apply Hl in Hk. lia. }
  exists (set_next nxt' (set_lists (<[next s := ys']> heap') s)).
  split; [|split; [|split; [|split; [|done]]]].
  - unfold deep_copy. rewrite deepcopy_list_S, lookup_empty.
    etrans; [|reflexivity].
    replace (foldl (copy_elem (size (lists s)))
               ([], (<[next s := []]> (lists s), Pos.succ (next s), <[l := next s]> ∅))
               (lists s !!! l))
      with (ys', (heap', nxt', memo')) by (symmetry; exact Hfold).
    reflexivity.
  - repeat split; cbn.
    + intros k Hk. destruct (decide (k = next s)) as [->|Hne]; [lia|].
      rewrite lookup_insert_ne in Hk by done. by apply Hb'.
    + intros k Hk%Ha. lia.
    + intros k Hk%Hf. lia.
  - intros k Hk. cbn. rewrite lookup_insert_ne by lia. rewrite Hf' by lia.
    rewrite lookup_insert_ne by lia. done.
  - cbn. rewrite lookup_insert_eq. by eexists.
Qed.

(** The copies that [memo] holds stay at or above [lo] when the next free
    reference is. *)
Lemma copy_elems_memo (fuel : nat) (lo : loc)
    (IH : ∀ l heap (nxt : loc) memo,
       (lo ≤ nxt)%positive →
       (∀ x y, memo !! x = Some y → (lo ≤ y)%positive) →
       ∃ l' heap' nxt' memo',
         deepcopy_list fuel l (heap, nxt, memo) = (l', (heap', nxt', memo')) ∧
         (nxt ≤ nxt')%positive ∧
         (∀ x y, memo' !! x = Some y → (lo ≤ y)%positive))
    (xs : list elem) :
  ∀ ys heap (nxt : loc) memo,
    (lo ≤ nxt)%positive →
    (∀ x y, memo !! x = Some y → (lo ≤ y)%positive) →
    ∃ ys' heap' nxt' memo',
      foldl (copy_elem fuel) (ys, (heap, nxt, memo)) xs = (ys', (heap', nxt', memo')) ∧
      (nxt ≤ nxt')%positive ∧
      (∀ x y, memo' !! x = Some y → (lo ≤ y)%positive).
Proof.
  induction xs as [|e xs IHxs]; intros ys heap nxt memo Hle Hm.
  - exists ys, heap, nxt, memo. repeat split; (done || lia).
  - cbn [foldl]. destruct e as [n|l0].
    + cbn [copy_elem fst snd]. by apply IHxs.
    + unfold copy_elem at 2. cbn [fst snd].
      destruct (IH l0 heap nxt memo Hle Hm) as (l' & heap1 & nxt1 & memo1 & -> & Hle1 & Hm1).
      cbv beta iota zeta.
      destruct (IHxs (ys ++ [EList l']) heap1 nxt1 memo1)
        as (ys' & heap' & nxt' & memo' & Hfold & Hle' & Hm'); [lia|done|].
      exists ys', heap', nxt', memo'. split; [exact Hfold|]. split; [lia|done].
Qed.

Lemma deepcopy_list_memo (fuel : nat) (lo : loc) :
  ∀ l heap (nxt : loc) memo,
    (lo ≤ nxt)%positive →
    (∀ x y, memo !! x = Some y → (lo ≤ y)%positive) →
    ∃ l' heap' nxt' memo',
      deepcopy_list fuel l (heap, nxt, memo) = (l', (heap', nxt', memo')) ∧
      (nxt ≤ nxt')%positive ∧
      (∀ x y, memo' !! x = Some y → (lo ≤ y)%positive).
Proof.
  induction fuel as [|fuel IH]; intros l heap nxt memo Hle Hm.
  - cbn. destruct (memo !! l) as [l'|].
    + exists l', heap, nxt, memo. repeat split; (done || lia).
    + exists l, heap, nxt, memo. repeat split; (done || lia).
  - rewrite deepcopy_list_S. destruct (memo !! l) as [l'|] eqn:E.
    + exists l', heap, nxt, memo. repeat split; (done || lia).
    + destruct (copy_elems_memo fuel lo IH (heap !!! l) [] (<[nxt := []]> heap)
                  (Pos.succ nxt) (<[l := nxt]> memo))
        as (ys' & heap' & nxt' & memo' & Hfold & Hle' & Hm'); [lia| |].
      { intros x y [[_ <-]|[_ Hxy]]%lookup_insert_Some; [done|by eapply Hm]. }
      exists nxt, (<[nxt := ys']> heap'), nxt', memo'.
      split; [|split; [lia|done]].
      etrans; [|reflexivity].
      replace (foldl (copy_elem fuel)
                 ([], (<[nxt := []]> heap, Pos.succ nxt, <[l := nxt]> memo)) (heap !!! l))
        with (ys', (heap', nxt', memo')) by (symmetry; exact Hfold).
      reflexivity.
Qed.

(** The copy of a list that is an element is a list at or above [lo]: one
    made before, or a new one. *)
Lemma deepcopy_list_above (fuel : nat) (lo l : loc) (heap : gmap loc (list elem))
    (nxt : loc) (memo : gmap loc loc) :
  (lo ≤ nxt)%positive →
  (∀ x y, memo !! x = Some y → (lo ≤ y)%positive) →
  (lo ≤ (deepcopy_list (S fuel) l (heap, nxt, memo)).1)%positive.
Proof.
  intros Hle Hm. rewrite deepcopy_list_S. destruct (memo !! l) as [l'|] eqn:E.
  - cbn. by eapply Hm.
  - by destruct (foldl _ _ _) as [ys [[heap' nxt'] memo']].
Qed.

(** The elements of a deep copy: the integers of the list, and for a list
    its copy. *)
Lemma copy_elems_shape (fuel : nat) (lo : loc) (xs : list elem) :
  ∀ ys heap (nxt : loc) memo,
    (lo ≤ nxt)%positive →
    (∀ x y, memo !! x = Some y → (lo ≤ y)%positive) →
    ∃ zs h',
      foldl (copy_elem (S fuel)) (ys, (heap, nxt, memo)) xs = (ys ++ zs, h') ∧
      Forall2 (λ e e', match e with
                       | EInt n => e' = EInt n
                       | EList _ => ∃ l', e' = EList l' ∧ (lo ≤ l')%positive
                       end) xs zs.
Proof.
  induction xs as [|e xs IHxs]; intros ys heap nxt memo Hle Hm.
  - exists [], (heap, nxt, memo). cbn. rewrite app_nil_r. by split.
  - cbn [foldl]. destruct e as [n|l0].
    + cbn [copy_elem fst snd].
      destruct (IHxs (ys ++ [EInt n]) heap nxt memo Hle Hm) as (zs & h' & Hfold & Hzs).
      exists (EInt n :: zs), h'.
      split; [etrans; [exact Hfold|]; by rewrite <-app_assoc|].
      by constructor.
    + unfold copy_elem at 2. cbn [fst snd].
      pose proof (deepcopy_list_above fuel lo l0 heap nxt memo Hle Hm) as Habove.
      destruct (deepcopy_list_memo (S fuel) lo l0 heap nxt memo Hle Hm)
        as (l' & heap1 & nxt1 & memo1 & Hcopy & Hle1 & Hm1).
      rewrite Hcopy in Habove |- *. cbn [fst] in Habove. cbv beta iota zeta.
      destruct (IHxs (ys ++ [EList l']) heap1 nxt1 memo1) as (zs & h' & Hfold & Hzs);
        [lia|done|].
      exists (EList l' :: zs), h'.
      split; [etrans; [exact Hfold|]; by rewrite <-app_assoc|].
      constructor; [by exists l'|done].
Qed.

Lemma deep_copy_elems (s : state) (l : loc) :
  ∃ zs, lists (deep_copy (RList l) s).1.1 !! next s = Some zs ∧
    Forall2 (λ e e', match e with
                     | EInt n => e' = EInt n
                     | EList _ => ∃ l', e' = EList l' ∧ (next s ≤ l')%positive
                     end) (lists s !!! l) zs.
Proof.
  unfold deep_copy. rewrite deepcopy_list_S, lookup_empty.
  destruct (size (lists s)) as [|fuel] eqn:Esize.
  - apply map_size_empty_inv in Esize. rewrite Esize.
    rewrite lookup_total_empty. cbn. rewrite lookup_insert_eq.
    exists []. by split.
  - destruct (copy_elems_shape fuel (next s) (lists s !!! l) []
                (<[next s := []]> (lists s)) (Pos.succ (next s)) (<[l := next s]> ∅))
      as (zs & [[heap' nxt'] memo'] & Hfold & Hzs); [lia| |].
    { intros x y [[_ <-]|[_ Hxy]]%lookup_insert_Some; [done|].
      by rewrite lookup_empty in Hxy. }
    exists zs. split; [|done].
    replace (foldl (copy_elem (S fuel))
               ([], (<[next s := []]> (lists s), Pos.succ (next s), <[l := next s]> ∅))
               (lists s !!! l))
      with (zs, (heap', nxt', memo')) by (symmetry; exact Hfold).
    cbn. by rewrite lookup_insert_eq.
Qed.

(** X22: [copy.deepcopy] of a list in a kernel that holds at most 100
    lists, whatever these hold (a list may hold itself). The copy descends
    one level for each list that it has not met, so the bound keeps it
    within the recursion limit of the interpreter, which the kernel state
    does not have. It does not raise and prints nothing, the copy is a new
    object at the next free reference, the objects stay below the next free
    reference, and no list, array or frame that existed is changed. The
    copy holds the integers of the list at their positions, and in the
    place of a list a list that did not exist before. *)
Theorem deep_copy_frame (s : state) (l : loc) :
  allocated s → (size (lists s) ≤ 100)%nat →
  (deep_copy (RList l) s).2 = inr (RList (next s)) ∧
  (deep_copy (RList l) s).1.2 = [] ∧
  let s' := (deep_copy (RList l) s).1.1 in
  allocated s' ∧
  (∀ k, is_Some (lists s !! k) → lists s' !! k = lists s !! k) ∧
  is_Some (lists s' !! next s) ∧ lists s !! next s = None ∧
  arrays s' = arrays s ∧ frames s' = frames s ∧
  ∃ zs, lists s' !! next s = Some zs ∧
    Forall2 (λ e e', match e with
                     | EInt n => e' = EInt n
                     | EList _ => ∃ l', e' = EList l' ∧ lists s !! l' = None
                     end) (lists s !!! l) zs.
Proof.
  intros Hal _. destruct (deep_copy_elems s l) as (zs & Hzs & Hshape).
  destruct (deep_copy_run s l Hal)
    as (s' & Heq & Hal' & Hold & Hnew & Harr & Hfr & _).
  rewrite Heq in Hzs |- *.
  cbn [fst snd] in Hzs |- *. split; [done|]. split; [done|]. split; [done|].
  assert (Hfree : ∀ k, (next s ≤ k)%positive → lists s !! k = None).
  { intros k Hk. destruct (lists s !! k) eqn:E; [|done].
    destruct Hal as (Hl & _). assert (k < next s)%positive; [|lia].
    apply Hl. by eexists. }
  split; [|split; [done|split; [|split; [done|split; [done|]]]]].
  - intros k Hk. apply Hold. by apply (proj1 Hal).
  - apply Hfree. lia.
  - exists zs. split; [done|].
    eapply Forall2_impl; [exact Hshape|].
    intros [n|l0] e'; [done|]. intros (l' & -> & Hl'). exists l'. split; [done|].
    by apply Hfree.
Qed.

Lemma allocated_cyclic : allocated cyclic.
Proof.
  repeat split; intros l [x Hl]; unfold cyclic in Hl; cbn [lists arrays frames] in Hl.
  - apply lookup_singleton_Some in Hl as [<- _]. done.
  - by rewrite lookup_empty in Hl.
  - by rewrite lookup_empty in Hl.
Qed.

Lemma deep_copy_frame_witness :
  allocated cyclic ∧ (size (lists cyclic) ≤ 100)%nat ∧
  is_Some (lists cyclic !! 1%positive) ∧
  (deep_copy (RList 1%positive) cyclic).2 = inr (RList 2%positive) ∧
  lists (deep_copy (RList 1%positive) cyclic).1.1 !! 1%positive
    = Some [EList 1%positive] ∧
  lists (deep_copy (RList 1%positive) cyclic).1.1 !! 2%positive
    = Some [EList 2%positive].
Proof.
  assert (Hl : is_Some (lists cyclic !! 1%positive)) by (eexists; reflexivity).
  assert (Hsz : (size (lists cyclic) ≤ 100)%nat).
  { unfold cyclic. cbn [lists]. rewrite map_size_singleton. lia. }
  split; [exact allocated_cyclic|]. split; [exact Hsz|]. split; [exact Hl|].
  destruct (deep_copy_frame cyclic 1%positive allocated_cyclic Hsz)
    as (Hr & _ & _ & Hold & _).
  split; [exact Hr|]. split; [|vm_compute; reflexivity].
  exact (Hold 1%positive Hl).
Defined.

(** *** The invariant, rule by rule *)

Lemma triple_ret {A} (v : A) (Q : A → state → Prop) :
  triple (Q v) (ret v) Q.
Proof. intros s Hwf HP. split; [done|]. by intros ? [= <-]. Qed.

Lemma triple_bind {A B} (P : state → Prop) (Q : A → state → Prop)
    (R : B → state → Prop) (m : M A) (f : A → M B) :
  triple P m Q → (∀ v, triple (Q v) (f v) R) → triple P (bind m f) R.
Proof.
  intros Hm Hf s Hwf HP. destruct (Hm s Hwf HP) as [Hwf' HQ].
  unfold bind. destruct (m s) as [[s' out] [e|v]]; cbn in *; [done|].
  destruct (Hf v s' Hwf' (HQ v eq_refl)) as [Hwf'' HR].
  by destruct (f v s') as [[s'' out'] r].
Qed.

Lemma triple_weaken {A} (P P' : state → Prop) (Q Q' : A → state → Prop) (m : M A) :
  triple P' m Q' → (∀ s, wf s → P s → P' s) → (∀ v s, wf s → Q' v s → Q v s) →
  triple P m Q.
Proof.
  intros Hm HP HQ s Hwf Hp. destruct (Hm s Hwf (HP s Hwf Hp)) as [Hwf' Hq].
  split; [done|]. intros v Hv. by apply HQ, Hq.
Qed.

Lemma triple_read {A} (name : string) (proj : state → option A)
    (P : state → Prop) :
  triple P (read name proj) (λ v s, proj s = Some v ∧ P s).
Proof.
  intros s Hwf HP. unfold read. destruct (proj s) as [v|] eqn:E; cbn; [|done].
  split; [done|]. by intros ? [= <-].
Qed.

Lemma triple_print (o : shown) (P : state → Prop) :
  triple P (print o) (λ _, P).
Proof. intros s Hwf HP. by split. Qed.

Lemma triple_modify (f : state → state) (P : state → Prop) (Q : () → state → Prop) :
  (∀ s, wf s → P s → wf (f s) ∧ Q () (f s)) → triple P (modify f) Q.
Proof.
  intros Hf s Hwf HP. destruct (Hf s Hwf HP) as [Hwf' HQ]. split; [done|].
  by intros [] _.
Qed.

Lemma bound_mono (s s' : state) (r : ref) :
  (∀ k, is_Some (lists s !! k) → is_Some (lists s' !! k)) →
  (∀ k, is_Some (arrays s !! k) → is_Some (arrays s' !! k)) →
  bound s r → bound s' r.
Proof. intros Hl Ha. destruct r; cbn; auto. Qed.

(** A state with more objects and the same names. *)
Lemma wf_extend (s s' : state) :
  wf s → allocated s' →
  (∀ k, is_Some (lists s !! k) → is_Some (lists s' !! k)) →
  (∀ k, is_Some (arrays s !! k) → is_Some (arrays s' !! k)) →
  (∀ k, is_Some (frames s !! k) → is_Some (frames s' !! k)) →
  a s' = a s → b s' = b s → df s' = df s → df_copy s' = df_copy s →
  wf s'.
Proof.
  intros (_ & Ha & Hb & Hd & Hc) Hal Hl Har Hf Ea Eb Ed Ec.
  split; [done|]. rewrite Ea, Eb, Ed, Ec.
  split; [intros r Hr; by eapply bound_mono, Ha|].
  split; [intros r Hr; by eapply bound_mono, Hb|].
  split; [intros l Hl'; by apply Hf, Hd|intros l Hl'; by apply Hf, Hc].
Qed.

Lemma is_Some_insert_mono {V} (m : gmap loc V) (l k : loc) (x : V) :
  is_Some (m !! k) → is_Some (<[l := x]> m !! k).
Proof.
  intros Hk. destruct (decide (l = k)) as [->|Hne].
  - rewrite lookup_insert_eq. by eexists.
  - by rewrite lookup_insert_ne.
Qed.

Lemma triple_new_list (xs : list elem) (P : state → Prop) :
  triple P (new_list xs) (λ l s, bound s (RList l)).
Proof.
  intros s Hwf HP. split.
  - apply (wf_extend s); try done.
    + apply allocated_new_list, Hwf.
    + intros k. apply is_Some_insert_mono.
  - intros l [= <-]. cbn. rewrite lookup_insert_eq. by eexists.
Qed.

Lemma triple_new_array (xs : list Z) (P : state → Prop) :
  triple P (new_array xs) (λ l s, bound s (RArray l)).
Proof.
  intros s Hwf HP. split.
  - apply (wf_extend s); try done.
    + apply allocated_new_array, Hwf.
    + intros k. apply is_Some_insert_mono.
  - intros l [= <-]. cbn. rewrite lookup_insert_eq. by eexists.
Qed.

Lemma triple_new_frame (d : Frames.DataFrame) (P : state → Prop) :
  triple P (new_frame d) (λ l s, is_Some (frames s !! l)).
Proof.
  intros s Hwf HP. split.
  - apply (wf_extend s); try done.
    + apply allocated_new_frame, Hwf.
    + intros k. apply is_Some_insert_mono.
  - intros l [= <-]. cbn. rewrite lookup_insert_eq. by eexists.
Qed.

Lemma norm_index_nil (i : Z) : norm_index 0 i = None.
Proof. unfold norm_index. rewrite !decide_False; [done|cbn; lia|cbn; lia]. Qed.

Lemma lookup_total_unbound {V} `{!Inhabited V} (m : gmap loc V) (l : loc) :
  m !! l = None → m !!! l = inhabitant.
Proof. intros H. by rewrite lookup_total_alt, H. Qed.

(** Item assignment keeps the objects that exist and makes no new one:
    an object that does not exist has no item to assign. *)
Lemma triple_setitem (r : ref) (i v : Z) (P : state → Prop) :
  triple P (setitem r i v) (λ _ _, True).
Proof.
  intros s Hwf HP. split; [|done].
  destruct r as [l|l]; unfold setitem, get_list, get_array, bind.
  - destruct (lists s !! l) as [xs|] eqn:E.
    + destruct (norm_index _ _); [|done]. cbn.
      apply (wf_extend s); try done.
      * destruct Hwf as ((Hl & Ha & Hf) & _).
        repeat split; cbn; [|done..].
        intros k Hk. destruct (decide (k = l)) as [->|Hne]; [apply Hl; by eexists|].
        rewrite lookup_insert_ne in Hk by done. by apply Hl.
      * intros k. apply is_Some_insert_mono.
    + rewrite (lookup_total_unbound _ _ E). cbn. by rewrite norm_index_nil.
  - destruct (arrays s !! l) as [xs|] eqn:E.
    + destruct (norm_index _ _); [|done].
      destruct (decide (int64 v)); [|done]. cbn.
      apply (wf_extend s); try done.
      * destruct Hwf as ((Hl & Ha & Hf) & _).
        repeat split; cbn; [done| |done].
        intros k Hk. destruct (decide (k = l)) as [->|Hne]; [apply Ha; by eexists|].
        rewrite lookup_insert_ne in Hk by done. by apply Ha.
      * intros k. apply is_Some_insert_mono.
    + rewrite (lookup_total_unbound _ _ E). cbn. by rewrite norm_index_nil.
Qed.

Lemma setitem2_cases (s : state) (r : ref) (i j v : Z) :
  (∃ e, setitem2 r i j v s = (s, [], inl e)) ∨
  (∃ l', setitem2 r i j v s = setitem (RList l') j v s).
Proof.
  destruct r as [l|l]; unfold setitem2.
  - rewrite (bind_run _ _ s s [] (lists s !!! l) eq_refl).
    destruct (norm_index (length (lists s !!! l)) i) as [k|]; [|left; by eexists].
    destruct ((lists s !!! l) !! k) as [[n|l']|]; [left; by eexists| |left; by eexists].
    right. exists l'. by destruct (setitem (RList l') j v s) as [[? ?] ?].
  - rewrite (bind_run _ _ s s [] (arrays s !!! l) eq_refl).
    left. destruct (norm_index (length (arrays s !!! l)) i) as [k|]; by eexists.
Qed.

Lemma triple_setitem2 (r : ref) (i j v : Z) (P : state → Prop) :
  triple P (setitem2 r i j v) (λ _ _, True).
Proof.
  intros s Hwf HP. split; [|done].
  destruct (setitem2_cases s r i j v) as [[e ->]|[l' ->]]; [done|].
  apply (triple_setitem (RList l') j v (λ _, True) s Hwf I).
Qed.

Lemma triple_get_list (l : loc) (P : state → Prop) :
  triple P (get_list l) (λ _, P).
Proof. intros s Hwf HP. by split. Qed.

Lemma triple_get_array (l : loc) (P : state → Prop) :
  triple P (get_array l) (λ _, P).
Proof. intros s Hwf HP. by split. Qed.

Lemma triple_shallow_copy (r : ref) (P : state → Prop) :
  triple P (shallow_copy r) (λ y s, bound s y).
Proof.
  destruct r as [l|l]; unfold shallow_copy.
  - eapply triple_bind; [apply (triple_get_list l P)|].
    intros xs. eapply triple_bind; [apply triple_new_list|]. intros l'.
    apply (triple_ret (RList l') (λ y s, bound s y)).
  - eapply triple_bind; [apply (triple_get_array l P)|].
    intros xs. eapply triple_bind; [apply triple_new_array|]. intros l'.
    apply (triple_ret (RArray l') (λ y s, bound s y)).
Qed.

Lemma triple_deep_copy (r : ref) (P : state → Prop) :
  triple P (deep_copy r) (λ y s, bound s y).
Proof.
  destruct r as [l|l].
  - intros s Hwf _.
    destruct (deep_copy_run s l (proj1 Hwf))
      as (s' & -> & Hal' & Hold & Hnew & Harr & Hfr & Ea & Eb & Ed & Ec).
    cbn [fst snd]. split.
    + apply (wf_extend s); try done.
      * intros k Hk. rewrite Hold; [done|]. by apply (proj1 (proj1 Hwf)).
      * by rewrite Harr.
      * by rewrite Hfr.
    + by intros ? [= <-].
  - apply (triple_shallow_copy (RArray l)).
Qed.

Lemma triple_render (r : ref) (P : state → Prop) :
  triple P (render r) (λ _, P).
Proof. intros s Hwf HP. destruct r; by split. Qed.

Lemma triple_print_ref (r : ref) (P : state → Prop) :
  triple P (print_ref r) (λ _, P).
Proof.
  unfold print_ref. eapply triple_bind; [apply triple_render|].
  intros v. apply triple_print.
Qed.

Lemma triple_get_frame (l : loc) (P : state → Prop) :
  triple P (get_frame l) (λ _, P).
Proof. intros s Hwf HP. by split. Qed.

Lemma triple_done {A} (v : A) (P : state → Prop) :
  triple P (ret v) (λ _ _, True).
Proof. intros s Hwf HP. by split. Qed.

Lemma triple_set_a (x : option ref) (P : state → Prop) :
  (∀ s r, wf s → P s → x = Some r → bound s r) →
  triple P (modify (set_a x)) (λ _ _, True).
Proof.
  intros Hx. apply triple_modify. intros s Hwf HP. split; [|done].
  destruct Hwf as (Hal & Ha & Hb & Hd & Hc).
  split; [done|]. split; [|done]. intros r Hr. by apply (Hx s r).
Qed.

Lemma triple_set_b (x : option ref) (P : state → Prop) :
  (∀ s r, wf s → P s → x = Some r → bound s r) →
  triple P (modify (set_b x)) (λ _ _, True).
Proof.
  intros Hx. apply triple_modify. intros s Hwf HP. split; [|done].
  destruct Hwf as (Hal & Ha & Hb & Hd & Hc).
  split; [done|]. split; [done|]. split; [|done]. intros r Hr. by apply (Hx s r).
Qed.

Lemma triple_import (f : state → state) (P : state → Prop) :
  (∀ s, lists (f s) = lists s ∧ arrays (f s) = arrays s ∧ frames (f s) = frames s ∧
        next (f s) = next s ∧ a (f s) = a s ∧ b (f s) = b s ∧
        df (f s) = df s ∧ df_copy (f s) = df_copy s) →
  triple P (modify f) (λ _ _, True).
Proof.
  intros Hf. apply triple_modify. intros s Hwf HP. split; [|done].
  destruct (Hf s) as (El & Ear & Efr & En & Ea & Eb & Ed & Ec).
  apply (wf_extend s); try done; try (intros k; by rewrite ?El, ?Ear, ?Efr).
  destruct Hwf as ((Hl & Har & Hfr) & _).
  repeat split; rewrite ?El, ?Ear, ?Efr, En; done.
Qed.

Ltac tstep :=
  first
    [ apply triple_done
    | eapply triple_bind; [apply triple_read|intros ?]
    | eapply triple_bind; [apply triple_print|intros ?]
    | eapply triple_bind; [apply triple_print_ref|intros ?]
    | eapply triple_bind; [apply triple_render|intros ?]
    | eapply triple_bind; [apply triple_setitem|intros ?]
    | eapply triple_bind; [apply triple_setitem2|intros ?]
    | eapply triple_bind; [apply triple_shallow_copy|intros ?]
    | eapply triple_bind; [apply triple_deep_copy|intros ?]
    | eapply triple_bind; [apply triple_new_list|intros ?]
    | eapply triple_bind; [apply triple_new_array|intros ?]
    | eapply triple_bind; [apply triple_new_frame|intros ?]
    | eapply triple_bind; [apply triple_get_frame|intros ?]
    | eapply triple_bind;
        [apply triple_import; intros ?; repeat split; reflexivity|intros ?]
    | eapply triple_bind;
        [apply triple_set_a; intros ? ? Hwf HP [= <-];
         first [exact HP | by apply (proj1 (proj2 Hwf)), HP
               | by apply (proj1 (proj2 (proj2 Hwf))), HP]
        |intros ?]
    | eapply triple_bind;
        [apply triple_set_b; intros ? ? Hwf HP [= <-];
         first [exact HP | by apply (proj1 (proj2 Hwf)), HP
               | by apply (proj1 (proj2 (proj2 Hwf))), HP]
        |intros ?] ].

Lemma triple_assign_nested (P : state → Prop) :
  triple P assign_nested (λ _ _, True).
Proof.
  unfold assign_nested. do 3 tstep.
  apply triple_set_a. by intros s r Hwf HP [= <-].
Qed.

Lemma triple_assign_array (P : state → Prop) :
  triple P assign_array (λ _ _, True).
Proof.
  unfold assign_array. do 2 tstep.
  apply triple_set_a. by intros s r Hwf HP [= <-].
Qed.

Lemma triple_frame_changed : triple (λ _, True) cell_frame_changed (λ _ _, True).
Proof.
  unfold cell_frame_changed.
  eapply triple_bind; [apply triple_read|intros l].
  eapply triple_bind; [apply triple_get_frame|intros d].
  eapply (triple_bind _ (λ _ _, True)); [|intros ?; repeat tstep].
  apply triple_modify. intros s Hwf [Hdf _]. split; [|done].
  apply (wf_extend s); try done.
  - destruct Hwf as ((Hl & Har & Hfr) & _ & _ & _ & Hc).
    repeat split; cbn; try done.
    intros k Hk. destruct (decide (k = l)) as [->|Hne]; [by apply Hfr, Hc|].
    rewrite lookup_insert_ne in Hk by done. by apply Hfr.
  - intros k. apply is_Some_insert_mono.
Qed.

Lemma triple_frame_copy : triple (λ _, True) cell_frame_copy (λ _ _, True).
Proof.
  unfold cell_frame_copy. do 3 tstep.
  eapply (triple_bind _ (λ _ _, True)); [|intros ?; tstep].
  apply triple_modify. intros s Hwf Hb. split; [|done].
  destruct Hwf as (Hal & Ha & Hb' & Hd & Hc).
  split; [done|]. repeat split; try done. by intros l [= <-].
Qed.

Lemma triple_frame : triple (λ _, True) cell_frame (λ _ _, True).
Proof.
  unfold cell_frame. do 3 tstep.
  eapply (triple_bind _ (λ _ _, True)); [|intros ?; tstep].
  apply triple_modify. intros s Hwf Hb. split; [|done].
  destruct Hwf as (Hal & Ha & Hb' & Hd & Hc).
  split; [done|]. repeat split; try done. by intros l [= <-].
Qed.

Lemma triple_del : triple (λ _, True) cell_del (λ _ _, True).
Proof.
  unfold cell_del. tstep.
  eapply triple_bind; [apply triple_set_a; by intros|intros ?]. tstep.
  eapply triple_bind; [apply triple_set_b; by intros|intros ?]. tstep.
Qed.

(** X23: the invariant of the kernel state of the Copies notebook: the
    objects lie below the next free reference, so that a new object never
    takes the reference of another, and a name that is bound is bound to an
    object that exists. It holds in the fresh kernel, every cell of the
    notebook keeps it from any state that satisfies it, whether the cell
    raises or not, and so it holds before every cell of the run of the
    notebook. *)
Theorem cells_keep_invariant :
  wf fresh ∧
  (∀ c s, c ∈ notebook → wf s → wf (run_cell c s).1) ∧
  (∀ n, wf (state_before notebook n fresh)).
Proof.
  assert (Hfresh : wf fresh).
  { split; [apply allocated_fresh|]. repeat split; by intros. }
  assert (Hrun : ∀ c s, triple (λ _, True) c (λ _ _, True) → wf s → wf (run_cell c s).1).
  { intros c s Hc Hwf. destruct (Hc s Hwf I) as [Hwf' _]. unfold run_cell.
    by destruct (c s) as [[s' out] [e|v]]. }
  assert (Hcells : ∀ c s, c ∈ notebook → wf s → wf (run_cell c s).1).
  { intros c s Hin. apply Hrun. unfold notebook in Hin.
    repeat (apply elem_of_cons in Hin as [->|Hin];
            [first [apply triple_frame_changed | apply triple_frame_copy
                   | apply triple_frame | apply triple_del
                   | unfold cell_alias, cell_copy, cell_copy_changed, cell_nested_copy,
                       cell_nested_deepcopy, cell_import_numpy, cell_array_alias,
                       cell_array_copy, cell_a, cell_b, cell_empty;
                     repeat first [ eapply triple_bind; [apply triple_assign_nested|intros ?]
                                  | eapply triple_bind; [apply triple_assign_array|intros ?]
                                  | tstep ] ]|]).
    by apply elem_of_nil in Hin. }
  split; [done|]. split; [done|].
  intros n. unfold state_before.
  generalize (take n notebook) (subseteq_take n notebook).
  intros cells Hsub. revert Hfresh. generalize fresh.
  induction cells as [|c cells IH]; intros s Hwf; [done|].
  cbn [run_all]. pose proof (Hcells c s (Hsub c ltac:(left)) Hwf) as Hwf'.
  destruct (run_cell c s) as [s' o]. cbn [fst] in Hwf'.
  specialize (IH (λ x Hx, Hsub x ltac:(by right)) s' Hwf').
  by destruct (run_all cells s') as [s'' os].
Qed.

Lemma cells_keep_invariant_witness :
  cell_del ∈ notebook ∧ wf (state_before notebook 8 fresh) ∧
  wf (run_cell cell_del (state_before notebook 8 fresh)).1.
Proof.
  assert (Hin : cell_del ∈ notebook) by (apply list_elem_of_In; cbn; tauto).
  assert (Hwf : wf (state_before notebook 8 fresh))
    by exact (proj2 (proj2 cells_keep_invariant) 8%nat).
  split; [exact Hin|]. split; [exact Hwf|].
  exact (proj1 (proj2 cells_keep_invariant) cell_del _ Hin Hwf).
Defined.

End InvariantFacts.

(** ** The cells of the Copies notebook, in every kernel state *)

Module CellFacts.
Import Kernel Copies Heap Steps HeapFacts.

(** X24: [del a, b] unbinds the names from left to right and touches no
    object: with both names bound the cell unbinds both and shows nothing;
    with [a] unbound it raises the name error and leaves [b] bound; with
    [b] unbound it raises after it has unbound [a]. The cells [a] and [b]
    raise the name error wherever the name is unbound, and change
    nothing. *)
Theorem cell_del_outcome (s : state) :
  (is_Some (a s) → is_Some (b s) →
     run_cell cell_del s = (set_b None (set_a None s), quiet None)) ∧
  (a s = None →
     run_cell cell_del s = (s, Outcome [] None (Some (NameError "a")))) ∧
  (is_Some (a s) → b s = None →
     run_cell cell_del s = (set_a None s, Outcome [] None (Some (NameError "b")))) ∧
  (a s = None → run_cell cell_a s = (s, Outcome [] None (Some (NameError "a")))) ∧
  (b s = None → run_cell cell_b s = (s, Outcome [] None (Some (NameError "b")))).
Proof.
  unfold run_cell, cell_del, cell_a, cell_b.
  split; [|split; [|split; [|split]]].
  - intros [ra Ha] [rb Hb].
    rewrite (bind_read_bound _ _ _ _ ra Ha), bind_modify.
    by rewrite (bind_read_bound _ _ _ (set_a None s) rb Hb), bind_modify.
  - intros Ha. by rewrite (bind_read_unbound _ _ _ _ Ha).
  - intros [ra Ha] Hb.
    rewrite (bind_read_bound _ _ _ _ ra Ha), bind_modify.
    by rewrite (bind_read_unbound _ _ _ (set_a None s) Hb).
  - intros Ha. by rewrite (bind_read_unbound _ _ _ _ Ha).
  - intros Hb. by rewrite (bind_read_unbound _ _ _ _ Hb).
Qed.

Lemma cell_del_outcome_witness :
  is_Some (a (state_before notebook 8 fresh)) ∧
  is_Some (b (state_before notebook 8 fresh)) ∧
  (run_cell cell_del (state_before notebook 8 fresh)).2 = quiet None ∧
  (run_cell cell_del (set_b (Some (RList 1%positive)) fresh)).2
    = Outcome [] None (Some (NameError "a")).
Proof.
  assert (Ha : is_Some (a (state_before notebook 8 fresh)))
    by (eexists; vm_compute; reflexivity).
  assert (Hb : is_Some (b (state_before notebook 8 fresh)))
    by (eexists; vm_compute; reflexivity).
  split; [exact Ha|]. split; [exact Hb|]. split.
  - by rewrite (proj1 (cell_del_outcome (state_before notebook 8 fresh)) Ha Hb).
  - by rewrite (proj1 (proj2 (cell_del_outcome (set_b (Some (RList 1%positive)) fresh))) eq_refl).
Defined.

(** X25: a copy of a data frame is a new object: for every frame bound
    to [df] that has a row labelled 2 and a column ['column_2'] holding a
    string in every row, the cell [df_copy = df.copy()] binds [df_copy] to a
    new frame and shows nothing, and the cell that assigns the string
    through [df_copy.loc[2, 'column_2']] prints the frame of [df] as it was
    and the changed copy; the frame of [df] is not changed. *)
Theorem frame_copy_is_independent (s : state) (l : loc) (d : Frames.DataFrame) :
  allocated s → df s = Some l → frames s !! l = Some d →
  length (Frames.index d) = length (Frames.rows d) →
  2 ∈ Frames.index d → "column_2" ∈ Frames.columns d →
  Forall (λ r, ∃ x, r !! "column_2" = Some (Frames.CStr x)) (Frames.rows d) →
  let s1 := (run_cell cell_frame_copy s).1 in
  let s2 := (run_cell cell_frame_changed s1).1 in
  let d' := Frames.set_loc 2 "column_2" (Frames.CStr "cd") d in
  (run_cell cell_frame_copy s).2 = quiet None ∧
  df_copy s1 = Some (next s) ∧
  (run_cell cell_frame_changed s1).2 =
    Outcome [SStr "df = "; SFrame d; SStr ""; SStr "df_copy = "; SFrame d'] None None ∧
  frames s2 !! l = Some d ∧ frames s2 !! next s = Some d' ∧
  Frames.columns d' = Frames.columns d ∧ Frames.index d' = Frames.index d ∧
  (∀ k lab r, Frames.index d !! k = Some lab → Frames.rows d !! k = Some r →
     Frames.rows d' !! k =
       Some (if decide (lab = 2) then <["column_2" := Frames.CStr "cd"]> r else r)) ∧
  Forall (λ r, ∃ x, r !! "column_2" = Some (Frames.CStr x)) (Frames.rows d').
Proof.
  intros Hal Hdf Hl Hlen Hi Hc Hstr s1 s2 d'.
  assert (Hd' : d' = {| Frames.columns := Frames.columns d;
                         Frames.index := Frames.index d;
                         Frames.rows :=
                           zip_with (λ lab r, if decide (lab = 2)
                                              then <["column_2" := Frames.CStr "cd"]> r
                                              else r)
                             (Frames.index d) (Frames.rows d) |}).
  { unfold d', Frames.set_loc. by rewrite !decide_True. }
  assert (Hrows : ∀ k lab r,
            Frames.index d !! k = Some lab → Frames.rows d !! k = Some r →
            Frames.rows d' !! k =
              Some (if decide (lab = 2) then <["column_2" := Frames.CStr "cd"]> r else r)).
  { intros k lab r Hk Hr. rewrite Hd'. cbn [Frames.rows].
    rewrite lookup_zip_with, Hk. cbn. by rewrite Hr. }
  assert (Hstr' : Forall (λ r, ∃ x, r !! "column_2" = Some (Frames.CStr x))
                    (Frames.rows d')).
  { rewrite Hd'. cbn [Frames.rows]. apply Forall_lookup. intros k r' Hk.
    apply lookup_zip_with_Some in Hk as (lab & r & -> & _ & Hr).
    destruct (decide (lab = 2)).
    - exists "cd". by rewrite lookup_insert_eq.
    - exact (proj1 (Forall_lookup _ _) Hstr k r Hr). }
  assert (Hne : l ≠ next s).
  { destruct Hal as (_ & _ & Hfr). assert (l < next s)%positive; [|lia].
    apply Hfr. by eexists. }
  assert (Hs1 : run_cell cell_frame_copy s =
                  (set_df_copy (Some (next s))
                     (set_next (Pos.succ (next s))
                        (set_frames (<[next s := d]> (frames s)) s)), quiet None)).
  { unfold run_cell, cell_frame_copy.
    rewrite (bind_read_bound _ _ _ _ l Hdf).
    unfold get_frame at 1. rewrite (bind_run _ _ s s [] d) by (by rewrite Hl).
    unfold new_frame. erewrite bind_run; [|reflexivity].
    rewrite bind_modify. reflexivity. }
  assert (Hs2 : run_cell cell_frame_changed s1 =
                  (set_frames (<[next s := d']> (frames s1)) s1,
                   Outcome [SStr "df = "; SFrame d; SStr ""; SStr "df_copy = "; SFrame d']
                     None None)).
  { unfold s1. rewrite Hs1. cbn [fst]. unfold run_cell, cell_frame_changed.
    rewrite (bind_read_bound _ _ _ _ (next s)) by reflexivity.
    unfold get_frame at 1.
    rewrite (bind_run _ _ _ _ [] d)
      by (cbn; by rewrite lookup_insert_eq).
    rewrite bind_modify, bind_print.
    rewrite (bind_read_bound _ _ _ _ l) by exact Hdf.
    unfold get_frame at 1.
    erewrite (bind_run _ _ _ _ [] d)
      by (cbn; rewrite !lookup_insert_ne by done; by rewrite Hl).
    rewrite !bind_print.
    rewrite (bind_read_bound _ _ _ _ (next s)) by reflexivity.
    unfold get_frame at 1.
    erewrite (bind_run _ _ _ _ [] d')
      by (cbn; by rewrite lookup_insert_eq).
    rewrite bind_print. reflexivity. }
  unfold s2. rewrite Hs2. unfold s1. rewrite Hs1. cbn.
  split; [done|]. split; [done|]. split; [done|].
  rewrite insert_insert_eq.
  split; [by rewrite lookup_insert_ne|]. split; [by rewrite lookup_insert_eq|].
  split; [by rewrite Hd'|]. split; [by rewrite Hd'|]. split; [exact Hrows|exact Hstr'].
Qed.

Lemma frame_copy_is_independent_witness :
  allocated (run_cell cell_frame fresh).1 ∧
  df (run_cell cell_frame fresh).1 = Some 1%positive ∧
  frames (run_cell cell_frame fresh).1 !! 1%positive = Some frame_literal ∧
  2 ∈ Frames.index frame_literal ∧ "column_2" ∈ Frames.columns frame_literal ∧
  frames (run_cell cell_frame_changed
            (run_cell cell_frame_copy (run_cell cell_frame fresh).1).1).1 !! 1%positive
    = Some frame_literal.
Proof.
  assert (Hal : allocated (run_cell cell_frame fresh).1)
    by apply (allocated_new_frame (set_pd (Some ()) fresh)), allocated_fresh.
  assert (Hi : 2 ∈ Frames.index frame_literal)
    by (apply list_elem_of_In; vm_compute; tauto).
  assert (Hc : "column_2" ∈ Frames.columns frame_literal)
    by (apply list_elem_of_In; vm_compute; tauto).
  assert (Hs : Forall (λ r, ∃ x, r !! "column_2" = Some (Frames.CStr x))
                 (Frames.rows frame_literal)).
  { repeat constructor; eexists; reflexivity. }
  split; [exact Hal|]. split; [reflexivity|]. split; [reflexivity|].
  split; [exact Hi|]. split; [exact Hc|].
  exact (proj1 (proj2 (proj2 (proj2 (frame_copy_is_independent
           (run_cell cell_frame fresh).1 1%positive frame_literal Hal eq_refl eq_refl
           eq_refl Hi Hc Hs))))).
Defined.

Lemma setitem_array_run (s : state) (l : loc) (xs : list Z) (i v : Z) (k : nat) :
  arrays s !! l = Some xs → norm_index (length xs) i = Some k → int64 v →
  setitem (RArray l) i v s = (set_arrays (<[l := <[k := v]> xs]> (arrays s)) s, [], inr ()).
Proof.
  intros Hl Hi Hv. unfold setitem.
  rewrite (bind_run _ _ s s [] xs) by (unfold get_array; by rewrite lookup_total_alt, Hl).
  by rewrite Hi, decide_True.
Qed.

Lemma print_array {B} (s : state) (l : loc) (xs : list Z) (k : () → M B) :
  arrays s !! l = Some xs →
  bind (print_ref (RArray l)) k s =
    (let '(s', out, r) := k () s in (s', SArray xs :: out, r)).
Proof.
  intros Hl.
  assert (Hr : render (RArray l) s = (s, [], inr (SArray xs))).
  { unfold render.
    rewrite (bind_run _ _ s s [] xs) by (unfold get_array; by rewrite lookup_total_alt, Hl).
    reflexivity. }
  unfold print_ref. unfold bind at 1. unfold bind at 1. rewrite Hr.
  unfold print. by destruct (k () s) as [[? ?] ?].
Qed.

(** X26: the two cells on the numpy array, in every kernel state: where
    numpy is imported, after [b = a] the item assigned through [b] shows in
    both printed arrays, and after [b = a.copy()] only in the second; where
    [np] is unbound both cells raise the name error and print nothing. *)
Theorem array_cells_outcome (s : state) :
  (np s = Some () →
     (run_cell cell_array_alias s).2
       = Outcome [SArray [1; 2; 1; 4]; SArray [1; 2; 1; 4]] None None ∧
     (run_cell cell_array_copy s).2
       = Outcome [SArray [1; 2; 3; 4]; SArray [1; 2; 1; 4]] None None) ∧
  (np s = None →
     (run_cell cell_array_alias s).2 = Outcome [] None (Some (NameError "np")) ∧
     (run_cell cell_array_copy s).2 = Outcome [] None (Some (NameError "np"))).
Proof.
  split.
  - intros Hnp.
    assert (Hassign : assign_array s =
              (set_a (Some (RArray (next s)))
                 (set_next (Pos.succ (next s))
                    (set_arrays (<[next s := [1; 2; 3; 4]]> (arrays s)) s)), [], inr ())).
    { unfold assign_array. rewrite (bind_read_bound _ _ _ _ () Hnp).
      unfold new_array. erewrite bind_run; [|reflexivity]. reflexivity. }
    split.
    + unfold run_cell, cell_array_alias.
      rewrite (bind_run _ _ _ _ _ _ Hassign).
      rewrite (bind_read_bound _ _ _ _ (RArray (next s))) by reflexivity.
      rewrite bind_modify.
      rewrite (bind_read_bound _ _ _ _ (RArray (next s))) by reflexivity.
      erewrite bind_run;
        [|apply (setitem_array_run _ _ [1; 2; 3; 4] 2 1 2);
          [cbn; by rewrite lookup_insert_eq|reflexivity|unfold int64; lia]].
      rewrite (bind_read_bound _ _ _ _ (RArray (next s))) by reflexivity.
      rewrite (print_array _ _ [1; 2; 1; 4]) by (cbn; by rewrite lookup_insert_eq).
      rewrite (bind_read_bound _ _ _ _ (RArray (next s))) by reflexivity.
      rewrite (print_array _ _ [1; 2; 1; 4]) by (cbn; by rewrite lookup_insert_eq).
      reflexivity.
    + assert (Hne : Pos.succ (next s) ≠ next s) by lia.
      unfold run_cell, cell_array_copy.
      rewrite (bind_run _ _ _ _ _ _ Hassign).
      rewrite (bind_read_bound _ _ _ _ (RArray (next s))) by reflexivity.
      erewrite bind_run;
        [|unfold shallow_copy, get_array, new_array;
          erewrite bind_run; [|reflexivity];
          erewrite bind_run; [|reflexivity]; reflexivity].
      rewrite bind_modify.
      rewrite (bind_read_bound _ _ _ _ (RArray (Pos.succ (next s)))) by reflexivity.
      erewrite bind_run;
        [|apply (setitem_array_run _ _ [1; 2; 3; 4] 2 1 2);
          [cbn; by rewrite lookup_insert_eq, lookup_total_insert_eq|reflexivity
          |unfold int64; lia]].
      rewrite (bind_read_bound _ _ _ _ (RArray (next s))) by reflexivity.
      rewrite (print_array _ _ [1; 2; 3; 4])
        by (cbn; rewrite !lookup_insert_ne by lia; by rewrite lookup_insert_eq).
      rewrite (bind_read_bound _ _ _ _ (RArray (Pos.succ (next s)))) by reflexivity.
      rewrite (print_array _ _ [1; 2; 1; 4]) by (cbn; by rewrite lookup_insert_eq).
      reflexivity.
  - intros Hnp. unfold run_cell, cell_array_alias, cell_array_copy, assign_array.
    split.
    + erewrite bind_raise; [done|]. by rewrite (bind_read_unbound _ _ _ _ Hnp).
    + erewrite bind_raise; [done|]. by rewrite (bind_read_unbound _ _ _ _ Hnp).
Qed.

Lemma array_cells_outcome_witness :
  np (set_np (Some ()) fresh) = Some () ∧
  (run_cell cell_array_copy (set_np (Some ()) fresh)).2
    = Outcome [SArray [1; 2; 3; 4]; SArray [1; 2; 1; 4]] None None ∧
  np fresh = None ∧
  (run_cell cell_array_alias fresh).2 = Outcome [] None (Some (NameError "np")).
Proof.
  split; [reflexivity|]. split; [|split; [reflexivity|]].
  - exact (proj2 (proj1 (array_cells_outcome (set_np (Some ()) fresh)) eq_refl)).
  - exact (proj1 (proj2 (array_cells_outcome fresh) eq_refl)).
Defined.

(** X27: the first two cells, in every kernel state: after [b = a] the
    two names hold one new list and both printed lists show the item
    assigned through [b]; [import copy; b=copy.copy(a)] binds [b] to a new
    list with the elements of the list of [a] and changes no list, and
    where [a] is unbound it raises the name error after the import, which
    stays in effect. *)
Theorem list_cells_outcome (s : state) :
  (run_cell cell_alias s).2
    = Outcome [SValue (PList (PInt <$> [1; 2; 3; 71; 5; 6]));
               SValue (PList (PInt <$> [1; 2; 3; 71; 5; 6]))] None None ∧
  a (run_cell cell_alias s).1 = Some (RList (next s)) ∧
  b (run_cell cell_alias s).1 = Some (RList (next s)) ∧
  (∀ l, a s = Some (RList l) →
     run_cell cell_copy s =
       (set_b (Some (RList (next s)))
          (set_next (Pos.succ (next s))
             (set_lists (<[next s := lists s !!! l]> (lists s))
                (set_copy (Some ()) s))), quiet None)) ∧
  (a s = None →
     run_cell cell_copy s =
       (set_copy (Some ()) s, Outcome [] None (Some (NameError "a")))).
Proof.
  assert (Halias : run_cell cell_alias s =
            (set_lists (<[next s := int_list [1; 2; 3; 71; 5; 6]]>
                          (<[next s := int_list [1; 2; 3; 4; 5; 6]]> (lists s)))
               (set_b (Some (RList (next s)))
                  (set_a (Some (RList (next s)))
                     (set_next (Pos.succ (next s))
                        (set_lists (<[next s := int_list [1; 2; 3; 4; 5; 6]]> (lists s)) s)))),
             Outcome [SValue (PList (PInt <$> [1; 2; 3; 71; 5; 6]));
                      SValue (PList (PInt <$> [1; 2; 3; 71; 5; 6]))] None None)).
  { unfold run_cell, cell_alias.
    erewrite bind_run; [|reflexivity]. rewrite bind_modify.
    rewrite (bind_read_bound _ _ _ _ (RList (next s))) by reflexivity.
    rewrite bind_modify.
    rewrite (bind_read_bound _ _ _ _ (RList (next s))) by reflexivity.
    erewrite bind_run;
      [|rewrite (setitem_flat _ (next s) [1; 2; 3; 4; 5; 6])
          by (cbn; by rewrite lookup_insert_eq); reflexivity].
    rewrite (bind_read_bound _ _ _ _ (RList (next s))) by reflexivity.
    rewrite (print_flat _ _ [1; 2; 3; 71; 5; 6]) by (cbn; by rewrite lookup_insert_eq).
    rewrite (bind_read_bound _ _ _ _ (RList (next s))) by reflexivity.
    rewrite (print_flat _ _ [1; 2; 3; 71; 5; 6]) by (cbn; by rewrite lookup_insert_eq).
    reflexivity. }
  rewrite Halias. split; [done|]. split; [done|]. split; [done|]. split.
  - intros l Ha. unfold run_cell, cell_copy.
    rewrite bind_modify.
    rewrite (bind_read_bound _ _ _ _ ()) by reflexivity.
    rewrite (bind_read_bound _ _ _ _ (RList l)) by exact Ha.
    erewrite bind_run; [|reflexivity]. rewrite bind_modify. reflexivity.
  - intros Ha. unfold run_cell, cell_copy.
    rewrite bind_modify.
    rewrite (bind_read_bound _ _ _ _ ()) by reflexivity.
    by rewrite bind_read_unbound.
Qed.

Lemma list_cells_outcome_witness :
  a (run_cell cell_alias fresh).1 = Some (RList 1%positive) ∧
  lists (run_cell cell_copy (run_cell cell_alias fresh).1).1 !! 2%positive
    = Some (int_list [1; 2; 3; 71; 5; 6]) ∧
  a fresh = None ∧
  copy (run_cell cell_copy fresh).1 = Some ().
Proof.
  assert (Ha : a (run_cell cell_alias fresh).1 = Some (RList 1%positive))
    by exact (proj1 (proj2 (list_cells_outcome fresh))).
  split; [exact Ha|]. split; [|split; [reflexivity|]].
  - by rewrite (proj1 (proj2 (proj2 (proj2 (list_cells_outcome
                                             (run_cell cell_alias fresh).1))))
                  1%positive Ha).
  - by rewrite (proj2 (proj2 (proj2 (proj2 (list_cells_outcome fresh)))) eq_refl).
Defined.

End CellFacts.
